(** * Analytics engine: event ingestion and analytics-query pipeline

    A shallow embedding of the TypeScript sources
    (src/utils/userAgent.ts, src/middleware/auth.ts,
    src/middleware/rateLimiter.ts, src/config/redis.ts,
    src/controllers/analyticsController.ts, src/database/schema.sql)
    together with the properties the specification states about them.

    Conventions.
    - JS strings are [string]; a request header is a Latin-1 string, one
      [ascii] per code unit.
    - Timestamps are [Z], milliseconds since the epoch.
    - A value that may be [undefined]/[null] (or SQL NULL) is an [option].
    - The relational store is a record of row lists, the Redis cache a
      [gmap] from keys to (value, expiry time).
    - What a call cannot control (the clock, whether the store or the
      cache answers, the identifier the store generates) is an [Env]. *)

From Stdlib Require Import ZArith List Bool Ascii String Lia Sorted.
From Stdlib.Strings Require Byte.
From stdpp Require Import gmap strings list fin_maps pretty.

Import ListNotations.
Set Warnings "-register-all".
Local Open Scope string_scope.
Local Open Scope Z_scope.

(** ** JavaScript string primitives *)

Module JsString.

(** [String.prototype.toLowerCase] on one Latin-1 code unit: A-Z and the
    accented capitals U+00C0..U+00DE (U+00D7, the multiplication sign,
    excepted) move up by 32. *)
Definition lower_char (c : ascii) : ascii :=
  let n := N_of_ascii c in
  if ((65 <=? n) && (n <=? 90))%N
     || ((192 <=? n) && (n <=? 222) && negb (n =? 215))%N
  then ascii_of_N (n + 32) else c.

Fixpoint toLowerCase (s : string) : string :=
  match s with
  | EmptyString => EmptyString
  | String c s' => String (lower_char c) (toLowerCase s')
  end.

(** [String.prototype.includes]: [sub] occurs somewhere in [s]. *)
Fixpoint includes (s sub : string) : bool :=
  String.prefix sub s ||
  match s with
  | EmptyString => false
  | String _ s' => includes s' sub
  end.

(** JS truthiness of a possibly-undefined string: [undefined] and the
    empty string are falsy. *)
Definition truthy (o : option string) : bool :=
  match o with
  | Some s => negb (String.eqb s "")
  | None => false
  end.

(** [a || b] on possibly-undefined strings. *)
Definition or_else (a b : option string) : option string :=
  if truthy a then a else b.

(** [a || 'literal']. *)
Definition or_default (a : option string) (d : string) : string :=
  match or_else a None with
  | Some s => s
  | None => d
  end.

(** White space removed by [String.prototype.trim] (Latin-1 range). *)
Definition is_space (c : ascii) : bool :=
  let n := N_of_ascii c in
  (((9 <=? n) && (n <=? 13)) || (n =? 32) || (n =? 160))%N.

Fixpoint trim_start (s : string) : string :=
  match s with
  | String c s' => if is_space c then trim_start s' else s
  | EmptyString => EmptyString
  end.

Fixpoint trim_end (s : string) : string :=
  match s with
  | EmptyString => EmptyString
  | String c s' =>
      match trim_end s' with
      | EmptyString => if is_space c then EmptyString else String c EmptyString
      | t => String c t
      end
  end.

Definition trim (s : string) : string := trim_end (trim_start s).

(** [s.split(',')[0]]: the text before the first comma. *)
Fixpoint before_comma (s : string) : string :=
  match s with
  | EmptyString => EmptyString
  | String c s' =>
      if Ascii.eqb c "," then EmptyString else String c (before_comma s')
  end.

End JsString.

(** ** src/utils/userAgent.ts *)

Module UserAgent.
Import JsString.

Record ParsedUserAgent := {
  browser : string;
  os : string;
  device : string;
}.

Definition detect_browser (ua : string) : string :=
  if includes ua "chrome" && negb (includes ua "edg") then "Chrome"
  else if includes ua "safari" && negb (includes ua "chrome") then "Safari"
  else if includes ua "firefox" then "Firefox"
  else if includes ua "edg" then "Edge"
  else if includes ua "opera" || includes ua "opr" then "Opera"
  else "Unknown".

Definition detect_os (ua : string) : string :=
  if includes ua "windows" then "Windows"
  else if includes ua "mac" then "macOS"
  else if includes ua "linux" then "Linux"
  else if includes ua "android" then "Android"
  else if includes ua "ios" || includes ua "iphone" || includes ua "ipad"
       then "iOS"
  else "Unknown".

Definition detect_device (ua : string) : string :=
  if includes ua "mobile" || includes ua "android" then "mobile"
  else if includes ua "tablet" || includes ua "ipad" then "tablet"
  else "desktop".

Definition parseUserAgent (userAgent : string) : ParsedUserAgent :=
  let ua := toLowerCase userAgent in
  {| browser := detect_browser ua;
     os := detect_os ua;
     device := detect_device ua |}.

End UserAgent.

(** ** JavaScript values that cross the wire or the cache *)

Module Json.

Inductive json :=
| JNull
| JBool (b : bool)
| JNum (n : Z)
| JStr (s : string)
| JDate (t : Z)                       (* a JS [Date] object *)
| JArr (items : list json)
| JObj (fields : list (string * json)).

(** Property read [o.k]; [None] is [undefined]. *)
Fixpoint assoc_get (k : string) (fs : list (string * json)) : option json :=
  match fs with
  | [] => None
  | (k', v) :: fs' => if String.eqb k k' then Some v else assoc_get k fs'
  end.

Definition jget (k : string) (o : json) : option json :=
  match o with
  | JObj fs => assoc_get k fs
  | _ => None
  end.

(** Property write [o[k] = v]: an existing key keeps its position. *)
Fixpoint assoc_set (k : string) (v : json) (fs : list (string * json))
  : list (string * json) :=
  match fs with
  | [] => [(k, v)]
  | (k', v') :: fs' =>
      if String.eqb k k' then (k, v) :: fs' else (k', v') :: assoc_set k v fs'
  end.

(** An object built from a key/value sequence, later duplicates winning
    (what [JSON.parse] does with the text of [json_object_agg]). *)
Definition obj_of_pairs (kvs : list (string * json)) : list (string * json) :=
  fold_left (fun acc kv => assoc_set (fst kv) (snd kv) acc) kvs [].

Definition dquote : string := String (ascii_of_N 34) EmptyString.
Definition bslash : string := String (ascii_of_N 92) EmptyString.

Definition hex_digit (n : N) : ascii :=
  ascii_of_N (if (n <? 10)%N then 48 + n else 87 + n).

(** [JSON.stringify] on one code unit inside a string literal. *)
Definition escape_char (c : ascii) : string :=
  let n := N_of_ascii c in
  if (n =? 34)%N then bslash ++ dquote
  else if (n =? 92)%N then bslash ++ bslash
  else if (n =? 8)%N then bslash ++ "b"
  else if (n =? 9)%N then bslash ++ "t"
  else if (n =? 10)%N then bslash ++ "n"
  else if (n =? 12)%N then bslash ++ "f"
  else if (n =? 13)%N then bslash ++ "r"
  else if (n <? 32)%N then
    bslash ++ "u00"
      ++ String (hex_digit (n / 16)) (String (hex_digit (n mod 16)) "")
  else String c "".

Fixpoint escape (s : string) : string :=
  match s with
  | EmptyString => EmptyString
  | String c s' => escape_char c ++ escape s'
  end.

Definition quote (s : string) : string := dquote ++ escape s ++ dquote.

Fixpoint join_comma (l : list string) : string :=
  match l with
  | [] => ""
  | [x] => x
  | x :: l' => x ++ "," ++ join_comma l'
  end.

(** What the program takes from its runtime and drivers without defining it:
    how a [Date] prints, how PostgreSQL prints a timestamp inside a JSON
    aggregate, and [JSON.parse] ([None] when it throws). *)
Class Runtime := {
  Date_toString : Z -> string;
  Date_toISOString : Z -> string;
  pg_timestamp_json : Z -> string;
  JSON_parse : string -> option json;
}.

Section Stringify.
Context {RT : Runtime}.

(** [JSON.stringify] (compact form, no indentation). *)
Fixpoint JSON_stringify (v : json) : string :=
  match v with
  | JNull => "null"
  | JBool true => "true"
  | JBool false => "false"
  | JNum n => pretty n
  | JStr s => quote s
  | JDate t => quote (Date_toISOString t)
  | JArr items => "[" ++ join_comma (List.map JSON_stringify items) ++ "]"
  | JObj fields =>
      "{" ++ join_comma
               (List.map (fun kv => match kv with
                                    | (k, x) => quote k ++ ":" ++ JSON_stringify x
                                    end) fields) ++ "}"
  end.

End Stringify.

End Json.

(** ** A reference runtime

    Used to run the model on concrete requests: dates print as their epoch
    milliseconds and [JSON.parse] is a parser for the compact text that
    [JSON_stringify] emits. *)

Module Reference.
Import Json.

Definition digit_of (c : ascii) : option Z :=
  let n := N_of_ascii c in
  if ((48 <=? n) && (n <=? 57))%N then Some (Z.of_N (n - 48)) else None.

Fixpoint parse_digits (acc : Z) (s : string) : Z * string :=
  match s with
  | String c s' =>
      match digit_of c with
      | Some d => parse_digits (10 * acc + d) s'
      | None => (acc, s)
      end
  | EmptyString => (acc, s)
  end.

Definition hex_of (c : ascii) : option N :=
  let n := N_of_ascii c in
  if ((48 <=? n) && (n <=? 57))%N then Some (n - 48)%N
  else if ((97 <=? n) && (n <=? 102))%N then Some (n - 87)%N
  else None.

(** The text after an opening quote, up to the closing one. *)
Fixpoint parse_chars (s : string) : option (string * string) :=
  match s with
  | EmptyString => None
  | String c s' =>
      if (N_of_ascii c =? 34)%N then Some (EmptyString, s')
      else if (N_of_ascii c =? 92)%N then
        match s' with
        | String e s2 =>
            let keep (x : N) (rest : option (string * string)) :=
              match rest with
              | Some (t, r) => Some (String (ascii_of_N x) t, r)
              | None => None
              end in
            match N_of_ascii e with
            | 34%N => keep 34%N (parse_chars s2)
            | 92%N => keep 92%N (parse_chars s2)
            | 98%N => keep 8%N (parse_chars s2)
            | 116%N => keep 9%N (parse_chars s2)
            | 110%N => keep 10%N (parse_chars s2)
            | 102%N => keep 12%N (parse_chars s2)
            | 114%N => keep 13%N (parse_chars s2)
            | 117%N =>
                match s2 with
                | String _ (String _ (String h (String l s3))) =>
                    match hex_of h, hex_of l with
                    | Some a, Some b => keep (16 * a + b)%N (parse_chars s3)
                    | _, _ => None
                    end
                | _ => None
                end
            | _ => None
            end
        | EmptyString => None
        end
      else
        match parse_chars s' with
        | Some (t, r) => Some (String c t, r)
        | None => None
        end
  end.

Definition expect (lit : string) (v : json) (s : string)
  : option (json * string) :=
  if String.prefix lit s
  then Some (v, String.substring (String.length lit)
                                 (String.length s - String.length lit) s)
  else None.

Fixpoint parse_value (fuel : nat) (s : string) : option (json * string) :=
  match fuel with
  | O => None
  | S f =>
      match s with
      | EmptyString => None
      | String c rest =>
          match N_of_ascii c with
          | 110%N => expect "ull" JNull rest
          | 116%N => expect "rue" (JBool true) rest
          | 102%N => expect "alse" (JBool false) rest
          | 34%N =>
              match parse_chars rest with
              | Some (t, r) => Some (JStr t, r)
              | None => None
              end
          | 45%N =>
              let '(n, r) := parse_digits 0 rest in Some (JNum (- n), r)
          | 91%N =>
              match rest with
              | String "]" r => Some (JArr [], r)
              | _ =>
                (fix items (n : nat) (s : string) (acc : list json) :=
                   match n with
                   | O => None
                   | S n' =>
                       match parse_value f s with
                       | Some (v, String "," s') => items n' s' (acc ++ [v])%list
                       | Some (v, String "]" s') => Some (JArr (acc ++ [v])%list, s')
                       | _ => None
                       end
                   end) f rest []
              end
          | 123%N =>
              match rest with
              | String "}" r => Some (JObj [], r)
              | _ =>
                (fix members (n : nat) (s : string) (acc : list (string * json)) :=
                   match n with
                   | O => None
                   | S n' =>
                       match s with
                       | String q s1 =>
                           if (N_of_ascii q =? 34)%N then
                             match parse_chars s1 with
                             | Some (k, String ":" s2) =>
                                 match parse_value f s2 with
                                 | Some (v, String "," s') =>
                                     members n' s' (acc ++ [(k, v)])%list
                                 | Some (v, String "}" s') =>
                                     Some (JObj (obj_of_pairs (acc ++ [(k, v)])%list), s')
                                 | _ => None
                                 end
                             | _ => None
                             end
                           else None
                       | EmptyString => None
                       end
                   end) f rest []
              end
          | _ =>
              match digit_of c with
              | Some _ => let '(n, r) := parse_digits 0 s in Some (JNum n, r)
              | None => None
              end
          end
      end
  end.

Definition parse (s : string) : option json :=
  match parse_value (S (String.length s)) s with
  | Some (v, EmptyString) => Some v
  | _ => None
  end.

#[export] Instance runtime : Runtime := {|
  Date_toString t := pretty t;
  Date_toISOString t := pretty t;
  pg_timestamp_json t := pretty t;
  JSON_parse := parse;
|}.

End Reference.

(** ** The relational store (src/database/schema.sql) and the cache
       (src/config/redis.ts) *)

Module Store.
Import JsString Json.

Record UserRow := {
  u_id : string;
  u_google_id : string;
  u_email : string;
  u_name : option string;
}.

Record ApiKeyRow := {
  ak_id : string;
  ak_user_id : string;
  ak_app_name : string;
  ak_app_domain : option string;
  ak_api_key : string;
  ak_is_active : option bool;          (* BOOLEAN DEFAULT true, nullable *)
  ak_expires_at : option Z;
  ak_created_at : option Z;
  ak_revoked_at : option Z;
  ak_last_used_at : option Z;
}.

Record EventRow := {
  e_id : string;
  e_api_key_id : string;
  e_event_name : string;
  e_url : option string;
  e_referrer : option string;
  e_device : option string;
  e_ip_address : option string;
  e_user_agent : option string;
  e_browser : option string;
  e_os : option string;
  e_screen_size : option json;         (* the parameter as handed to the driver *)
  e_user_id : option string;
  e_metadata : option string;          (* JSONB, kept as its text *)
  e_timestamp : Z;
  e_created_at : option Z;
}.

Record Db := {
  users : list UserRow;
  api_keys : list ApiKeyRow;
  events : list EventRow;
}.

(** The circumstances of one call: the clock, whether [pool.query]
    resolves or rejects, whether the Redis client answers or throws, and
    the identifier [uuid_generate_v4()] hands out on an insert. *)
Record Env := {
  now : Z;
  db_ok : bool;
  redis_ok : bool;
  new_uuid : string;
}.

(** SQL [a = b] used as a condition: NULL on either side is not true. *)
Definition sql_eq (a b : option string) : bool :=
  match a, b with
  | Some x, Some y => String.eqb x y
  | _, _ => false
  end.

(** *** Identifiers *)

Definition is_hex (c : ascii) : bool :=
  let n := N_of_ascii c in
  (((48 <=? n) && (n <=? 57)) || ((97 <=? n) && (n <=? 102))
   || ((65 <=? n) && (n <=? 70)))%N.

(** The text form of a UUID starts with a hexadecimal digit. *)
Definition starts_hex (id : string) : Prop :=
  match id with
  | String c _ => is_hex c = true
  | EmptyString => False
  end.

(** *** Redis *)

(** Glob matching of the Redis [KEYS] command: [*], [?] and backslash
    escapes.  Bracket classes are left out; the one pattern the program
    builds is a literal prefix followed by a star. *)
Fixpoint glob_match (p : string) (s : string) {struct p} : bool :=
  match p with
  | EmptyString =>
      match s with EmptyString => true | String _ _ => false end
  | String c p' =>
      if (N_of_ascii c =? 42)%N then
        (fix star (s : string) : bool :=
           glob_match p' s ||
           match s with
           | EmptyString => false
           | String _ s' => star s'
           end) s
      else if (N_of_ascii c =? 63)%N then
        match s with
        | String _ s' => glob_match p' s'
        | EmptyString => false
        end
      else if (N_of_ascii c =? 92)%N then
        match p' with
        | String e p'' =>
            match s with
            | String x s' => Ascii.eqb e x && glob_match p'' s'
            | EmptyString => false
            end
        | EmptyString =>
            match s with
            | String x s' => Ascii.eqb c x && glob_match p' s'
            | EmptyString => false
            end
        end
      else
        match s with
        | String x s' => Ascii.eqb c x && glob_match p' s'
        | EmptyString => false
        end
  end.

(** A cache entry: the stored text and the instant it expires. *)
Abbreviation Entry := (string * Z)%type (only parsing).

(** [cacheGet]: any failure is logged and read as a miss. *)
Definition cacheGet (env : Env) (redis : gmap string Entry) (key : string)
  : option string :=
  if redis_ok env then
    match redis !! key with
    | Some (v, expires) => if now env <? expires then Some v else None
    | None => None
    end
  else None.

(** [cacheSet] = [setEx key ttl value], [ttl] in seconds. *)
Definition cacheSet (env : Env) (redis : gmap string Entry)
    (key value : string) (ttl : Z) : gmap string Entry :=
  if redis_ok env then <[key := (value, now env + ttl * 1000)]> redis
  else redis.

Definition cacheDelete (env : Env) (redis : gmap string Entry) (key : string)
  : gmap string Entry :=
  if redis_ok env then delete key redis else redis.

(** [cacheDeletePattern]: [KEYS pattern], then [DEL] of what it returned. *)
Definition cacheDeletePattern (env : Env) (redis : gmap string Entry)
    (pattern : string) : gmap string Entry :=
  if redis_ok env
  then filter (fun kv : string * Entry => glob_match pattern (fst kv) = false) redis
  else redis.

Record World := {
  db : Db;
  redis : gmap string Entry;
}.

(** *** HTTP *)

Record Request := {
  h_x_api_key : option string;
  h_user_agent : option string;
  h_x_forwarded_for : option string;
  h_x_real_ip : option string;
  connection_remoteAddress : option string;
  socket_remoteAddress : option string;
  ip : option string;
  user_id : option string;             (* [req.user?.id], set by the session *)
}.

Record Response := {
  status : Z;
  body : json;
}.

(** What a middleware does: call [next()] (handing a value on) or answer. *)
Inductive outcome (A : Type) :=
| Next (a : A)
| Respond (r : Response).
Arguments Next {A} a.
Arguments Respond {A} r.

(** [res.status(code).json({success: false, message})] *)
Definition failure (code : Z) (message : string) : Response :=
  {| status := code;
     body := JObj [("success", JBool false); ("message", JStr message)] |}.

End Store.

(** ** src/utils/userAgent.ts, continued: [extractIpAddress] *)

Module Ip.
Import JsString Store.

Definition extractIpAddress (req : Request) : string :=
  let forwarded :=
    match h_x_forwarded_for req with
    | Some h => Some (trim (before_comma h))
    | None => None
    end in
  or_default
    (or_else forwarded
       (or_else (h_x_real_ip req)
          (or_else (connection_remoteAddress req) (socket_remoteAddress req))))
    "unknown".

End Ip.

(** ** src/middleware/auth.ts *)

Module Auth.
Import JsString Json Store.

(** One row of
    [SELECT ak.*, u.id as user_id, u.email as user_email
     FROM api_keys ak JOIN users u ON ak.user_id = u.id WHERE ...]. *)
Record ApiKeyData := {
  key_row : ApiKeyRow;
  owner_id : string;
  owner_email : string;
}.

(** The WHERE clause:
    [ak.api_key = $1 AND ak.is_active = true
     AND (ak.expires_at IS NULL OR ak.expires_at > CURRENT_TIMESTAMP)]. *)
Definition key_is_valid (t : Z) (apiKey : string) (ak : ApiKeyRow) : bool :=
  String.eqb (ak_api_key ak) apiKey
  && match ak_is_active ak with Some true => true | _ => false end
  && match ak_expires_at ak with None => true | Some x => t <? x end.

Definition select_api_key (d : Db) (t : Z) (apiKey : string)
  : list ApiKeyData :=
  flat_map
    (fun ak =>
       flat_map
         (fun u =>
            if String.eqb (ak_user_id ak) (u_id u) && key_is_valid t apiKey ak
            then [{| key_row := ak; owner_id := u_id u;
                     owner_email := u_email u |}]
            else [])
         (users d))
    (api_keys d).

(** [UPDATE api_keys SET last_used_at = CURRENT_TIMESTAMP WHERE id = $1] *)
Definition touch_last_used (d : Db) (t : Z) (id : string) : Db :=
  {| users := users d;
     api_keys :=
       List.map
         (fun ak =>
            if String.eqb (ak_id ak) id
            then {| ak_id := ak_id ak; ak_user_id := ak_user_id ak;
                    ak_app_name := ak_app_name ak;
                    ak_app_domain := ak_app_domain ak;
                    ak_api_key := ak_api_key ak;
                    ak_is_active := ak_is_active ak;
                    ak_expires_at := ak_expires_at ak;
                    ak_created_at := ak_created_at ak;
                    ak_revoked_at := ak_revoked_at ak;
                    ak_last_used_at := Some t |}
            else ak)
         (api_keys d);
     events := events d |}.

Definition msg_key_required : string :=
  "API key is required. Please include X-API-Key header.".
Definition msg_key_invalid : string := "Invalid or expired API key.".

Definition validateApiKey (env : Env) (d : Db) (req : Request)
  : Db * outcome ApiKeyData :=
  match or_else (h_x_api_key req) None with
  | None => (d, Respond (failure 401 msg_key_required))
  | Some apiKey =>
      if db_ok env then
        match select_api_key d (now env) apiKey with
        | [] => (d, Respond (failure 401 msg_key_invalid))
        | apiKeyData :: _ =>
            (touch_last_used d (now env) (ak_id (key_row apiKeyData)),
             Next apiKeyData)
        end
      else (d, Respond (failure 500 "Error validating API key."))
  end.

(** Optional mode: the value handed to [next()] is [req.apiKeyData]. *)
Definition optionalApiKey (env : Env) (d : Db) (req : Request)
  : outcome (option ApiKeyData) :=
  match or_else (h_x_api_key req) None with
  | None => Next None
  | Some apiKey =>
      if db_ok env then
        match select_api_key d (now env) apiKey with
        | apiKeyData :: _ => Next (Some apiKeyData)
        | [] => Next None
        end
      else Next None
  end.

(** The invariant of the data model: a credential is usable at time [t]
    when it is active and has no expiry or one that lies ahead. *)
Definition usable (t : Z) (ak : ApiKeyRow) : Prop :=
  ak_is_active ak = Some true
  /\ (ak_expires_at ak = None \/ exists x, ak_expires_at ak = Some x /\ t < x).

(** Referential integrity of [api_keys.user_id REFERENCES users(id)]. *)
Definition owners_exist (d : Db) : Prop :=
  forall ak, In ak (api_keys d) ->
    exists u, In u (users d) /\ u_id u = ak_user_id ak.

(** [isAuthenticated]: the session must carry a user. *)
Definition isAuthenticated (req : Request) : outcome unit :=
  match user_id req with
  | Some _ => Next tt
  | None =>
      Respond (failure 401 "Authentication required. Please login with Google.")
  end.

End Auth.

(** ** src/middleware/rateLimiter.ts *)

Module RateLimiter.
Import JsString Json Store.

Record Options := {
  windowMs : Z;
  max : nat;
  message : json;
  keyGenerator : Request -> string;
}.

(** Per key: the hits counted in the current window and the instant the
    window ends. *)
Abbreviation Hits := (nat * Z)%type (only parsing).

(** Modelled from the spec: the [rateLimit] factory is the
    express-rate-limit package, whose source is not part of the repository
    tree; section 4.2 describes it as a fixed-window counter keyed by an
    identity string with a window duration and a maximum count, which answers
    RateLimited once the budget is exceeded, does not advance downstream,
    and resets when the window elapses.  A request opens a window when its
    key has none (or an elapsed one), is counted in it otherwise, and is
    refused with status 429 and the configured message as soon as the count
    exceeds [max]. *)
Definition rateLimit (o : Options) (store : gmap string Hits) (t : Z)
    (req : Request) : gmap string Hits * outcome unit :=
  let key := keyGenerator o req in
  let '(hits, resetTime) :=
    match store !! key with
    | Some (h, r) => if t <? r then (S h, r) else (1%nat, t + windowMs o)
    | None => (1%nat, t + windowMs o)
    end in
  let store' := <[key := (hits, resetTime)]> store in
  if (max o <? hits)%nat
  then (store', Respond {| status := 429; body := message o |})
  else (store', Next tt).

Definition eventCollectionLimiter : Options := {|
  windowMs := 60 * 1000;
  max := 1000;
  message := JObj [("success", JBool false);
                   ("message", JStr "Event collection rate limit exceeded.")];
  keyGenerator := fun req =>
    or_default (or_else (h_x_api_key req) (ip req)) "unknown";
|}.

Definition refused (o : Options) : outcome unit :=
  Respond {| status := 429; body := message o |}.

(** The verdict on a request that finds [n] earlier hits in its window. *)
Definition verdict_after (o : Options) (n : nat) : outcome unit :=
  if (max o <? S n)%nat then refused o else Next tt.

(** How many of the first [i] requests of a run fall under [key]. *)
Definition hits_before (o : Options) (key : string)
    (reqs : list (Z * Request)) (i : nat) : nat :=
  length
    (List.filter (fun p => String.eqb (keyGenerator o (snd p)) key)
       (firstn i reqs)).

(** A run of requests through one limiter, oldest first, each with its
    arrival time; the verdicts come back in the same order. *)
Fixpoint run (o : Options) (store : gmap string Hits)
    (reqs : list (Z * Request)) : gmap string Hits * list (outcome unit) :=
  match reqs with
  | [] => (store, [])
  | (t, req) :: rest =>
      let '(store1, v) := rateLimit o store t req in
      let '(store2, vs) := run o store1 rest in
      (store2, v :: vs)
  end.

End RateLimiter.

(** ** The SQL the controller sends, as list operations *)

Module Sql.

(** [l JOIN r ON on] *)
Definition inner_join {A B : Type} (on : A -> B -> bool)
    (l : list A) (r : list B) : list (A * B) :=
  flat_map (fun a => List.map (pair a) (List.filter (on a) r)) l.

(** [l LEFT JOIN r ON on]: a left row without a partner is kept once. *)
Definition left_join {A B : Type} (on : A -> B -> bool)
    (l : list A) (r : list B) : list (A * option B) :=
  flat_map
    (fun a =>
       match List.filter (on a) r with
       | [] => [(a, None)]
       | ms => List.map (fun b => (a, Some b)) ms
       end) l.

(** [l LEFT JOIN LATERAL (sub) ON true]: the subquery is run per left row. *)
Definition left_join_lateral {A B : Type} (sub : A -> list B) (l : list A)
  : list (A * option B) :=
  flat_map
    (fun a =>
       match sub a with
       | [] => [(a, None)]
       | ms => List.map (fun b => (a, Some b)) ms
       end) l.

Definition occurrences {K : Type} `{EqDecision K} (k : K) (l : list K) : nat :=
  length (List.filter (fun x => bool_decide (x = k)) l).

(** [SELECT k, COUNT( * ) ... GROUP BY k]: one row per distinct key. *)
Definition group_count {K : Type} `{EqDecision K} (keys : list K)
  : list (K * nat) :=
  List.map (fun k => (k, occurrences k keys)) (remove_dups keys).

(** [COUNT(DISTINCT x)]: NULLs are not counted. *)
Definition count_distinct {K : Type} `{EqDecision K} (l : list (option K))
  : nat :=
  length (remove_dups (omap id l)).

(** [GROUP BY k]: the groups, in order of first appearance. *)
Definition group_by {A K : Type} `{EqDecision K} (k : A -> K) (l : list A)
  : list (K * list A) :=
  List.map
    (fun g => (g, List.filter (fun a => bool_decide (k a = g)) l))
    (remove_dups (List.map k l)).

(** [ORDER BY ts DESC], rows with equal keys keeping their order. *)
Fixpoint insert_desc {A : Type} (ts : A -> Z) (x : A) (l : list A) : list A :=
  match l with
  | [] => [x]
  | y :: l' => if ts y <=? ts x then x :: l else y :: insert_desc ts x l'
  end.

Definition order_desc {A : Type} (ts : A -> Z) (l : list A) : list A :=
  fold_right (insert_desc ts) [] l.

End Sql.

(** ** src/controllers/analyticsController.ts *)

Module Analytics.
Import JsString Json Store Sql UserAgent Ip Auth.

Section Controller.
Context {RT : Runtime}.

(** *** collectEvent *)

Record CollectBody := {
  b_event : string;
  b_url : option string;
  b_referrer : option string;
  b_device : option string;
  b_ipAddress : option string;
  b_timestamp : option Z;
  b_metadata : option (list (string * json));
  b_user_id : option string;
}.

(** The row the INSERT writes.  [created_at] takes its default. *)
Definition event_row (env : Env) (req : Request) (apiKeyId : string)
    (b : CollectBody) : EventRow :=
  let metadata := default [] (b_metadata b) in
  let userAgent := or_default (h_user_agent req) "unknown" in
  let parsedUA := parseUserAgent userAgent in
  let device := or_default (b_device b) (device parsedUA) in
  let ipAddress := or_default (b_ipAddress b) (extractIpAddress req) in
  let enrichedMetadata := assoc_set "userAgent" (JStr userAgent) metadata in
  {| e_id := new_uuid env;
     e_api_key_id := apiKeyId;
     e_event_name := b_event b;
     e_url := b_url b;
     e_referrer := b_referrer b;
     e_device := Some device;
     e_ip_address := Some ipAddress;
     e_user_agent := Some userAgent;
     e_browser := Some (browser parsedUA);
     e_os := Some (os parsedUA);
     e_screen_size := assoc_get "screenSize" metadata;
     e_user_id := b_user_id b;
     e_metadata := Some (JSON_stringify (JObj enrichedMetadata));
     e_timestamp := default (now env) (b_timestamp b);
     e_created_at := Some (now env) |}.

Definition insert_event (d : Db) (row : EventRow) : Db :=
  {| users := users d; api_keys := api_keys d;
     events := (events d ++ [row])%list |}.

(** The cache invalidation is issued after the insert and not awaited; it
    is taken here to have completed before the next request is served. *)
Definition collectEvent (env : Env) (w : World) (req : Request)
    (apiKeyData : ApiKeyData) (b : CollectBody) : World * Response :=
  let apiKeyId := ak_id (key_row apiKeyData) in
  if db_ok env then
    let row := event_row env req apiKeyId b in
    ({| db := insert_event (db w) row;
        redis := cacheDeletePattern env (redis w)
                   ("analytics:" ++ apiKeyId ++ ":*") |},
     {| status := 201;
        body := JObj [("success", JBool true);
                      ("message", JStr "Event collected successfully");
                      ("data", JObj [("id", JStr (e_id row));
                                     ("created_at", JDate (now env))])] |})
  else (w, failure 500 "Error collecting event").

(** *** getEventSummary *)

Record SummaryQuery := {
  q_event : string;
  q_startDate : option Z;
  q_endDate : option Z;
  q_app_id : option string;
}.

(** [`${x}`] for a possibly-undefined string. *)
Definition template (x : option string) : string :=
  match x with Some s => s | None => "undefined" end.

(** [`${d || 'all'}`] for a possibly-undefined [Date]. *)
Definition date_or_all (d : option Z) : string :=
  match d with Some t => Date_toString t | None => "all" end.

Definition summary_cache_key (q : SummaryQuery) (userId : option string)
  : string :=
  "analytics:summary:" ++ q_event q ++ ":" ++ date_or_all (q_startDate q)
    ++ ":" ++ date_or_all (q_endDate q) ++ ":" ++ or_default (q_app_id q) "all"
    ++ ":" ++ template userId.

(** [ON e.api_key_id = ak.id] *)
Definition same_key (e : EventRow) (ak : ApiKeyRow) : bool :=
  String.eqb (e_api_key_id e) (ak_id ak).

(** The [conditions] joined by AND. *)
Definition summary_where (q : SummaryQuery) (userId : option string)
    (e : EventRow) (ak : ApiKeyRow) : bool :=
  String.eqb (e_event_name e) (q_event q)
  && (if truthy userId then sql_eq (Some (ak_user_id ak)) userId else true)
  && (if truthy (q_app_id q) then sql_eq (Some (ak_id ak)) (q_app_id q)
      else true)
  && match q_startDate q with Some t => t <=? e_timestamp e | None => true end
  && match q_endDate q with Some t => e_timestamp e <=? t | None => true end.

(** The three grouped subqueries
    [SELECT api_key_id, c, COUNT( * ) FROM events GROUP BY api_key_id, c]. *)
Definition counts_by (col : EventRow -> option string) (d : Db)
  : list ((string * option string) * nat) :=
  group_count (List.map (fun e => (e_api_key_id e, col e)) (events d)).

(** [ON e.api_key_id = s.api_key_id AND e.c = s.c] *)
Definition on_counts {X : Type} (col : EventRow -> option string)
    (ev : X -> EventRow) (x : X) (s : (string * option string) * nat) : bool :=
  String.eqb (e_api_key_id (ev x)) (fst (fst s))
  && sql_eq (col (ev x)) (snd (fst s)).

Definition Counted : Type := option ((string * option string) * nat).

(** A row of the FROM clause: the event, its key, and the partner rows of
    [device_counts], [browser_counts] and [os_counts]. *)
Definition SummaryRow : Type :=
  (((EventRow * ApiKeyRow) * Counted) * Counted) * Counted.

Definition sr_event (r : SummaryRow) : EventRow := fst (fst (fst (fst r))).
Definition sr_key (r : SummaryRow) : ApiKeyRow := snd (fst (fst (fst r))).
Definition sr_device_counts (r : SummaryRow) : Counted := snd (fst (fst r)).
Definition sr_browser_counts (r : SummaryRow) : Counted := snd (fst r).
Definition sr_os_counts (r : SummaryRow) : Counted := snd r.

Definition summary_from (d : Db) : list SummaryRow :=
  left_join (on_counts e_os (fun x => fst (fst (fst x))))
    (left_join (on_counts e_browser (fun x => fst (fst x)))
       (left_join (on_counts e_device fst)
          (inner_join same_key (events d) (api_keys d))
          (counts_by e_device d))
       (counts_by e_browser d))
    (counts_by e_os d).

(** [json_object_agg(COALESCE(e.c, 'unknown'), s.count)
     FILTER (WHERE e.c IS NOT NULL)] over the (e.c, s.count) of each row,
    read back by the driver as an object; NULL over no rows. *)
Definition object_agg (l : list (option string * option nat))
  : option (list (string * json)) :=
  match
    omap (fun kv : option string * option nat =>
            match fst kv with
            | Some c =>
                Some (c, match snd kv with
                         | Some n => JNum (Z.of_nat n)
                         | None => JNull
                         end)
            | None => None
            end) l
  with
  | [] => None
  | kvs => Some (obj_of_pairs kvs)
  end.

Definition count_of {K : Type} (s : option (K * nat)) : option nat :=
  option_map snd s.

Record SummaryResult := {
  r_event_name : string;
  r_count : nat;
  r_unique_users : nat;
  r_unique_ips : nat;
  r_device_data : option (list (string * json));
  r_browser_data : option (list (string * json));
  r_os_data : option (list (string * json));
}.

Definition summary_aggregate (g : string * list SummaryRow) : SummaryResult :=
  let rows := snd g in
  {| r_event_name := fst g;
     r_count := length rows;
     r_unique_users :=
       count_distinct (List.map (fun r => e_user_id (sr_event r)) rows);
     r_unique_ips :=
       count_distinct (List.map (fun r => e_ip_address (sr_event r)) rows);
     r_device_data :=
       object_agg
         (List.map (fun r => (e_device (sr_event r),
                              count_of (sr_device_counts r))) rows);
     r_browser_data :=
       object_agg
         (List.map (fun r => (e_browser (sr_event r),
                              count_of (sr_browser_counts r))) rows);
     r_os_data :=
       object_agg
         (List.map (fun r => (e_os (sr_event r),
                              count_of (sr_os_counts r))) rows) |}.

(** [SELECT ... FROM ... WHERE whereClause GROUP BY e.event_name] *)
Definition summary_rows (d : Db) (q : SummaryQuery) (userId : option string)
  : list SummaryResult :=
  List.map summary_aggregate
    (group_by (fun r => e_event_name (sr_event r))
       (List.filter (fun r => summary_where q userId (sr_event r) (sr_key r))
          (summary_from d))).

Definition summary_data (r : SummaryResult) : json :=
  JObj [("event", JStr (r_event_name r));
        ("count", JNum (Z.of_nat (r_count r)));
        ("uniqueUsers", JNum (Z.of_nat (r_unique_users r)));
        ("uniqueIps", JNum (Z.of_nat (r_unique_ips r)));
        ("deviceData", JObj (default [] (r_device_data r)));
        ("browserData", JObj (default [] (r_browser_data r)));
        ("osData", JObj (default [] (r_os_data r)))].

Definition summary_zero (event : string) : json :=
  JObj [("event", JStr event);
        ("count", JNum 0);
        ("uniqueUsers", JNum 0);
        ("uniqueIps", JNum 0);
        ("deviceData", JObj []);
        ("browserData", JObj []);
        ("osData", JObj [])].

(** [res.json({success: true, data})] *)
Definition ok (data : json) : Response :=
  {| status := 200; body := JObj [("success", JBool true); ("data", data)] |}.

(** [res.json({success: true, data, cached: true})] *)
Definition ok_cached (data : json) : Response :=
  {| status := 200;
     body := JObj [("success", JBool true); ("data", data);
                   ("cached", JBool true)] |}.

Definition getEventSummary (env : Env) (w : World) (req : Request)
    (q : SummaryQuery) : World * Response :=
  let userId := user_id req in
  let cacheKey := summary_cache_key q userId in
  match or_else (cacheGet env (redis w) cacheKey) None with
  | Some cached =>
      match JSON_parse cached with
      | Some data => (w, ok_cached data)
      | None => (w, failure 500 "Error retrieving event summary")
      end
  | None =>
      if db_ok env then
        match summary_rows (db w) q userId with
        | [] => (w, ok (summary_zero (q_event q)))
        | row :: _ =>
            let data := summary_data row in
            ({| db := db w;
                redis := cacheSet env (redis w) cacheKey
                           (JSON_stringify data) 300 |},
             ok data)
        end
      else (w, failure 500 "Error retrieving event summary")
  end.

(** *** getUserStats *)

Definition user_cache_key (userId : string) (authenticatedUserId : option string)
  : string :=
  "analytics:user:" ++ userId ++ ":" ++ template authenticatedUserId.

(** [SELECT api_key_id, user_id, device, COUNT( * ) FROM events
     GROUP BY api_key_id, user_id, device] *)
Definition user_device_counts (d : Db)
  : list ((string * option string * option string) * nat) :=
  group_count
    (List.map (fun e => (e_api_key_id e, e_user_id e, e_device e)) (events d)).

Definition on_user_device (x : EventRow * ApiKeyRow)
    (s : (string * option string * option string) * nat) : bool :=
  String.eqb (e_api_key_id (fst x)) (fst (fst (fst s)))
  && sql_eq (e_user_id (fst x)) (snd (fst (fst s)))
  && sql_eq (e_device (fst x)) (snd (fst s)).

Record Recent := {
  rc_event_name : string;
  rc_timestamp : Z;
  rc_url : option string;
}.

(** The lateral subquery:
    [SELECT event_name, timestamp, url FROM events
     WHERE user_id = e.user_id AND api_key_id = e.api_key_id
     ORDER BY timestamp DESC LIMIT 10]. *)
Definition recent_of (d : Db) (e : EventRow) : list Recent :=
  List.map
    (fun x => {| rc_event_name := e_event_name x;
                 rc_timestamp := e_timestamp x;
                 rc_url := e_url x |})
    (firstn 10
       (order_desc e_timestamp
          (List.filter
             (fun x => sql_eq (e_user_id x) (e_user_id e)
                       && String.eqb (e_api_key_id x) (e_api_key_id e))
             (events d)))).

Definition UserRow' : Type :=
  ((EventRow * ApiKeyRow)
   * option ((string * option string * option string) * nat))
  * option Recent.

Definition ur_event (r : UserRow') : EventRow := fst (fst (fst r)).
Definition ur_key (r : UserRow') : ApiKeyRow := snd (fst (fst r)).
Definition ur_recent (r : UserRow') : option Recent := snd r.

Definition user_from (d : Db) : list UserRow' :=
  left_join_lateral (fun x => recent_of d (fst (fst x)))
    (left_join on_user_device
       (inner_join same_key (events d) (api_keys d))
       (user_device_counts d)).

(** [WHERE e.user_id = $1 AND ak.user_id = $2], the second conjunct only
    when the session carries a user. *)
Definition user_where (userId : string) (authenticatedUserId : option string)
    (e : EventRow) (ak : ApiKeyRow) : bool :=
  sql_eq (e_user_id e) (Some userId)
  && (if truthy authenticatedUserId
      then sql_eq (Some (ak_user_id ak)) authenticatedUserId else true).

Record UserResult := {
  s_user_id : option string;
  s_total_events : nat;
  s_unique_events : nat;
  s_device_details : option (list (string * json));
  s_ip_addresses : option (list string);
  s_last_event_at : option Z;
  s_first_event_at : option Z;
  s_recent_events : option (list json);
}.

Definition extreme (pick : Z -> Z -> Z) (l : list Z) : option Z :=
  fold_right
    (fun t acc => Some (match acc with Some m => pick t m | None => t end))
    None l.

Definition nonempty {A : Type} (l : list A) : option (list A) :=
  match l with [] => None | _ => Some l end.

Definition json_of_string (o : option string) : json :=
  match o with Some s => JStr s | None => JNull end.

(** [json_build_object('event_name', .., 'timestamp', .., 'url', ..)] *)
Definition recent_json (r : Recent) : json :=
  JObj [("event_name", JStr (rc_event_name r));
        ("timestamp", JStr (pg_timestamp_json (rc_timestamp r)));
        ("url", json_of_string (rc_url r))].

Definition user_aggregate (g : option string * list UserRow') : UserResult :=
  let rows := snd g in
  {| s_user_id := fst g;
     s_total_events := length rows;
     s_unique_events :=
       count_distinct (List.map (fun r => Some (e_event_name (ur_event r))) rows);
     s_device_details :=
       object_agg
         (List.map (fun r => (e_device (ur_event r),
                              count_of (snd (fst r)))) rows);
     s_ip_addresses :=
       nonempty (remove_dups (omap (fun r => e_ip_address (ur_event r)) rows));
     s_last_event_at :=
       extreme Z.max (List.map (fun r => e_timestamp (ur_event r)) rows);
     s_first_event_at :=
       extreme Z.min (List.map (fun r => e_timestamp (ur_event r)) rows);
     s_recent_events :=
       nonempty
         (List.map recent_json
            (order_desc rc_timestamp (omap ur_recent rows))) |}.

Definition user_rows (d : Db) (userId : string)
    (authenticatedUserId : option string) : list UserResult :=
  List.map user_aggregate
    (group_by (fun r => e_user_id (ur_event r))
       (List.filter
          (fun r => user_where userId authenticatedUserId
                      (ur_event r) (ur_key r))
          (user_from d))).

Definition json_of_date (o : option Z) : json :=
  match o with Some t => JDate t | None => JNull end.

Definition user_data (r : UserResult) : json :=
  JObj [("userId", json_of_string (s_user_id r));
        ("totalEvents", JNum (Z.of_nat (s_total_events r)));
        ("uniqueEvents", JNum (Z.of_nat (s_unique_events r)));
        ("deviceDetails", JObj (default [] (s_device_details r)));
        ("ipAddresses", JArr (List.map JStr (default [] (s_ip_addresses r))));
        ("lastEventAt", json_of_date (s_last_event_at r));
        ("firstEventAt", json_of_date (s_first_event_at r));
        ("recentEvents", JArr (default [] (s_recent_events r)))].

Definition getUserStats (env : Env) (w : World) (req : Request)
    (userId : string) : World * Response :=
  let authenticatedUserId := user_id req in
  let cacheKey := user_cache_key userId authenticatedUserId in
  match or_else (cacheGet env (redis w) cacheKey) None with
  | Some cached =>
      match JSON_parse cached with
      | Some data => (w, ok_cached data)
      | None => (w, failure 500 "Error retrieving user statistics")
      end
  | None =>
      if db_ok env then
        match user_rows (db w) userId authenticatedUserId with
        | [] => (w, failure 404 "User not found or no events tracked")
        | userData :: _ =>
            let data := user_data userData in
            ({| db := db w;
                redis := cacheSet env (redis w) cacheKey
                           (JSON_stringify data) 180 |},
             ok data)
        end
      else (w, failure 500 "Error retrieving user statistics")
  end.

(** The row one write of a batch leaves in [events]. *)
Definition written (a : ApiKeyData) (x : Env * Request * CollectBody)
  : EventRow :=
  event_row (fst (fst x)) (snd (fst x)) (ak_id (key_row a)) (snd x).

(** A batch of writes under one credential, oldest first. *)
Fixpoint collect_all (w : World) (apiKeyData : ApiKeyData)
    (writes : list (Env * Request * CollectBody)) : World :=
  match writes with
  | [] => w
  | (env, req, b) :: rest =>
      collect_all (fst (collectEvent env w req apiKeyData b)) apiKeyData rest
  end.

End Controller.
End Analytics.

(** ** A small deployment to run the handlers on *)

Module Demo.
Import JsString Json Store Auth Analytics Reference.

Definition alice : UserRow :=
  {| u_id := "0a0a0a0a-0000-4000-8000-000000000001"; u_google_id := "g-1";
     u_email := "alice@example.com"; u_name := None |}.

Definition demo_key : ApiKeyRow :=
  {| ak_id := "0b0b0b0b-0000-4000-8000-000000000002";
     ak_user_id := u_id alice; ak_app_name := "Demo"; ak_app_domain := None;
     ak_api_key :=
       "00112233445566778899aabbccddeeff00112233445566778899aabbccddeeff";
     ak_is_active := Some true; ak_expires_at := None;
     ak_created_at := Some 0; ak_revoked_at := None;
     ak_last_used_at := None |}.

(** A revoked key of the same account. *)
Definition revoked_key : ApiKeyRow :=
  {| ak_id := "0c0c0c0c-0000-4000-8000-000000000003";
     ak_user_id := u_id alice; ak_app_name := "Old"; ak_app_domain := None;
     ak_api_key :=
       "ffeeddccbbaa99887766554433221100ffeeddccbbaa99887766554433221100";
     ak_is_active := Some false; ak_expires_at := None;
     ak_created_at := Some 0; ak_revoked_at := Some 5;
     ak_last_used_at := None |}.

Definition db0 : Db :=
  {| users := [alice]; api_keys := [demo_key; revoked_key]; events := [] |}.

Definition w0 : World := {| db := db0; redis := ∅ |}.

Definition env_at (t : Z) (id : string) : Env :=
  {| now := t; db_ok := true; redis_ok := true; new_uuid := id |}.

Definition with_key (k : option string) : Request :=
  {| h_x_api_key := k; h_user_agent := None;
     h_x_forwarded_for := None; h_x_real_ip := None;
     connection_remoteAddress := Some "10.0.0.1";
     socket_remoteAddress := None;
     ip := Some "10.0.0.1"; user_id := None |}.

Definition ingest : Request := with_key (Some (ak_api_key demo_key)).

(** A dashboard request of the logged-in owner. *)
Definition session : Request :=
  {| h_x_api_key := None; h_user_agent := None;
     h_x_forwarded_for := None; h_x_real_ip := None;
     connection_remoteAddress := Some "10.0.0.1";
     socket_remoteAddress := None;
     ip := Some "10.0.0.1"; user_id := Some (u_id alice) |}.

Definition click (u : option string) : CollectBody :=
  {| b_event := "click"; b_url := None; b_referrer := None;
     b_device := Some "mobile"; b_ipAddress := None; b_timestamp := None;
     b_metadata := None; b_user_id := u |}.

Definition cred : ApiKeyData :=
  {| key_row := demo_key; owner_id := u_id alice;
     owner_email := u_email alice |}.

Definition clicks : SummaryQuery :=
  {| q_event := "click"; q_startDate := None; q_endDate := None;
     q_app_id := None |}.

(** One click is written, the owner reads the summary, a second click is
    written, the owner reads again. *)
Definition w1 : World :=
  fst (collectEvent (env_at 1000 "0e0e0e0e-0000-4000-8000-000000000001")
         w0 ingest cred (click (Some "visitor-1"))).
Definition read1 : World * Response :=
  getEventSummary (env_at 2000 "") w1 session clicks.
Definition w2 : World :=
  fst (collectEvent (env_at 3000 "0e0e0e0e-0000-4000-8000-000000000002")
         (fst read1) ingest cred (click (Some "visitor-1"))).
Definition read2 : World * Response :=
  getEventSummary (env_at 4000 "") w2 session clicks.

(** Four clicks of one visitor, then the owner asks for the visitor's
    statistics. *)
Definition four_clicks : list (Env * Request * CollectBody) :=
  [(env_at 1000 "0e0e0e0e-0000-4000-8000-000000000001", ingest,
    click (Some "visitor-1"));
   (env_at 2000 "0e0e0e0e-0000-4000-8000-000000000002", ingest,
    click (Some "visitor-1"));
   (env_at 3000 "0e0e0e0e-0000-4000-8000-000000000003", ingest,
    click (Some "visitor-1"));
   (env_at 4000 "0e0e0e0e-0000-4000-8000-000000000004", ingest,
    click (Some "visitor-1"))].
Definition w4 : World := collect_all w0 cred four_clicks.
Definition stats4 : World * Response :=
  getUserStats (env_at 9000 "") w4 session "visitor-1".

(** Three clicks, two of one visitor and one anonymous. *)
Definition three_clicks : list (Env * Request * CollectBody) :=
  [(env_at 1000 "0e0e0e0e-0000-4000-8000-000000000001", ingest,
    click (Some "visitor-1"));
   (env_at 2000 "0e0e0e0e-0000-4000-8000-000000000002", ingest,
    click (Some "visitor-1"));
   (env_at 3000 "0e0e0e0e-0000-4000-8000-000000000003", ingest,
    click None)].

End Demo.

(** ** src/utils/apiKey.ts *)

Module ApiKey.
Import Json.

(** [Buffer.prototype.toString('hex')] *)
Definition hex_of_byte (b : Byte.byte) : string :=
  let n := Byte.to_N b in
  String (hex_digit (n / 16)) (String (hex_digit (n mod 16)) EmptyString).

Fixpoint toHex (bytes : list Byte.byte) : string :=
  match bytes with
  | [] => EmptyString
  | b :: rest => hex_of_byte b ++ toHex rest
  end.

(** [randomBytes] stands for [crypto.randomBytes]; callers that leave
    [length] out get 32. *)
Definition generateApiKey (randomBytes : nat -> list Byte.byte) (length : nat)
  : string :=
  toHex (randomBytes length).

(** What [new Date(t)] becomes under [setDate(getDate() + days)]; the
    calendar of the process is not part of the program. *)
Class Calendar := {
  Date_addDays : Z -> Z -> Z;
}.

(** [t] is the [new Date()] the function starts from. *)
Definition generateExpiryDate {C : Calendar} (t : Z) (days : Z) : Z :=
  Date_addDays t days.

Definition is_key_char (c : ascii) : bool :=
  let n := N_of_ascii c in
  (((97 <=? n) && (n <=? 102)) || ((48 <=? n) && (n <=? 57)))%N.

Fixpoint all_key_chars (s : string) : bool :=
  match s with
  | EmptyString => true
  | String c s' => is_key_char c && all_key_chars s'
  end.

(** [/^[a-f0-9]{64}$/.test(apiKey)] *)
Definition isValidApiKeyFormat (apiKey : string) : bool :=
  (String.length apiKey =? 64)%nat && all_key_chars apiKey.

End ApiKey.

(** ** src/controllers/authController.ts *)

Module KeyManagement.
Import JsString Json Store Sql Auth ApiKey.

(** How the store reads a text as a value of type UUID: its canonical
    form, or [None] when the text is refused (the query then fails). *)
Class Postgres := {
  pg_uuid : string -> option string;
}.

(** The constraints of [api_keys] that an INSERT can violate: the primary
    key, UNIQUE(api_key), the reference to [users] and the VARCHAR
    lengths. *)
Definition insert_api_key (d : Db) (row : ApiKeyRow) : option Db :=
  if existsb (fun ak => String.eqb (ak_id ak) (ak_id row)) (api_keys d)
     || existsb (fun ak => String.eqb (ak_api_key ak) (ak_api_key row))
                (api_keys d)
     || negb (existsb (fun u => String.eqb (u_id u) (ak_user_id row)) (users d))
     || (255 <? String.length (ak_app_name row))%nat
     || match ak_app_domain row with
        | Some domain => (255 <? String.length domain)%nat
        | None => false
        end
     || (64 <? String.length (ak_api_key row))%nat
  then None
  else Some {| users := users d;
               api_keys := (api_keys d ++ [row])%list;
               events := events d |}.

Record RegisterBody := {
  r_app_name : string;
  r_app_domain : option string;
}.

Definition json_of_string (o : option string) : json :=
  match o with Some x => JStr x | None => JNull end.

Definition json_of_date (o : option Z) : json :=
  match o with Some t => JDate t | None => JNull end.

Definition json_of_bool (o : option bool) : json :=
  match o with Some b => JBool b | None => JNull end.

(** [WHERE id = $1 AND user_id = $2], [$1] already read as a UUID. *)
Definition owned_by (id userId : string) (ak : ApiKeyRow) : bool :=
  String.eqb (ak_id ak) id && String.eqb (ak_user_id ak) userId.

Definition with_api_keys (d : Db) (aks : list ApiKeyRow) : Db :=
  {| users := users d; api_keys := aks; events := events d |}.

(** [SET is_active = false, revoked_at = CURRENT_TIMESTAMP] *)
Definition revoked (t : Z) (ak : ApiKeyRow) : ApiKeyRow :=
  {| ak_id := ak_id ak; ak_user_id := ak_user_id ak;
     ak_app_name := ak_app_name ak; ak_app_domain := ak_app_domain ak;
     ak_api_key := ak_api_key ak;
     ak_is_active := Some false;
     ak_expires_at := ak_expires_at ak;
     ak_created_at := ak_created_at ak;
     ak_revoked_at := Some t;
     ak_last_used_at := ak_last_used_at ak |}.

(** [SET api_key = $1, expires_at = $2, is_active = true,
     revoked_at = NULL] *)
Definition regenerated (apiKey : string) (expiresAt : Z) (ak : ApiKeyRow)
  : ApiKeyRow :=
  {| ak_id := ak_id ak; ak_user_id := ak_user_id ak;
     ak_app_name := ak_app_name ak; ak_app_domain := ak_app_domain ak;
     ak_api_key := apiKey;
     ak_is_active := Some true;
     ak_expires_at := Some expiresAt;
     ak_created_at := ak_created_at ak;
     ak_revoked_at := None;
     ak_last_used_at := ak_last_used_at ak |}.

(** [UPDATE api_keys SET ... WHERE cond]: the rows of the table, the
    matching ones rewritten. *)
Definition update_where (cond : ApiKeyRow -> bool)
    (set : ApiKeyRow -> ApiKeyRow) (aks : list ApiKeyRow) : list ApiKeyRow :=
  List.map (fun ak => if cond ak then set ak else ak) aks.

(** [ORDER BY created_at DESC]: NULLs first, then newest to oldest. *)
Definition not_older (a b : ApiKeyRow) : bool :=
  match ak_created_at a, ak_created_at b with
  | None, _ => true
  | Some _, None => false
  | Some x, Some y => y <=? x
  end.

Fixpoint insert_by {A : Type} (before : A -> A -> bool) (x : A) (l : list A)
  : list A :=
  match l with
  | [] => [x]
  | y :: l' => if before x y then x :: l else y :: insert_by before x l'
  end.

Definition order_by {A : Type} (before : A -> A -> bool) (l : list A) : list A :=
  fold_right (insert_by before) [] l.

(** The nine columns the key listings select. *)
Definition key_json (ak : ApiKeyRow) : json :=
  JObj [("id", JStr (ak_id ak));
        ("app_name", JStr (ak_app_name ak));
        ("app_domain", json_of_string (ak_app_domain ak));
        ("api_key", JStr (ak_api_key ak));
        ("is_active", json_of_bool (ak_is_active ak));
        ("expires_at", json_of_date (ak_expires_at ak));
        ("created_at", json_of_date (ak_created_at ak));
        ("last_used_at", json_of_date (ak_last_used_at ak));
        ("revoked_at", json_of_date (ak_revoked_at ak))].

(** [SELECT ... FROM api_keys WHERE user_id = $1 ORDER BY created_at DESC] *)
Definition keys_of (d : Db) (userId : string) : list ApiKeyRow :=
  order_by not_older
    (List.filter (fun ak => String.eqb (ak_user_id ak) userId) (api_keys d)).

Section Controller.
Context {C : Calendar} {PG : Postgres}.

(** [days] is [parseInt(process.env.API_KEY_EXPIRY_DAYS || '365')], taken
    to be a number.  A request without a session user makes [req.user.id]
    throw, which the handler answers as any other failure. *)
Definition registerApp (env : Env) (randomBytes : nat -> list Byte.byte)
    (days : Z) (d : Db) (req : Request) (body : RegisterBody)
  : Db * Response :=
  let failed := failure 500 "Error generating API key" in
  match user_id req with
  | None => (d, failed)
  | Some userId =>
      let apiKey := generateApiKey randomBytes 32 in
      let expiresAt := generateExpiryDate (now env) days in
      let row :=
        {| ak_id := new_uuid env; ak_user_id := userId;
           ak_app_name := r_app_name body;
           ak_app_domain := r_app_domain body;
           ak_api_key := apiKey;
           ak_is_active := Some true;
           ak_expires_at := Some expiresAt;
           ak_created_at := Some (now env);
           ak_revoked_at := None;
           ak_last_used_at := None |} in
      if db_ok env then
        match insert_api_key d row with
        | Some d' =>
            (d',
             {| status := 201;
                body :=
                  JObj [("success", JBool true);
                        ("message", JStr "API key generated successfully");
                        ("data",
                         JObj [("id", JStr (ak_id row));
                               ("app_name", JStr (ak_app_name row));
                               ("app_domain",
                                json_of_string (ak_app_domain row));
                               ("api_key", JStr (ak_api_key row));
                               ("expires_at", JDate expiresAt);
                               ("created_at", JDate (now env))])] |})
        | None => (d, failed)
        end
      else (d, failed)
  end.

Definition getApiKeys (env : Env) (d : Db) (req : Request) : Response :=
  match user_id req with
  | None => failure 500 "Error fetching API keys"
  | Some userId =>
      if db_ok env then
        {| status := 200;
           body := JObj [("success", JBool true);
                         ("data", JArr (List.map key_json (keys_of d userId)))] |}
      else failure 500 "Error fetching API keys"
  end.

Definition getApiKey (env : Env) (d : Db) (req : Request) (id : string)
  : Response :=
  let failed := failure 500 "Error fetching API key" in
  match user_id req, pg_uuid id with
  | Some userId, Some uuid =>
      if db_ok env then
        match List.filter (owned_by uuid userId) (api_keys d) with
        | [] => failure 404 "API key not found"
        | ak :: _ =>
            {| status := 200;
               body := JObj [("success", JBool true); ("data", key_json ak)] |}
        end
      else failed
  | _, _ => failed
  end.

(** The cache call is [cacheDelete], one exact key. *)
Definition revokeApiKey (env : Env) (w : World) (req : Request) (id : string)
  : World * Response :=
  let failed := failure 500 "Error revoking API key" in
  match user_id req, pg_uuid id with
  | Some userId, Some uuid =>
      if db_ok env then
        match List.filter (owned_by uuid userId) (api_keys (db w)) with
        | [] => (w, failure 404 "API key not found")
        | ak :: _ =>
            ({| db := with_api_keys (db w)
                        (update_where (owned_by uuid userId)
                           (revoked (now env)) (api_keys (db w)));
                redis := cacheDelete env (redis w) ("apikey:" ++ id ++ ":*") |},
             {| status := 200;
                body :=
                  JObj [("success", JBool true);
                        ("message", JStr "API key revoked successfully");
                        ("data",
                         JObj [("id", JStr (ak_id ak));
                               ("app_name", JStr (ak_app_name ak));
                               ("revoked_at", JDate (now env))])] |})
        end
      else (w, failed)
  | _, _ => (w, failed)
  end.

(** The UPDATE is refused when it would leave two rows with one secret or
    one longer than the column. *)
Definition regenerateApiKey (env : Env) (randomBytes : nat -> list Byte.byte)
    (days : Z) (w : World) (req : Request) (id : string) : World * Response :=
  let failed := failure 500 "Error regenerating API key" in
  match user_id req, pg_uuid id with
  | Some userId, Some uuid =>
      let newApiKey := generateApiKey randomBytes 32 in
      let expiresAt := generateExpiryDate (now env) days in
      if db_ok env then
        match List.filter (owned_by uuid userId) (api_keys (db w)) with
        | [] => (w, failure 404 "API key not found")
        | ak :: more =>
            if existsb (fun other => negb (owned_by uuid userId other)
                                     && String.eqb (ak_api_key other) newApiKey)
                       (api_keys (db w))
               || negb (Nat.eqb (length more) 0)
               || (64 <? String.length newApiKey)%nat
            then (w, failed)
            else
              ({| db := with_api_keys (db w)
                          (update_where (owned_by uuid userId)
                             (regenerated newApiKey expiresAt)
                             (api_keys (db w)));
                  redis := cacheDelete env (redis w)
                             ("apikey:" ++ id ++ ":*") |},
               {| status := 200;
                  body :=
                    JObj [("success", JBool true);
                          ("message", JStr "API key regenerated successfully");
                          ("data",
                           JObj [("id", JStr (ak_id ak));
                                 ("app_name", JStr (ak_app_name ak));
                                 ("app_domain",
                                  json_of_string (ak_app_domain ak));
                                 ("api_key", JStr newApiKey);
                                 ("expires_at", JDate expiresAt)])] |})
        end
      else (w, failed)
  | _, _ => (w, failed)
  end.

End Controller.
End KeyManagement.

(** ** src/middleware/validation.ts *)

Module Validation.
Import Json Store.

Fixpoint join_dot (path : list string) : string :=
  match path with
  | [] => ""
  | [x] => x
  | x :: rest => x ++ "." ++ join_dot rest
  end.

Section Validate.
Context {Raw Value : Type}.

(** A Joi schema under [{abortEarly: false, stripUnknown: true}]: the
    details (path, message) of what is wrong with the input, or the value
    it is read as. *)
Variable schema : Raw -> list (list string * string) + Value.

(** [validate(schema)] and [validateQuery(schema)]: the two differ in the
    request field they read and write back. *)
Definition validate (input : Raw) : outcome Value :=
  match schema input with
  | inl details =>
      Respond
        {| status := 400;
           body :=
             JObj [("success", JBool false);
                   ("message", JStr "Validation error");
                   ("errors",
                    JArr (List.map
                            (fun detail : list string * string =>
                               JObj [("field", JStr (join_dot (fst detail)));
                                     ("message", JStr (snd detail))])
                            details))] |}
  | inr value => Next value
  end.

End Validate.
End Validation.

(** ** src/routes/analyticsRoutes.ts *)

Module Routes.
Import JsString Json Store Auth RateLimiter Analytics Validation.

(** The world together with the counters of the two throttles. *)
Record Server := {
  world : World;
  collection_hits : gmap string Hits;
  query_hits : gmap string Hits;
}.

Section Router.
Context {RT : Runtime}.
Context {RawBody RawQuery : Type}.
Variable collectEvent_schema
  : RawBody -> list (list string * string) + CollectBody.
Variable eventSummaryQuery_schema
  : RawQuery -> list (list string * string) + SummaryQuery.
Variable userStatsQuery_schema
  : RawQuery -> list (list string * string) + string.

(** The limiter of the query routes names no key generator; the one the
    package then uses is left open. *)
Variable default_key : Request -> string.

Definition analyticsLimiter : Options := {|
  windowMs := 60 * 1000;
  max := 60;
  message := JObj [("success", JBool false);
                   ("message", JStr "Analytics query rate limit exceeded.")];
  keyGenerator := default_key;
|}.

(** [router.post('/collect', eventCollectionLimiter, validateApiKey,
     validate(schemas.collectEvent), collectEvent)] *)
Definition post_collect (env : Env) (srv : Server) (req : Request)
    (raw : RawBody) : Server * Response :=
  let counted :=
    rateLimit eventCollectionLimiter (collection_hits srv) (now env) req in
  let after (w : World) : Server :=
    {| world := w; collection_hits := fst counted;
       query_hits := query_hits srv |} in
  match snd counted with
  | Respond r => (after (world srv), r)
  | Next _ =>
      let checked := validateApiKey env (db (world srv)) req in
      let w1 := {| db := fst checked; redis := redis (world srv) |} in
      match snd checked with
      | Respond r => (after w1, r)
      | Next apiKeyData =>
          match validate collectEvent_schema raw with
          | Respond r => (after w1, r)
          | Next body =>
              let written := collectEvent env w1 req apiKeyData body in
              (after (fst written), snd written)
          end
      end
  end.

(** The stages the two query routes share:
    [analyticsLimiter, optionalApiKey, isAuthenticated,
     validateQuery(schema), handler]. *)
Definition query_route {Q : Type}
    (schema : RawQuery -> list (list string * string) + Q)
    (handler : Env -> World -> Request -> Q -> World * Response)
    (env : Env) (srv : Server) (req : Request) (raw : RawQuery)
  : Server * Response :=
  let counted := rateLimit analyticsLimiter (query_hits srv) (now env) req in
  let after (w : World) : Server :=
    {| world := w; collection_hits := collection_hits srv;
       query_hits := fst counted |} in
  match snd counted with
  | Respond r => (after (world srv), r)
  | Next _ =>
      match optionalApiKey env (db (world srv)) req with
      | Respond r => (after (world srv), r)
      | Next _ =>
          match isAuthenticated req with
          | Respond r => (after (world srv), r)
          | Next _ =>
              match validate schema raw with
              | Respond r => (after (world srv), r)
              | Next q =>
                  let answered := handler env (world srv) req q in
                  (after (fst answered), snd answered)
              end
          end
      end
  end.

Definition get_event_summary : Env -> Server -> Request -> RawQuery
                               -> Server * Response :=
  query_route eventSummaryQuery_schema getEventSummary.

Definition get_user_stats : Env -> Server -> Request -> RawQuery
                            -> Server * Response :=
  query_route userStatsQuery_schema getUserStats.

End Router.
End Routes.

(** ** Notions the further properties are stated with *)

Module Notions.
Import JsString.

Fixpoint has_comma (s : string) : bool :=
  match s with
  | EmptyString => false
  | String c s' => Ascii.eqb c "," || has_comma s'
  end.

Definition starts_with_space (s : string) : bool :=
  match s with
  | String c _ => is_space c
  | EmptyString => false
  end.

Fixpoint ends_with_space (s : string) : bool :=
  match s with
  | EmptyString => false
  | String c EmptyString => is_space c
  | String _ s' => ends_with_space s'
  end.

(** The characters the Redis glob syntax gives a meaning to. *)
Definition is_glob_meta (c : ascii) : bool :=
  let n := N_of_ascii c in ((n =? 42) || (n =? 63) || (n =? 91) || (n =? 92))%N.

Fixpoint glob_literal (p : string) : bool :=
  match p with
  | EmptyString => true
  | String c p' => negb (is_glob_meta c) && glob_literal p'
  end.

(** Reading two hexadecimal digits back as a byte. *)
Definition unhex_digit (c : ascii) : option N :=
  let n := N_of_ascii c in
  if ((48 <=? n) && (n <=? 57))%N then Some (n - 48)%N
  else if ((97 <=? n) && (n <=? 102))%N then Some (n - 87)%N
  else None.

Definition unhex_byte (hi lo : ascii) : option Byte.byte :=
  match unhex_digit hi, unhex_digit lo with
  | Some a, Some b => Byte.of_N (16 * a + b)
  | _, _ => None
  end.

End Notions.

(** ** Reference computations over the event table *)

Module Scope.
Import JsString Json Store Analytics.

(** The events a summary query is about: those whose credential row exists
    and, with it, passes the query's conditions. *)
Definition summary_matches (d : Db) (q : SummaryQuery)
    (userId : option string) : list EventRow :=
  List.filter
    (fun e => existsb (fun ak => same_key e ak && summary_where q userId e ak)
                      (api_keys d))
    (events d).

(** The events a user-statistics query is about. *)
Definition user_matches (d : Db) (userId : string)
    (authenticatedUserId : option string) : list EventRow :=
  List.filter
    (fun e => existsb (fun ak => same_key e ak
                                 && user_where userId authenticatedUserId e ak)
                      (api_keys d))
    (events d).

(** How many events the table holds of the end user and credential of [e]. *)
Definition same_visitor_count (d : Db) (e : EventRow) : nat :=
  length
    (List.filter
       (fun x => sql_eq (e_user_id x) (e_user_id e)
                 && String.eqb (e_api_key_id x) (e_api_key_id e))
       (events d)).

Definition sum_nat (l : list nat) : nat := fold_right Nat.add 0%nat l.

(** What the schema promises of [api_keys]: [id] is a primary key,
    [api_key] is unique, and every row names an existing account. *)
Definition keys_ok (d : Db) : Prop :=
  NoDup (List.map ak_id (api_keys d))
  /\ NoDup (List.map ak_api_key (api_keys d))
  /\ Auth.owners_exist d.

(** The WHERE clause of the user-statistics query on a joined row. *)
Definition user_pass (userId : string) (auth : option string) (r : UserRow')
  : bool :=
  user_where userId auth (ur_event r) (ur_key r).

End Scope.

(** ** A reference calendar and UUID reader *)

Module ReferenceStore.
Import JsString Store ApiKey KeyManagement.

Fixpoint uuid_shape (i : nat) (s : string) : bool :=
  match s with
  | EmptyString => Nat.eqb i 36
  | String c s' =>
      (if Nat.eqb i 8 || Nat.eqb i 13 || Nat.eqb i 18 || Nat.eqb i 23
       then Ascii.eqb c "-" else is_hex c)
      && uuid_shape (S i) s'
  end.

(** Days of 24 hours, and the 8-4-4-4-12 text form of a UUID read without
    regard to case. *)
#[export] Instance calendar : Calendar := {|
  Date_addDays t days := t + days * 86400000;
|}.

#[export] Instance postgres : Postgres := {|
  pg_uuid s := if uuid_shape 0 s then Some (toLowerCase s) else None;
|}.

(** A source of bytes that gives [n] times the byte [b]. *)
Definition constant_bytes (b : Byte.byte) (n : nat) : list Byte.byte :=
  repeat b n.

(** A session of an account that owns no key. *)
Definition stranger : Request :=
  {| h_x_api_key := None; h_user_agent := None;
     h_x_forwarded_for := None; h_x_real_ip := None;
     connection_remoteAddress := Some "10.0.0.9";
     socket_remoteAddress := None;
     ip := Some "10.0.0.9";
     user_id := Some "0f0f0f0f-0000-4000-8000-000000000009" |}.

End ReferenceStore.

(** * Properties *)

(** ** Context enrichment *)

Module UserAgentSpec.
Import JsString UserAgent.

(** C7 (as the code has it).  A signature whose lower-cased text contains
    both "edg" and "chrome" is never classified as Chrome; it is classified
    as Edge unless it also contains "firefox", whose rule is tried before
    the Edge rule and then yields Firefox. *)
Theorem edg_and_chrome_browser (userAgent : string) :
  includes (toLowerCase userAgent) "edg" = true ->
  includes (toLowerCase userAgent) "chrome" = true ->
  browser (parseUserAgent userAgent) <> "Chrome"
  /\ browser (parseUserAgent userAgent)
     = if includes (toLowerCase userAgent) "firefox" then "Firefox" else "Edge".
Proof.
  intros Hedg Hchrome. unfold parseUserAgent, detect_browser. cbn [browser].
  rewrite Hedg, Hchrome. cbn [negb andb].
  rewrite andb_false_r.
  destruct (includes (toLowerCase userAgent) "firefox"); split; congruence.
Qed.

Lemma edg_and_chrome_browser_witness :
  let ua := "Mozilla/5.0 (Windows NT 10.0; Win64; x64) AppleWebKit/537.36 (KHTML, like Gecko) Chrome/91.0.4472.124 Safari/537.36 Edg/91.0.864.59" in
  browser (parseUserAgent ua) <> "Chrome"
  /\ browser (parseUserAgent ua)
     = if includes (toLowerCase ua) "firefox" then "Firefox" else "Edge".
Proof.
  intro ua. apply (edg_and_chrome_browser ua); vm_compute; reflexivity.
Defined.

(** C7 as stated fails: with "firefox" also present the browser is Firefox,
    not Edge. *)
Lemma edg_and_chrome_not_edge :
  let ua := "Mozilla/5.0 Chrome/91.0 Edg/91.0 Firefox/89.0" in
  includes (toLowerCase ua) "edg" = true
  /\ includes (toLowerCase ua) "chrome" = true
  /\ browser (parseUserAgent ua) <> "Edge".
Proof. vm_compute. repeat split; discriminate. Qed.

End UserAgentSpec.

(** ** Credential validation *)

Module AuthSpec.
Import JsString Json Store Auth.

Lemma key_is_valid_spec t apiKey ak :
  key_is_valid t apiKey ak = true <-> ak_api_key ak = apiKey /\ usable t ak.
Proof.
  unfold key_is_valid, usable.
  rewrite !andb_true_iff, String.eqb_eq.
  destruct (ak_is_active ak) as [[|]|], (ak_expires_at ak) as [x|];
    rewrite ?Z.ltb_lt; split.
  all: try (intros [[H1 H2] H3]; discriminate).
  all: try (intros [H1 [H2 H3]]; discriminate).
  - intros [[H1 _] H3]. repeat split; auto. right. exists x. auto.
  - intros [H1 [_ [H3 | [y [H3 H4]]]]]; [discriminate|].
    injection H3 as ->. auto.
  - intros [[H1 _] _]. repeat split; auto.
  - intros [H1 _]. auto.
Qed.

Lemma in_select_api_key d t apiKey a :
  In a (select_api_key d t apiKey) <->
  In (key_row a) (api_keys d)
  /\ (exists u, In u (users d) /\ u_id u = ak_user_id (key_row a)
                /\ owner_id a = u_id u /\ owner_email a = u_email u)
  /\ key_is_valid t apiKey (key_row a) = true.
Proof.
  unfold select_api_key. rewrite in_flat_map. split.
  - intros [ak [Hak Hin]]. apply in_flat_map in Hin as [u [Hu Hin]].
    destruct (String.eqb (ak_user_id ak) (u_id u)) eqn:E; cbn in Hin;
      [|contradiction].
    destruct (key_is_valid t apiKey ak) eqn:V; cbn in Hin; [|contradiction].
    destruct Hin as [<- | []]. cbn. apply String.eqb_eq in E.
    split; [assumption|]. split; [|assumption]. exists u. auto.
  - intros (Hak & [u (Hu & Hid & Ho & He)] & V).
    exists (key_row a). split; [assumption|].
    apply in_flat_map. exists u. split; [assumption|].
    rewrite <- Hid, String.eqb_refl, V. cbn. left.
    destruct a; cbn in *; congruence.
Qed.

Lemma truthy_key req apiKey :
  h_x_api_key req = Some apiKey -> apiKey <> "" ->
  or_else (h_x_api_key req) None = Some apiKey.
Proof.
  intros -> Hne. unfold or_else, truthy.
  destruct (String.eqb_spec apiKey ""); [contradiction|reflexivity].
Qed.

(** C2.  With a secret in the header and the store answering, the
    validator hands on a credential exactly when the table holds a usable
    one with that secret, and the credential it hands on is such a one;
    for every other secret (unknown, inactive, expired) it answers 401. *)
Theorem validateApiKey_accepts_usable
    (env : Env) (d : Db) (req : Request) (apiKey : string) :
  h_x_api_key req = Some apiKey -> apiKey <> "" ->
  db_ok env = true -> owners_exist d ->
  ((exists ak, In ak (api_keys d) /\ ak_api_key ak = apiKey
               /\ usable (now env) ak)
   <-> exists a, snd (validateApiKey env d req) = Next a)
  /\ (forall a, snd (validateApiKey env d req) = Next a ->
        In (key_row a) (api_keys d) /\ ak_api_key (key_row a) = apiKey
        /\ usable (now env) (key_row a))
  /\ ((forall ak, In ak (api_keys d) -> ak_api_key ak = apiKey ->
         ~ usable (now env) ak)
      -> snd (validateApiKey env d req) = Respond (failure 401 msg_key_invalid)).
Proof.
  intros Hk Hne Hdb Hfk. unfold validateApiKey.
  rewrite (truthy_key _ _ Hk Hne), Hdb.
  destruct (select_api_key d (now env) apiKey) as [|a rows] eqn:Hsel; cbn [snd].
  - assert (Hnone : forall ak, In ak (api_keys d) -> ak_api_key ak = apiKey ->
                      ~ usable (now env) ak).
    { intros ak Hin Hkey Hus.
      destruct (Hfk ak Hin) as [u [Hu Hid]].
      assert (Hin' : In {| key_row := ak; owner_id := u_id u;
                           owner_email := u_email u |}
                        (select_api_key d (now env) apiKey)).
      { apply in_select_api_key. cbn. repeat split; [assumption| |].
        - exists u. auto.
        - apply key_is_valid_spec. auto. }
      rewrite Hsel in Hin'. contradiction. }
    split; [split|split].
    + intros [ak (Hin & Hkey & Hus)]. exfalso. eapply Hnone; eauto.
    + intros [a Ha]. discriminate.
    + intros a Ha. discriminate.
    + reflexivity.
  - assert (Hin : In a (select_api_key d (now env) apiKey))
      by (rewrite Hsel; now left).
    apply in_select_api_key in Hin as (Hak & _ & V).
    apply key_is_valid_spec in V as [Hkey Hus].
    split; [split|split].
    + intros _. eauto.
    + intros _. eauto.
    + intros a' Ha'. injection Ha' as <-. auto.
    + intros Hnone. exfalso. eapply Hnone; eauto.
Qed.

Lemma validateApiKey_accepts_usable_witness :
  exists a, snd (validateApiKey (Demo.env_at 10 "") Demo.db0 Demo.ingest)
            = Next a.
Proof.
  apply (validateApiKey_accepts_usable (Demo.env_at 10 "") Demo.db0 Demo.ingest
           (ak_api_key Demo.demo_key)).
  - reflexivity.
  - discriminate.
  - reflexivity.
  - intros ak [<- | [<- | []]]; exists Demo.alice; cbn; auto.
  - exists Demo.demo_key. cbn. unfold usable. cbn. auto.
Defined.

(** C4 (as the code has it).  Rejections of a request that carries a
    secret -- unknown, inactive or expired credential -- are one and the same
    response, 401 with "Invalid or expired API key."; a request without the
    header is answered 401 too, with the message "API key is required.
    Please include X-API-Key header.". *)
Theorem rejections_by_cause :
  (forall env1 env2 d1 d2 req1 req2 r1 r2,
      truthy (h_x_api_key req1) = true -> truthy (h_x_api_key req2) = true ->
      db_ok env1 = true -> db_ok env2 = true ->
      snd (validateApiKey env1 d1 req1) = Respond r1 ->
      snd (validateApiKey env2 d2 req2) = Respond r2 ->
      r1 = r2 /\ r1 = failure 401 msg_key_invalid)
  /\ (forall env d req,
        truthy (h_x_api_key req) = false ->
        snd (validateApiKey env d req) = Respond (failure 401 msg_key_required)).
Proof.
  split.
  - assert (one : forall env d req r,
               truthy (h_x_api_key req) = true -> db_ok env = true ->
               snd (validateApiKey env d req) = Respond r ->
               r = failure 401 msg_key_invalid).
    { intros env d req r Ht Hdb. unfold validateApiKey, or_else.
      rewrite Ht, Hdb. destruct (h_x_api_key req) as [k|]; [|discriminate].
      destruct (select_api_key d (now env) k); cbn [snd]; intros H;
        [injection H as <-; reflexivity | discriminate]. }
    intros env1 env2 d1 d2 req1 req2 r1 r2 T1 T2 D1 D2 H1 H2.
    rewrite (one _ _ _ _ T1 D1 H1), (one _ _ _ _ T2 D2 H2). auto.
  - intros env d req Ht. unfold validateApiKey, or_else. rewrite Ht.
    reflexivity.
Qed.

Lemma rejections_by_cause_witness :
  snd (validateApiKey (Demo.env_at 10 "") Demo.db0 (Demo.with_key None))
  = Respond (failure 401 msg_key_required).
Proof.
  apply (proj2 rejections_by_cause). reflexivity.
Defined.

(** C4 as stated fails: a request without the header and one with a revoked
    credential are both rejected, with different messages. *)
Lemma rejection_messages_differ :
  let absent := Demo.with_key None in
  let inactive := Demo.with_key (Some (ak_api_key Demo.revoked_key)) in
  exists r1 r2,
    snd (validateApiKey (Demo.env_at 10 "") Demo.db0 absent) = Respond r1
    /\ snd (validateApiKey (Demo.env_at 10 "") Demo.db0 inactive) = Respond r2
    /\ status r1 = 401 /\ status r2 = 401
    /\ jget "message" (body r1) <> jget "message" (body r2).
Proof.
  eexists. eexists. split; [reflexivity|]. split; [vm_compute; reflexivity|].
  split; [reflexivity|]. split; [reflexivity|]. vm_compute. discriminate.
Qed.

(** C10.  The optional validator never answers: whatever the header, the
    table and the store do, the request goes on to the next handler.  It
    carries no credential when the header is absent or empty, when the
    lookup fails with a storage error, and when no valid credential has
    the secret; a credential it does carry is a row of the lookup. *)
Theorem optionalApiKey_always_next (env : Env) (d : Db) (req : Request) :
  exists o,
    optionalApiKey env d req = Next o
    /\ (truthy (h_x_api_key req) = false -> o = None)
    /\ (db_ok env = false -> o = None)
    /\ (forall apiKey, h_x_api_key req = Some apiKey ->
          select_api_key d (now env) apiKey = [] -> o = None)
    /\ (forall a, o = Some a ->
          exists apiKey, h_x_api_key req = Some apiKey
                         /\ In a (select_api_key d (now env) apiKey)).
Proof.
  unfold optionalApiKey, or_else.
  destruct (truthy (h_x_api_key req)) eqn:Ht.
  - destruct (h_x_api_key req) as [k|] eqn:Hk; [|discriminate].
    destruct (db_ok env) eqn:Hdb.
    + destruct (select_api_key d (now env) k) as [|a rows] eqn:Hsel.
      * exists None. repeat split; auto; discriminate.
      * exists (Some a). split; [reflexivity|].
        split; [discriminate|]. split; [discriminate|]. split.
        -- intros k' Hk' Hnil. injection Hk' as <-. congruence.
        -- intros a' Ha'. injection Ha' as <-. exists k. split; [reflexivity|].
           rewrite Hsel. now left.
    + exists None. repeat split; auto; discriminate.
  - exists None. repeat split; auto; discriminate.
Qed.

Lemma optionalApiKey_always_next_witness :
  exists o,
    optionalApiKey {| now := 10; db_ok := false; redis_ok := true;
                      new_uuid := "" |} Demo.db0 Demo.ingest = Next o
    /\ o = None.
Proof.
  destruct (optionalApiKey_always_next
              {| now := 10; db_ok := false; redis_ok := true; new_uuid := "" |}
              Demo.db0 Demo.ingest) as [o (Ho & _ & Hdb & _)].
  exists o. split; [exact Ho | apply Hdb; reflexivity].
Defined.

End AuthSpec.

(** ** Request throttle *)

Module RateLimiterSpec.
Import JsString Json Store RateLimiter.

Section Window.
Variable o : Options.
Variable key : string.

(** A request that arrives inside an open window is counted in it. *)
Lemma rateLimit_counts store n reset t req :
  store !! key = Some (n, reset) -> keyGenerator o req = key -> t < reset ->
  fst (rateLimit o store t req) !! key = Some (S n, reset)
  /\ snd (rateLimit o store t req) = verdict_after o n.
Proof.
  intros Hs Hk Ht. unfold rateLimit, verdict_after. rewrite Hk, Hs.
  apply Z.ltb_lt in Ht. rewrite Ht.
  destruct (max o <? S n)%nat; cbn [fst snd];
    rewrite lookup_insert_eq; auto.
Qed.

(** A request that finds no window, or an elapsed one, opens a new one. *)
Lemma rateLimit_opens store t req :
  match store !! key with Some (_, reset) => reset <= t | None => True end ->
  keyGenerator o req = key ->
  fst (rateLimit o store t req) !! key = Some (1%nat, t + windowMs o)
  /\ snd (rateLimit o store t req) = verdict_after o 0.
Proof.
  intros Hs Hk. unfold rateLimit, verdict_after. rewrite Hk.
  destruct (store !! key) as [[h r]|].
  - apply Z.ltb_ge in Hs. rewrite Hs.
    destruct (max o <? 1)%nat; cbn [fst snd]; rewrite lookup_insert_eq; auto.
  - destruct (max o <? 1)%nat; cbn [fst snd]; rewrite lookup_insert_eq; auto.
Qed.

Lemma run_cons store t req rest :
  run o store ((t, req) :: rest)
  = (fst (run o (fst (rateLimit o store t req)) rest),
     snd (rateLimit o store t req)
       :: snd (run o (fst (rateLimit o store t req)) rest)).
Proof.
  cbn [run]. destruct (rateLimit o store t req) as [s1 v].
  cbn [fst snd]. destruct (run o s1 rest). reflexivity.
Qed.

Lemma run_length store reqs : length (snd (run o store reqs)) = length reqs.
Proof.
  revert store. induction reqs as [|[t req] rest IH]; intros store;
    [reflexivity|].
  rewrite run_cons. cbn [snd length]. now rewrite IH.
Qed.

(** A request under another key leaves the window of [key] alone. *)
Lemma rateLimit_other store t req :
  keyGenerator o req <> key ->
  fst (rateLimit o store t req) !! key = store !! key.
Proof.
  intros Hk. unfold rateLimit.
  destruct (match store !! keyGenerator o req with
            | Some (h, r) => if t <? r then (S h, r) else (1%nat, t + windowMs o)
            | None => (1%nat, t + windowMs o)
            end) as [hits resetTime].
  destruct (max o <? hits)%nat; cbn [fst]; now rewrite lookup_insert_ne.
Qed.

Lemma hits_before_cons p rest i :
  hits_before o key (p :: rest) (S i)
  = ((if String.eqb (keyGenerator o (snd p)) key then 1 else 0)
     + hits_before o key rest i)%nat.
Proof.
  unfold hits_before. cbn [firstn List.filter].
  now destruct (String.eqb (keyGenerator o (snd p)) key).
Qed.

(** Inside one window the verdict on a request under [key] depends only on
    how many requests under [key] came before it; traffic under other keys
    may be interleaved. *)
Lemma run_in_window reqs : forall store n reset,
  store !! key = Some (n, reset) ->
  Forall (fun p => keyGenerator o (snd p) = key -> fst p < reset) reqs ->
  fst (run o store reqs) !! key
  = Some ((n + hits_before o key reqs (length reqs))%nat, reset)
  /\ forall i t req,
       nth_error reqs i = Some (t, req) -> keyGenerator o req = key ->
       nth_error (snd (run o store reqs)) i
       = Some (verdict_after o (n + hits_before o key reqs i)).
Proof.
  induction reqs as [|[t req] rest IH]; intros store n reset Hs Hall.
  - cbn. rewrite Nat.add_0_r. split; [assumption|].
    intros [|i] t req H; discriminate.
  - apply Forall_cons_iff in Hall as [Ht Hall]. cbn [fst snd] in Ht.
    rewrite run_cons. cbn [fst snd length]. rewrite hits_before_cons.
    cbn [snd].
    destruct (String.eqb_spec (keyGenerator o req) key) as [Hk|Hk].
    + destruct (rateLimit_counts store n reset t req Hs Hk (Ht Hk))
        as [Hs1 Hv].
      destruct (IH _ _ _ Hs1 Hall) as [Hfin Hnth]. split.
      * rewrite Hfin. do 2 f_equal. lia.
      * intros [|i] t' req' Hi Hk'; cbn [nth_error] in *.
        -- rewrite Hv. unfold hits_before. cbn. now rewrite Nat.add_0_r.
        -- rewrite (Hnth _ _ _ Hi Hk'), hits_before_cons. cbn [snd].
           destruct (String.eqb_spec (keyGenerator o req) key);
             [|contradiction]. do 2 f_equal. lia.
    + pose proof (rateLimit_other store t req Hk) as Hs1.
      rewrite Hs in Hs1.
      destruct (IH _ _ _ Hs1 Hall) as [Hfin Hnth]. split.
      * rewrite Hfin. reflexivity.
      * intros [|i] t' req' Hi Hk'; cbn [nth_error] in *.
        -- injection Hi as -> ->. contradiction.
        -- rewrite (Hnth _ _ _ Hi Hk'), hits_before_cons. cbn [snd].
           destruct (String.eqb_spec (keyGenerator o req) key);
             [contradiction|]. reflexivity.
Qed.

End Window.

(** The ingestion throttle counts per API key, per network address when the
    header is missing or empty, under "unknown" when both are. *)
Lemma ingestion_key (req : Request) :
  keyGenerator eventCollectionLimiter req
  = match or_else (h_x_api_key req) None, or_else (ip req) None with
    | Some apiKey, _ => apiKey
    | None, Some address => address
    | None, None => "unknown"
    end.
Proof.
  cbn. unfold or_default, or_else.
  destruct (truthy (h_x_api_key req)) eqn:Hk.
  - rewrite Hk. destruct (h_x_api_key req); [reflexivity|discriminate].
  - destruct (truthy (ip req)); reflexivity.
Qed.

(** C6.  Take a key of the ingestion throttle (the API-key header, else the
    caller's address) with no open window at [t0] (none yet, or an elapsed
    one), and a run of requests: one under the key at [t0], then any
    traffic in which the requests under the key arrive inside the minute
    that follows.  A request under the key is admitted when fewer than 1000
    requests under the key precede it in the run, and is answered 429 and
    not handed on otherwise -- so the first 1000 pass and the 1001st is the
    first refused -- and a request under the key that arrives once the
    minute has elapsed is admitted again. *)
Theorem ingestion_window
    (store : gmap string Hits) (key : string) (t0 : Z)
    (first : Request) (rest : list (Z * Request))
    (t_late : Z) (late : Request) :
  let o := eventCollectionLimiter in
  let reqs := (t0, first) :: rest in
  match store !! key with Some (_, reset) => reset <= t0 | None => True end ->
  keyGenerator o first = key ->
  Forall (fun p => keyGenerator o (snd p) = key ->
                   fst p < t0 + windowMs o) rest ->
  keyGenerator o late = key -> t0 + windowMs o <= t_late ->
  length (snd (run o store reqs)) = length reqs
  /\ (forall i t req,
        nth_error reqs i = Some (t, req) -> keyGenerator o req = key ->
        nth_error (snd (run o store reqs)) i
        = Some (if (hits_before o key reqs i <? 1000)%nat
                then Next tt
                else Respond {| status := 429; body := message o |}))
  /\ snd (rateLimit o (fst (run o store reqs)) t_late late) = Next tt.
Proof.
  intros o reqs Hfresh Hfirst Hrest Hlate Hlater.
  assert (Hverdict : forall n,
             verdict_after o n = if (n <? 1000)%nat then Next tt else refused o).
  { intros n. unfold verdict_after. change (max o) with 1000%nat.
    destruct (Nat.ltb_spec n 1000), (Nat.ltb_spec 1000 (S n));
      try reflexivity; lia. }
  split; [apply run_length|].
  subst reqs. rewrite run_cons. cbn [fst snd].
  destruct (rateLimit_opens o key store t0 first Hfresh Hfirst) as [Hs1 Hv1].
  destruct (run_in_window o key rest _ _ _ Hs1 Hrest) as [Hfin Hnth].
  split.
  - intros [|i] t req Hi Hk; cbn [nth_error] in *.
    + rewrite Hv1, Hverdict. reflexivity.
    + rewrite (Hnth _ _ _ Hi Hk), Hverdict, hits_before_cons. cbn [snd].
      destruct (String.eqb_spec (keyGenerator o first) key);
        [reflexivity|contradiction].
  - apply (rateLimit_opens o key); [|assumption].
    rewrite Hfin. assumption.
Qed.

Lemma ingestion_window_witness :
  let o := eventCollectionLimiter in
  let burst := (0, Demo.ingest) :: repeat (1, Demo.ingest) 1000 in
  nth_error (snd (run o ∅ burst)) 999 = Some (Next tt)
  /\ nth_error (snd (run o ∅ burst)) 1000 = Some (refused o)
  /\ snd (rateLimit o (fst (run o ∅ burst)) 60000 Demo.ingest) = Next tt.
Proof.
  intros o burst.
  destruct (ingestion_window ∅ (ak_api_key Demo.demo_key) 0 Demo.ingest
              (repeat (1, Demo.ingest) 1000) 60000 Demo.ingest)
    as (_ & Hverdict & Hlate).
  - rewrite lookup_empty. exact I.
  - reflexivity.
  - apply List.Forall_forall. intros p Hin _. apply repeat_spec in Hin.
    subst p. reflexivity.
  - reflexivity.
  - cbv. discriminate.
  - split; [|split].
    + apply (Hverdict 999%nat 1 Demo.ingest); reflexivity.
    + apply (Hverdict 1000%nat 1 Demo.ingest); reflexivity.
    + exact Hlate.
Defined.

End RateLimiterSpec.

(** ** Relational operators *)

Module SqlSpec.
Import Sql.
Local Open Scope list_scope.

Section Joins.
Context {A B : Type}.

Lemma in_inner_join (on : A -> B -> bool) l r a b :
  In (a, b) (inner_join on l r) <-> In a l /\ In b r /\ on a b = true.
Proof.
  unfold inner_join. rewrite in_flat_map. split.
  - intros [x [Hx Hin]]. apply in_map_iff in Hin as [y [Heq Hy]].
    injection Heq as -> ->. apply List.filter_In in Hy. tauto.
  - intros (Ha & Hb & Hon). exists a. split; [assumption|].
    apply in_map_iff. exists b. split; [reflexivity|].
    apply List.filter_In. auto.
Qed.

Lemma inner_join_app (on : A -> B -> bool) l1 l2 r :
  inner_join on (l1 ++ l2) r = inner_join on l1 r ++ inner_join on l2 r.
Proof. unfold inner_join. apply flat_map_app. Qed.

(** A left join against rows of which at most one can match keeps the
    left table as it is: no row is lost and none is repeated. *)
Lemma left_join_unique (on : A -> B -> bool) l r :
  (forall a, In a l -> (length (List.filter (on a) r) <= 1)%nat) ->
  List.map fst (left_join on l r) = l.
Proof.
  unfold left_join. induction l as [|a l IH]; intros H; [reflexivity|].
  cbn [flat_map]. rewrite map_app, IH by (intros; apply H; now right).
  specialize (H a (or_introl eq_refl)).
  destruct (List.filter (on a) r) as [|b [|b' ms]]; cbn in *;
    [reflexivity | reflexivity | lia].
Qed.

Lemma left_join_fst_in (on : A -> B -> bool) l r x :
  In x (left_join on l r) -> In (fst x) l.
Proof.
  unfold left_join. rewrite in_flat_map. intros [a [Ha Hin]].
  destruct (List.filter (on a) r) as [|b ms].
  - destruct Hin as [<- | []]. assumption.
  - apply in_map_iff in Hin as [y [<- _]]. assumption.
Qed.

Lemma left_join_lateral_fst_in (sub : A -> list B) l x :
  In x (left_join_lateral sub l) -> In (fst x) l.
Proof.
  unfold left_join_lateral. rewrite in_flat_map. intros [a [Ha Hin]].
  destruct (sub a) as [|b ms].
  - destruct Hin as [<- | []]. assumption.
  - apply in_map_iff in Hin as [y [<- _]]. assumption.
Qed.

End Joins.

Lemma filter_none {A : Type} (p : A -> bool) l :
  (forall x, In x l -> p x = false) -> List.filter p l = [].
Proof.
  induction l as [|a l IH]; intros H; [reflexivity|]. cbn.
  rewrite (H a (or_introl eq_refl)). apply IH. intros; apply H; now right.
Qed.

Lemma filter_all {A : Type} (p : A -> bool) l :
  (forall x, In x l -> p x = true) -> List.filter p l = l.
Proof.
  induction l as [|a l IH]; intros H; [reflexivity|]. cbn.
  rewrite (H a (or_introl eq_refl)). f_equal. apply IH.
  intros; apply H; now right.
Qed.

Lemma filter_map_comm {A B : Type} (f : A -> B) (p : B -> bool) l :
  List.filter p (List.map f l) = List.map f (List.filter (fun a => p (f a)) l).
Proof.
  induction l as [|a l IH]; [reflexivity|]. cbn.
  destruct (p (f a)); cbn; now rewrite IH.
Qed.

(** Rows with pairwise distinct keys hold at most one row of a given key. *)
Lemma filter_distinct_keys {K V : Type} (p : K * V -> bool) (k : K) r :
  NoDup (List.map fst r) -> (forall s, p s = true -> fst s = k) ->
  (length (List.filter p r) <= 1)%nat.
Proof.
  intros Hnd Hp. induction r as [|s r IH]; [cbn; lia|].
  cbn in Hnd. apply NoDup_cons in Hnd as [Hnotin Hnd]. cbn.
  destruct (p s) eqn:Hs; [|auto].
  rewrite filter_none; [cbn; lia|].
  intros s' Hin. destruct (p s') eqn:Hs'; [|reflexivity].
  exfalso. apply Hnotin. rewrite (Hp _ Hs), <- (Hp _ Hs').
  apply list_elem_of_In, in_map. assumption.
Qed.

Lemma group_count_keys {K : Type} `{EqDecision K} (keys : list K) :
  NoDup (List.map fst (group_count keys)).
Proof.
  unfold group_count. rewrite map_map. cbn.
  rewrite map_id. apply NoDup_remove_dups.
Qed.

Lemma remove_dups_constant {K : Type} `{EqDecision K} (g : K) l :
  l <> [] -> (forall x, In x l -> x = g) -> remove_dups l = [g].
Proof.
  induction l as [|a l IH]; intros Hne Hall; [contradiction|].
  assert (a = g) by (apply Hall; now left). subst a. cbn.
  destruct l as [|b l].
  - cbn. destruct (decide_rel elem_of g []) as [Hin|_]; [|reflexivity].
    inversion Hin.
  - destruct (decide_rel elem_of g (b :: l)) as [_|Hnot].
    + apply IH; [discriminate|]. intros; apply Hall; now right.
    + exfalso. apply Hnot. assert (b = g) by (apply Hall; right; now left).
      subst b. left.
Qed.

(** Grouping rows that all carry one key gives one group, the rows
    themselves. *)
Lemma group_by_constant {A K : Type} `{EqDecision K} (k : A -> K) (g : K) l :
  l <> [] -> (forall a, In a l -> k a = g) -> group_by k l = [(g, l)].
Proof.
  intros Hne Hall. unfold group_by.
  rewrite (remove_dups_constant g).
  - cbn. f_equal. f_equal. apply filter_all. intros a Ha.
    apply bool_decide_eq_true. auto.
  - destruct l; [contradiction|discriminate].
  - intros x Hx. apply in_map_iff in Hx as [a [<- Ha]]. auto.
Qed.

End SqlSpec.

(** ** Aggregation engine and event writer *)

Module AnalyticsSpec.
Import JsString Json Store Sql Auth Analytics SqlSpec.
Local Open Scope list_scope.

Section WithRuntime.
Context {RT : Runtime}.

Lemma sql_eq_true a b : sql_eq a b = true -> a = b.
Proof.
  destruct a, b; cbn; try discriminate. intros H.
  apply String.eqb_eq in H. now subst.
Qed.

(** *** The joins of the summary query do not repeat rows *)

Lemma counts_join_keeps_rows {X : Type} (col : EventRow -> option string)
    (ev : X -> EventRow) (d : Db) (l : list X) :
  List.map fst (left_join (on_counts col ev) l (counts_by col d)) = l.
Proof.
  apply left_join_unique. intros a _.
  apply (filter_distinct_keys _ (e_api_key_id (ev a), col (ev a))).
  - apply group_count_keys.
  - intros [[k1 k2] n]. unfold on_counts. cbn.
    rewrite andb_true_iff, String.eqb_eq. intros [-> H].
    apply sql_eq_true in H. now rewrite H.
Qed.

Lemma summary_from_base (d : Db) :
  List.map (fun r => (sr_event r, sr_key r)) (summary_from d)
  = inner_join same_key (events d) (api_keys d).
Proof.
  transitivity (List.map fst (List.map fst (List.map fst (summary_from d)))).
  - rewrite !map_map. apply map_ext. intros [[[[e ak] c1] c2] c3]. reflexivity.
  - unfold summary_from. now rewrite !counts_join_keeps_rows.
Qed.

Lemma summary_filter_base (d : Db) (p : EventRow -> ApiKeyRow -> bool) :
  List.map (fun r => (sr_event r, sr_key r))
    (List.filter (fun r => p (sr_event r) (sr_key r)) (summary_from d))
  = List.filter (fun x => p (fst x) (snd x))
      (inner_join same_key (events d) (api_keys d)).
Proof. now rewrite <- summary_from_base, filter_map_comm. Qed.

Lemma summary_from_in (d : Db) r :
  In r (summary_from d) ->
  In (sr_event r) (events d) /\ In (sr_key r) (api_keys d)
  /\ e_api_key_id (sr_event r) = ak_id (sr_key r).
Proof.
  intros Hin.
  assert (H : In (sr_event r, sr_key r)
                 (inner_join same_key (events d) (api_keys d))).
  { rewrite <- summary_from_base.
    apply (in_map (fun r => (sr_event r, sr_key r))). assumption. }
  apply in_inner_join in H as (He & Hak & Hon).
  apply String.eqb_eq in Hon. auto.
Qed.

Lemma user_from_in (d : Db) r :
  In r (user_from d) ->
  In (ur_event r) (events d) /\ In (ur_key r) (api_keys d)
  /\ e_api_key_id (ur_event r) = ak_id (ur_key r).
Proof.
  unfold user_from. intros Hin.
  apply left_join_lateral_fst_in, left_join_fst_in in Hin.
  destruct r as [[[e ak] c] rc]. cbn in *.
  apply in_inner_join in Hin as (He & Hak & Hon).
  apply String.eqb_eq in Hon. auto.
Qed.

(** *** Queries that match nothing *)

Lemma summary_rows_none (d : Db) (q : SummaryQuery) (userId : option string) :
  (forall e ak, In e (events d) -> In ak (api_keys d) ->
                e_api_key_id e = ak_id ak ->
                summary_where q userId e ak = false) ->
  summary_rows d q userId = [].
Proof.
  intros H. unfold summary_rows. rewrite filter_none; [reflexivity|].
  intros r Hr. apply summary_from_in in Hr as (He & Hak & Hid). auto.
Qed.

Lemma user_rows_none (d : Db) (userId : string) (auth : option string) :
  (forall e ak, In e (events d) -> In ak (api_keys d) ->
                e_api_key_id e = ak_id ak ->
                user_where userId auth e ak = false) ->
  user_rows d userId auth = [].
Proof.
  intros H. unfold user_rows. rewrite filter_none; [reflexivity|].
  intros r Hr. apply user_from_in in Hr as (He & Hak & Hid). auto.
Qed.

(** C8.  With the cache holding nothing for the query and the store
    answering: a summary query whose WHERE clause no event of the caller's
    scope passes is answered 200 with the zero-valued aggregate (count 0,
    no uniques, empty breakdowns); a user-statistics query that matches no
    row is answered 404. *)
Theorem no_rows_results (env : Env) (w : World) (req : Request) :
  (forall q,
      cacheGet env (redis w) (summary_cache_key q (user_id req)) = None ->
      db_ok env = true ->
      (forall e ak, In e (events (db w)) -> In ak (api_keys (db w)) ->
                    e_api_key_id e = ak_id ak ->
                    summary_where q (user_id req) e ak = false) ->
      getEventSummary env w req q
      = (w, {| status := 200;
               body := JObj [("success", JBool true);
                             ("data", JObj [("event", JStr (q_event q));
                                            ("count", JNum 0);
                                            ("uniqueUsers", JNum 0);
                                            ("uniqueIps", JNum 0);
                                            ("deviceData", JObj []);
                                            ("browserData", JObj []);
                                            ("osData", JObj [])])] |}))
  /\ (forall userId,
        cacheGet env (redis w) (user_cache_key userId (user_id req)) = None ->
        db_ok env = true ->
        (forall e ak, In e (events (db w)) -> In ak (api_keys (db w)) ->
                      e_api_key_id e = ak_id ak ->
                      user_where userId (user_id req) e ak = false) ->
        getUserStats env w req userId
        = (w, failure 404 "User not found or no events tracked")).
Proof.
  split.
  - intros q Hmiss Hdb Hnone. unfold getEventSummary.
    rewrite Hmiss, Hdb, (summary_rows_none _ _ _ Hnone). reflexivity.
  - intros userId Hmiss Hdb Hnone. unfold getUserStats.
    rewrite Hmiss, Hdb, (user_rows_none _ _ _ Hnone). reflexivity.
Qed.

(** *** The cache *)

Lemma stringify_object_nonempty fields :
  or_else (Some (JSON_stringify (JObj fields))) None
  = Some (JSON_stringify (JObj fields)).
Proof. reflexivity. Qed.

Lemma cacheGet_cacheSet env1 env2 store key value ttl :
  redis_ok env1 = true -> redis_ok env2 = true ->
  now env2 < now env1 + ttl * 1000 ->
  cacheGet env2 (cacheSet env1 store key value ttl) key = Some value.
Proof.
  intros H1 H2 Ht. unfold cacheGet, cacheSet. rewrite H1, H2.
  rewrite lookup_insert_eq. apply Z.ltb_lt in Ht. now rewrite Ht.
Qed.

(** A prefix delete cannot turn a miss into a hit. *)
Lemma cacheGet_delete_pattern_miss env env' store pattern key :
  cacheGet env store key = None ->
  cacheGet env (cacheDeletePattern env' store pattern) key = None.
Proof.
  unfold cacheGet, cacheDeletePattern. intros H.
  destruct (redis_ok env); [|reflexivity].
  destruct (redis_ok env'); [|assumption].
  rewrite map_lookup_filter.
  destruct (store !! key) as [[v e]|]; cbn; [|reflexivity].
  case_guard; cbn; [assumption|reflexivity].
Qed.

(** C9 (as the code has it).  When the first compute of a summary query
    finds at least one matching row and the cache accepts the write,
    repeating the query within the 300 seconds that follow, nothing
    written in between, returns the very same aggregate, tagged
    cached=true.  (A query that matches no row is answered from the store
    every time: the zero-valued answer is returned before the cache
    write.)  [JSON.parse] is taken to read back what [JSON.stringify]
    printed for this aggregate. *)
Theorem summary_repeat_cached
    (env1 env2 : Env) (w : World) (req : Request) (q : SummaryQuery)
    (row : SummaryResult) (more : list SummaryResult) :
  cacheGet env1 (redis w) (summary_cache_key q (user_id req)) = None ->
  db_ok env1 = true -> redis_ok env1 = true -> redis_ok env2 = true ->
  summary_rows (db w) q (user_id req) = row :: more ->
  now env2 < now env1 + 300 * 1000 ->
  JSON_parse (JSON_stringify (summary_data row)) = Some (summary_data row) ->
  let first := getEventSummary env1 w req q in
  let second := getEventSummary env2 (fst first) req q in
  exists data,
    data = summary_data row
    /\ snd first
       = {| status := 200;
            body := JObj [("success", JBool true); ("data", data)] |}
    /\ snd second
       = {| status := 200;
            body := JObj [("success", JBool true); ("data", data);
                          ("cached", JBool true)] |}
    /\ fst second = fst first.
Proof.
  intros Hmiss Hdb Hr1 Hr2 Hrows Ht Hparse first second.
  exists (summary_data row). split; [reflexivity|].
  assert (Hfirst : first
            = ({| db := db w;
                  redis := cacheSet env1 (redis w)
                             (summary_cache_key q (user_id req))
                             (JSON_stringify (summary_data row)) 300 |},
               ok (summary_data row))).
  { subst first. unfold getEventSummary. now rewrite Hmiss, Hdb, Hrows. }
  split; [now rewrite Hfirst|].
  assert (Hsecond : second = (fst first, ok_cached (summary_data row))).
  { subst second. rewrite Hfirst. cbn [fst snd]. unfold getEventSummary.
    cbn [redis db]. rewrite (cacheGet_cacheSet _ _ _ _ _ _ Hr1 Hr2 Ht).
    unfold summary_data at 1. rewrite stringify_object_nonempty.
    fold (summary_data row). now rewrite Hparse. }
  now rewrite Hsecond.
Qed.

(** *** Writes *)

Lemma collect_all_db (a : ApiKeyData) writes : forall w,
  Forall (fun x => db_ok (fst (fst x)) = true) writes ->
  users (db (collect_all w a writes)) = users (db w)
  /\ api_keys (db (collect_all w a writes)) = api_keys (db w)
  /\ events (db (collect_all w a writes))
     = events (db w) ++ List.map (written a) writes.
Proof.
  induction writes as [|[[env req] b] rest IH]; intros w Hall.
  - cbn. now rewrite app_nil_r.
  - apply Forall_cons_iff in Hall as [Hok Hall]. cbn [fst snd] in Hok.
    cbn [collect_all]. destruct (IH (fst (collectEvent env w req a b)) Hall)
      as (Hu & Hk & He).
    rewrite Hu, Hk, He. unfold collectEvent. rewrite Hok. cbn.
    now rewrite <- app_assoc.
Qed.

Lemma collect_all_cache_miss env key (a : ApiKeyData) writes : forall w,
  cacheGet env (redis w) key = None ->
  cacheGet env (redis (collect_all w a writes)) key = None.
Proof.
  induction writes as [|[[env' req] b] rest IH]; intros w H; [assumption|].
  cbn [collect_all]. apply IH. unfold collectEvent.
  destruct (db_ok env'); cbn [fst redis]; [|assumption].
  now apply cacheGet_delete_pattern_miss.
Qed.

(** With [id] a primary key, an event joins the one key row it names. *)
Lemma filter_key_unique (aks : list ApiKeyRow) (c : ApiKeyRow) (e : EventRow) :
  NoDup (List.map ak_id aks) -> In c aks -> e_api_key_id e = ak_id c ->
  List.filter (same_key e) aks = [c].
Proof.
  intros Hnd Hin He. unfold same_key. rewrite He. clear He.
  induction aks as [|ak aks IH]; [contradiction|].
  cbn in Hnd. apply NoDup_cons in Hnd as [Hnotin Hnd]. cbn [List.filter].
  destruct Hin as [-> | Hin].
  - rewrite String.eqb_refl. f_equal. apply filter_none. intros ak' Hin'.
    apply String.eqb_neq. intros Heq. apply Hnotin. rewrite Heq.
    apply list_elem_of_In, in_map. assumption.
  - destruct (String.eqb_spec (ak_id c) (ak_id ak)) as [Heq|_]; [|auto].
    exfalso. apply Hnotin. rewrite <- Heq.
    apply list_elem_of_In, in_map. assumption.
Qed.

Lemma inner_join_one_key (aks : list ApiKeyRow) (c : ApiKeyRow) news :
  NoDup (List.map ak_id aks) -> In c aks ->
  (forall e, In e news -> e_api_key_id e = ak_id c) ->
  inner_join same_key news aks = List.map (fun e => (e, c)) news.
Proof.
  intros Hnd Hin. unfold inner_join.
  induction news as [|e news IH]; intros Hall; [reflexivity|].
  cbn [flat_map List.map].
  rewrite (filter_key_unique aks c e Hnd Hin) by (apply Hall; now left).
  cbn. f_equal. apply IH. intros; apply Hall; now right.
Qed.

Lemma omap_id_map {A B : Type} (f : A -> option B) l :
  omap id (List.map f l) = omap f l.
Proof.
  induction l as [|a l IH]; [reflexivity|]. cbn.
  destruct (f a); cbn; now rewrite IH.
Qed.

(** The rows the summary query aggregates once [writes] have gone in under
    one credential of the caller, no event of that name having been there
    under the caller's account before: the written events, one row each. *)
Lemma summary_rows_written
    (d : Db) (c : ApiKeyRow) (old news : list EventRow)
    (q : SummaryQuery) (uid : string) :
  events d = old ++ news ->
  In c (api_keys d) -> NoDup (List.map ak_id (api_keys d)) ->
  ak_user_id c = uid -> uid <> "" ->
  (forall e ak, In e old -> In ak (api_keys d) ->
                e_api_key_id e = ak_id ak -> e_event_name e = q_event q ->
                ak_user_id ak <> uid) ->
  (forall e, In e news ->
             e_api_key_id e = ak_id c /\ e_event_name e = q_event q) ->
  q_startDate q = None -> q_endDate q = None ->
  q_app_id q = None \/ q_app_id q = Some (ak_id c) ->
  List.map sr_event
    (List.filter (fun r => summary_where q (Some uid) (sr_event r) (sr_key r))
       (summary_from d))
  = news.
Proof.
  intros Hev Hc Hnd Hown Huid Hold Hnew Hsd Hed Happ.
  assert (Htruthy : truthy (Some uid) = true).
  { cbn. destruct (String.eqb_spec uid ""); [contradiction|reflexivity]. }
  transitivity
    (List.map fst
       (List.map (fun r => (sr_event r, sr_key r))
          (List.filter
             (fun r => summary_where q (Some uid) (sr_event r) (sr_key r))
             (summary_from d)))).
  { now rewrite map_map. }
  rewrite (summary_filter_base d (summary_where q (Some uid))).
  rewrite Hev, inner_join_app, List.filter_app.
  rewrite filter_none.
  - rewrite (inner_join_one_key _ c news Hnd Hc) by (intros; now apply Hnew).
    rewrite filter_all.
    + cbn [app]. rewrite map_map. cbn. apply map_id.
    + intros x Hx. apply in_map_iff in Hx as [e [<- He]]. cbn [fst snd].
      destruct (Hnew e He) as [_ Hname]. unfold summary_where.
      rewrite Hname, String.eqb_refl, Htruthy, Hsd, Hed, Hown. cbn.
      rewrite String.eqb_refl. cbn.
      destruct Happ as [-> | ->]; cbn; [reflexivity|].
      rewrite String.eqb_refl. now destruct (String.eqb (ak_id c) "").
  - intros [e ak] Hx. apply in_inner_join in Hx as (He & Hak & Hon).
    apply String.eqb_eq in Hon. cbn [fst snd]. unfold summary_where.
    destruct (String.eqb_spec (e_event_name e) (q_event q)) as [Hname|_];
      [|reflexivity].
    rewrite Htruthy. cbn.
    destruct (String.eqb_spec (ak_user_id ak) uid) as [Heq|_]; [|reflexivity].
    exfalso. exact (Hold e ak He Hak Hon Hname Heq).
Qed.

(** C3.  [writes] events of one name go in under one credential of the
    caller's account, every insert succeeding, where no event of that
    name lay under the account before.  A summary query for the name
    (no date range; all applications or just this one) that finds no cached
    entry then answers 200 with [count] the number of events written and
    [uniqueUsers] the number of distinct non-null [user_id] values among
    them. *)
Theorem summary_after_writes
    (w0 : World) (a : ApiKeyData)
    (writes : list (Env * Request * CollectBody))
    (uid : string) (env : Env) (req : Request) (q : SummaryQuery) :
  In (key_row a) (api_keys (db w0)) ->
  NoDup (List.map ak_id (api_keys (db w0))) ->
  ak_user_id (key_row a) = uid -> user_id req = Some uid -> uid <> "" ->
  (forall e ak, In e (events (db w0)) -> In ak (api_keys (db w0)) ->
                e_api_key_id e = ak_id ak -> e_event_name e = q_event q ->
                ak_user_id ak <> uid) ->
  Forall (fun x => db_ok (fst (fst x)) = true
                   /\ b_event (snd x) = q_event q) writes ->
  q_startDate q = None -> q_endDate q = None ->
  q_app_id q = None \/ q_app_id q = Some (ak_id (key_row a)) ->
  cacheGet env (redis w0) (summary_cache_key q (Some uid)) = None ->
  db_ok env = true ->
  exists data,
    snd (getEventSummary env (collect_all w0 a writes) req q)
    = {| status := 200;
         body := JObj [("success", JBool true); ("data", data)] |}
    /\ jget "count" data = Some (JNum (Z.of_nat (length writes)))
    /\ jget "uniqueUsers" data
       = Some (JNum (Z.of_nat
                       (length (remove_dups
                                  (omap (fun x => b_user_id (snd x)) writes))))).
Proof.
  intros Hc Hnd Hown Hreq Huid Hold Hall Hsd Hed Happ Hmiss Hdb.
  assert (Hok : Forall (fun x => db_ok (fst (fst x)) = true) writes).
  { eapply List.Forall_impl; [|exact Hall]. now intros x [H _]. }
  destruct (collect_all_db a writes w0 Hok) as (_ & Hk & He).
  pose proof (collect_all_cache_miss _ _ a writes w0 Hmiss) as Hmiss'.
  set (w := collect_all w0 a writes) in *.
  pose proof (summary_rows_written (db w) (key_row a) (events (db w0))
                (List.map (written a) writes) q uid He) as Hrows.
  rewrite Hk in Hrows. specialize (Hrows Hc Hnd Hown Huid Hold).
  assert (Hnew : forall e, In e (List.map (written a) writes) ->
             e_api_key_id e = ak_id (key_row a)
             /\ e_event_name e = q_event q).
  { intros e Hin. apply in_map_iff in Hin as [x [<- Hx]].
    rewrite List.Forall_forall in Hall. destruct (Hall x Hx) as [_ Hname].
    split; [reflexivity | exact Hname]. }
  specialize (Hrows Hnew Hsd Hed Happ).
  unfold getEventSummary. rewrite Hreq.
  rewrite Hmiss', Hdb.
  cbn [or_else truthy]. unfold summary_rows.
  set (rows := List.filter
                 (fun r => summary_where q (Some uid) (sr_event r) (sr_key r))
                 (summary_from (db w))) in *.
  assert (Hlen : length rows = length writes).
  { rewrite <- (length_map sr_event rows), Hrows. now rewrite !length_map. }
  destruct rows as [|r rows'] eqn:Erows.
  - cbn. exists (summary_zero (q_event q)). split; [reflexivity|].
    destruct writes; [|discriminate]. split; reflexivity.
  - rewrite (group_by_constant _ (q_event q)).
    + cbn [List.map snd]. eexists. split; [reflexivity|].
      cbn [jget assoc_get summary_data String.eqb Ascii.eqb Bool.eqb].
      cbn [summary_aggregate r_count r_unique_users snd fst].
      split; [now rewrite Hlen|].
      do 3 f_equal. unfold count_distinct.
      rewrite <- (map_map sr_event e_user_id), Hrows.
      rewrite map_map, omap_id_map. reflexivity.
    + discriminate.
    + intros r' Hr'. rewrite <- Erows in Hr'.
      apply List.filter_In in Hr' as [_ Hw]. unfold summary_where in Hw.
      rewrite !andb_true_iff in Hw. destruct Hw as [[[[Hname _] _] _] _].
      now apply String.eqb_eq.
Qed.

(** *** What the writer's invalidation reaches *)

(** The writer deletes [analytics:<key id>:*]; the reader stores under
    [analytics:summary:...].  No key id that is a UUID makes the first
    cover the second. *)
Lemma invalidation_misses_summary_keys (id rest : string) :
  starts_hex id ->
  glob_match ("analytics:" ++ id ++ ":*")%string
             ("analytics:summary:" ++ rest)%string = false.
Proof.
  destruct id as [|c id]; [contradiction|]. cbn [starts_hex]. intros Hc.
  cbn.
  destruct c as [[] [] [] [] [] [] [] []]; try discriminate Hc; reflexivity.
Qed.

Lemma collectEvent_keeps_summary_entries
    (env env' : Env) (w : World) (req : Request) (a : ApiKeyData)
    (b : CollectBody) (q : SummaryQuery) (userId : option string) :
  starts_hex (ak_id (key_row a)) ->
  cacheGet env' (redis (fst (collectEvent env w req a b)))
    (summary_cache_key q userId)
  = cacheGet env' (redis w) (summary_cache_key q userId).
Proof.
  intros Hid. unfold collectEvent.
  destruct (db_ok env); cbn [fst redis]; [|reflexivity].
  unfold cacheGet, cacheDeletePattern.
  destruct (redis_ok env'); [|reflexivity].
  destruct (redis_ok env); [|reflexivity].
  rewrite map_lookup_filter.
  destruct (redis w !! summary_cache_key q userId) as [[v e]|]; cbn;
    [|reflexivity].
  rewrite option_guard_True; [reflexivity|].
  cbn [fst]. unfold summary_cache_key.
  apply invalidation_misses_summary_keys. assumption.
Qed.

End WithRuntime.

(** *** The handlers on the demo deployment *)

Import Reference.

Lemma no_rows_results_witness :
  getEventSummary (Demo.env_at 10 "") Demo.w0 Demo.session Demo.clicks
  = (Demo.w0, ok (summary_zero "click"))
  /\ getUserStats (Demo.env_at 10 "") Demo.w0 Demo.session "visitor-1"
     = (Demo.w0, failure 404 "User not found or no events tracked").
Proof.
  destruct (no_rows_results (Demo.env_at 10 "") Demo.w0 Demo.session)
    as [Hsummary Huser].
  split.
  - apply (Hsummary Demo.clicks); [reflexivity | reflexivity |].
    intros e ak [].
  - apply (Huser "visitor-1"); [reflexivity | reflexivity |].
    intros e ak [].
Defined.

(** C9 as stated fails for a query that matches no row: the repeat is
    computed again and carries no cached flag. *)
Lemma empty_summary_never_cached :
  let first :=
    getEventSummary (Demo.env_at 1000 "") Demo.w0 Demo.session Demo.clicks in
  let second :=
    getEventSummary (Demo.env_at 2000 "") (fst first) Demo.session
      Demo.clicks in
  status (snd first) = 200
  /\ status (snd second) = 200
  /\ jget "data" (body (snd second)) = jget "data" (body (snd first))
  /\ jget "cached" (body (snd second)) <> Some (JBool true).
Proof. vm_compute. repeat split; discriminate. Qed.

Lemma summary_repeat_cached_witness :
  let first :=
    getEventSummary (Demo.env_at 2000 "") Demo.w1 Demo.session Demo.clicks in
  let second :=
    getEventSummary (Demo.env_at 3000 "") (fst first) Demo.session
      Demo.clicks in
  exists data,
    snd first
    = {| status := 200;
         body := JObj [("success", JBool true); ("data", data)] |}
    /\ snd second
       = {| status := 200;
            body := JObj [("success", JBool true); ("data", data);
                          ("cached", JBool true)] |}.
Proof.
  intros first second.
  edestruct (summary_repeat_cached (Demo.env_at 2000 "") (Demo.env_at 3000 "")
               Demo.w1 Demo.session Demo.clicks)
    as (data & _ & H1 & H2 & _).
  - vm_compute. reflexivity.
  - reflexivity.
  - reflexivity.
  - reflexivity.
  - vm_compute. reflexivity.
  - vm_compute. reflexivity.
  - vm_compute. reflexivity.
  - exists data. split; [exact H1 | exact H2].
Defined.

Lemma summary_after_writes_witness :
  exists data,
    snd (getEventSummary (Demo.env_at 9000 "")
           (collect_all Demo.w0 Demo.cred Demo.three_clicks)
           Demo.session Demo.clicks)
    = {| status := 200;
         body := JObj [("success", JBool true); ("data", data)] |}
    /\ jget "count" data = Some (JNum 3)
    /\ jget "uniqueUsers" data = Some (JNum 1).
Proof.
  apply (summary_after_writes Demo.w0 Demo.cred Demo.three_clicks
           (u_id Demo.alice) (Demo.env_at 9000 "") Demo.session Demo.clicks).
  - left. reflexivity.
  - apply (bool_decide_unpack _). vm_compute. exact I.
  - reflexivity.
  - reflexivity.
  - discriminate.
  - intros e ak [].
  - repeat constructor.
  - reflexivity.
  - reflexivity.
  - left. reflexivity.
  - vm_compute. reflexivity.
  - reflexivity.
Defined.

(** C1 on the demo deployment.  A click is written and the owner's summary
    is computed and cached (count 1).  A second click is written under
    the same credential; its invalidation leaves the cached summary in
    place, so the next read is served from the cache, tagged cached=true
    and still counting 1, while the store holds two clicks and a compute
    from the store would count 2. *)
Theorem summary_stale_after_write :
  jget "cached" (body (snd Demo.read1)) = None
  /\ (exists data, jget "data" (body (snd Demo.read1)) = Some data
                   /\ jget "count" data = Some (JNum 1))
  /\ length (events (db Demo.w2)) = 2%nat
  /\ jget "cached" (body (snd Demo.read2)) = Some (JBool true)
  /\ (exists data, jget "data" (body (snd Demo.read2)) = Some data
                   /\ jget "count" data = Some (JNum 1))
  /\ (exists data,
        jget "data"
          (body (snd (getEventSummary (Demo.env_at 4000 "")
                        {| db := db Demo.w2; redis := ∅ |}
                        Demo.session Demo.clicks))) = Some data
        /\ jget "count" data = Some (JNum 2)).
Proof.
  vm_compute.
  split; [reflexivity|]. split; [eexists; split; reflexivity|].
  split; [reflexivity|]. split; [reflexivity|].
  split; eexists; split; reflexivity.
Qed.

(** C5 on the demo deployment.  One visitor has four events under one
    credential.  The lateral join pairs each of them with each of the
    visitor's recent events, and the aggregates run over the pairs: the
    answer reports 16 total events and lists 16 recent events. *)
Theorem user_stats_fan_out :
  length (List.filter
            (fun e => sql_eq (e_user_id e) (Some "visitor-1"))
            (events (db Demo.w4))) = 4%nat
  /\ exists data recent,
       snd Demo.stats4 = ok data
       /\ jget "totalEvents" data = Some (JNum 16)
       /\ jget "uniqueEvents" data = Some (JNum 1)
       /\ jget "recentEvents" data = Some (JArr recent)
       /\ length recent = 16%nat.
Proof.
  vm_compute. split; [reflexivity|].
  eexists. eexists. repeat split; reflexivity.
Qed.

End AnalyticsSpec.

(** ** Context enrichment, continued *)

Module EnrichmentProps.
Import JsString UserAgent Store Ip.

Lemma lower_char_idempotent c : lower_char (lower_char c) = lower_char c.
Proof. destruct c as [[] [] [] [] [] [] [] []]; reflexivity. Qed.

Lemma toLowerCase_idempotent s : toLowerCase (toLowerCase s) = toLowerCase s.
Proof.
  induction s as [|c s IH]; [reflexivity|].
  cbn. now rewrite lower_char_idempotent, IH.
Qed.

(** X1.  Classification does not look at letter case: lower-casing a
    signature before parsing it changes nothing. *)
Theorem parseUserAgent_case_insensitive (userAgent : string) :
  parseUserAgent (toLowerCase userAgent) = parseUserAgent userAgent.
Proof. unfold parseUserAgent. now rewrite toLowerCase_idempotent. Qed.

Lemma parse_ranges (userAgent : string) :
  In (browser (parseUserAgent userAgent))
     ["Chrome"; "Safari"; "Firefox"; "Edge"; "Opera"; "Unknown"]
  /\ In (os (parseUserAgent userAgent))
        ["Windows"; "macOS"; "Linux"; "Android"; "iOS"; "Unknown"]
  /\ In (device (parseUserAgent userAgent)) ["mobile"; "tablet"; "desktop"].
Proof.
  unfold parseUserAgent, detect_browser, detect_os, detect_device.
  cbn [browser os device]. set (ua := toLowerCase userAgent).
  split; [|split].
  - destruct (includes ua "chrome" && negb (includes ua "edg"));
      [cbn; tauto|].
    destruct (includes ua "safari" && negb (includes ua "chrome"));
      [cbn; tauto|].
    destruct (includes ua "firefox"); [cbn; tauto|].
    destruct (includes ua "edg"); [cbn; tauto|].
    destruct (includes ua "opera" || includes ua "opr"); cbn; tauto.
  - destruct (includes ua "windows"); [cbn; tauto|].
    destruct (includes ua "mac"); [cbn; tauto|].
    destruct (includes ua "linux"); [cbn; tauto|].
    destruct (includes ua "android"); [cbn; tauto|].
    destruct (includes ua "ios" || includes ua "iphone" || includes ua "ipad");
      cbn; tauto.
  - destruct (includes ua "mobile" || includes ua "android"); [cbn; tauto|].
    destruct (includes ua "tablet" || includes ua "ipad"); cbn; tauto.
Qed.

(** X2.  The three derived fields range over closed sets: six browser
    names, six operating systems, three device classes. *)
Theorem parseUserAgent_ranges (userAgent : string) :
  In (browser (parseUserAgent userAgent))
     ["Chrome"; "Safari"; "Firefox"; "Edge"; "Opera"; "Unknown"]
  /\ In (os (parseUserAgent userAgent))
        ["Windows"; "macOS"; "Linux"; "Android"; "iOS"; "Unknown"]
  /\ In (device (parseUserAgent userAgent)) ["mobile"; "tablet"; "desktop"].
Proof. exact (parse_ranges userAgent). Qed.

(** X3.  The operating-system rules are tried in the order Windows, macOS,
    Linux, Android, iOS.  So a signature that mentions "mac" is Windows or
    macOS and never iOS (the "like Mac OS X" of an iPhone makes it macOS),
    one that mentions "linux" is never Android, and iOS is only reached
    when none of "windows", "mac", "linux", "android" occurs. *)
Theorem os_rule_order (userAgent : string) :
  let ua := toLowerCase userAgent in
  (includes ua "mac" = true ->
     os (parseUserAgent userAgent) = "Windows"
     \/ os (parseUserAgent userAgent) = "macOS")
  /\ (includes ua "linux" = true ->
        os (parseUserAgent userAgent) <> "Android"
        /\ os (parseUserAgent userAgent) <> "iOS")
  /\ (os (parseUserAgent userAgent) = "iOS" ->
        includes ua "windows" = false /\ includes ua "mac" = false
        /\ includes ua "linux" = false /\ includes ua "android" = false).
Proof.
  intros ua. unfold parseUserAgent, detect_os. cbn [os]. fold ua.
  destruct (includes ua "windows"), (includes ua "mac"),
    (includes ua "linux"), (includes ua "android"),
    (includes ua "ios" || includes ua "iphone" || includes ua "ipad");
    repeat split; intros; try discriminate; auto.
Qed.

Lemma os_rule_order_witness :
  let iphone := "Mozilla/5.0 (iPhone; CPU iPhone OS 14_6 like Mac OS X) AppleWebKit/605.1.15 (KHTML, like Gecko) Version/14.0 Mobile/15E148 Safari/604.1" in
  let android := "Mozilla/5.0 (Linux; Android 10; SM-G973F) AppleWebKit/537.36 (KHTML, like Gecko) Chrome/91.0.4472.120 Mobile Safari/537.36" in
  os (parseUserAgent iphone) = "macOS"
  /\ os (parseUserAgent android) <> "Android".
Proof.
  intros iphone android. split.
  - destruct (proj1 (os_rule_order iphone)) as [H | H];
      [vm_compute; reflexivity | vm_compute in H; discriminate H | exact H].
  - apply (proj1 (proj2 (os_rule_order android))). vm_compute. reflexivity.
Defined.

(** X4.  The device class is "desktop" exactly when the signature carries
    none of "mobile", "android", "tablet", "ipad"; any mention of "mobile"
    or "android" makes it "mobile", whatever else the signature says. *)
Theorem device_default (userAgent : string) :
  let ua := toLowerCase userAgent in
  (device (parseUserAgent userAgent) = "desktop" <->
     includes ua "mobile" = false /\ includes ua "android" = false
     /\ includes ua "tablet" = false /\ includes ua "ipad" = false)
  /\ (includes ua "mobile" = true \/ includes ua "android" = true ->
        device (parseUserAgent userAgent) = "mobile").
Proof.
  intros ua. unfold parseUserAgent, detect_device. cbn [device]. fold ua.
  destruct (includes ua "mobile"), (includes ua "android"),
    (includes ua "tablet"), (includes ua "ipad"); cbn;
    (split; [split; [intros H; try discriminate H; auto
                    | intros (A & B & C & D); try discriminate; reflexivity]
            | intros [H | H]; try discriminate H; reflexivity]).
Qed.

Lemma device_default_witness :
  device (parseUserAgent "Mozilla/5.0 (iPad; CPU OS 14_6 like Mac OS X) Mobile/15E148")
  = "mobile".
Proof.
  apply (proj2 (device_default _)). left. vm_compute. reflexivity.
Defined.

End EnrichmentProps.

(** ** Address resolution *)

Module AddressProps.
Import JsString Store Ip Notions.

Lemma or_default_cases a d :
  (exists s, a = Some s /\ s <> "" /\ or_default a d = s)
  \/ (truthy a = false /\ or_default a d = d).
Proof.
  unfold or_default, or_else. destruct a as [s|]; cbn.
  - destruct (String.eqb_spec s ""); cbn; [right; auto|].
    left. exists s. auto.
  - right. auto.
Qed.

Lemma or_else_truthy a b :
  truthy a = true -> or_else a b = a.
Proof. unfold or_else. now intros ->. Qed.

Lemma extract_nonempty (req : Request) :
  extractIpAddress req <> "".
Proof.
  unfold extractIpAddress.
  match goal with
  | |- or_default ?a ?d <> _ =>
      destruct (or_default_cases a d) as [(s & _ & Hs & ->) | [_ ->]]
  end; [assumption | discriminate].
Qed.

(** X5.  The resolved address is never the empty string: when no header
    and no socket yields a non-empty value it is the literal "unknown". *)
Theorem extractIpAddress_nonempty (req : Request) :
  extractIpAddress req <> "".
Proof. exact (extract_nonempty req). Qed.

Lemma before_comma_no_comma h : has_comma (before_comma h) = false.
Proof.
  induction h as [|c h IH]; [reflexivity|]. cbn [before_comma].
  destruct (Ascii.eqb c ",") eqn:E; [reflexivity|].
  cbn [has_comma]. now rewrite E.
Qed.

Lemma trim_start_no_comma s :
  has_comma s = false -> has_comma (trim_start s) = false.
Proof.
  induction s as [|c s IH]; [reflexivity|].
  cbn [has_comma trim_start]. intros H.
  apply orb_false_iff in H as [Hc Hs].
  destruct (is_space c); [auto|]. cbn [has_comma]. now rewrite Hc, Hs.
Qed.

Lemma trim_end_no_comma s :
  has_comma s = false -> has_comma (trim_end s) = false.
Proof.
  induction s as [|c s IH]; [reflexivity|].
  cbn [has_comma trim_end]. intros H.
  apply orb_false_iff in H as [Hc Hs]. specialize (IH Hs).
  destruct (trim_end s) as [|c' t].
  - destruct (is_space c); [reflexivity|]. cbn [has_comma]. now rewrite Hc.
  - change (has_comma (String c (String c' t)))
      with (Ascii.eqb c "," || has_comma (String c' t)).
    now rewrite Hc, IH.
Qed.

Lemma trim_start_no_lead s : starts_with_space (trim_start s) = false.
Proof.
  induction s as [|c s IH]; [reflexivity|]. cbn [trim_start].
  destruct (is_space c) eqn:E; [assumption|]. cbn [starts_with_space]. exact E.
Qed.

Lemma trim_end_keeps_lead s :
  starts_with_space s = false -> starts_with_space (trim_end s) = false.
Proof.
  destruct s as [|c s]; [reflexivity|].
  cbn [starts_with_space trim_end]. intros H.
  destruct (trim_end s); [|exact H].
  rewrite H. exact H.
Qed.

Lemma trim_end_no_trail s : ends_with_space (trim_end s) = false.
Proof.
  induction s as [|c s IH]; [reflexivity|]. cbn [trim_end].
  destruct (trim_end s) as [|c' t].
  - destruct (is_space c) eqn:E; [reflexivity|].
    cbn [ends_with_space]. exact E.
  - exact IH.
Qed.

(** X6.  When the forwarded-for header has a first comma-separated entry
    that is not blank, the resolved address is that entry with the white
    space around it removed, whatever the other headers and the socket
    say; it holds no comma and neither starts nor ends with white space. *)
Theorem extractIpAddress_forwarded (req : Request) (h : string) :
  h_x_forwarded_for req = Some h ->
  trim (before_comma h) <> "" ->
  extractIpAddress req = trim (before_comma h)
  /\ has_comma (extractIpAddress req) = false
  /\ starts_with_space (extractIpAddress req) = false
  /\ ends_with_space (extractIpAddress req) = false.
Proof.
  intros Hh Hne.
  assert (E : extractIpAddress req = trim (before_comma h)).
  { unfold extractIpAddress. rewrite Hh.
    assert (Ht : truthy (Some (trim (before_comma h))) = true).
    { cbn. destruct (String.eqb_spec (trim (before_comma h)) "");
        [contradiction|reflexivity]. }
    rewrite (or_else_truthy _ _ Ht). unfold or_default.
    now rewrite (or_else_truthy _ _ Ht). }
  rewrite E. unfold trim. repeat split.
  - apply trim_end_no_comma, trim_start_no_comma, before_comma_no_comma.
  - apply trim_end_keeps_lead, trim_start_no_lead.
  - apply trim_end_no_trail.
Qed.

Lemma extractIpAddress_forwarded_witness :
  let req := {| h_x_api_key := None; h_user_agent := None;
                h_x_forwarded_for := Some " 203.0.113.7 , 10.0.0.2";
                h_x_real_ip := Some "10.0.0.9";
                connection_remoteAddress := Some "10.0.0.1";
                socket_remoteAddress := None; ip := None;
                user_id := None |} in
  extractIpAddress req = "203.0.113.7".
Proof.
  intro req.
  apply (extractIpAddress_forwarded req " 203.0.113.7 , 10.0.0.2");
    [reflexivity | vm_compute; discriminate].
Defined.

End AddressProps.

(** ** The cache store *)

Module CacheProps.
Import JsString Json Store Auth Analytics Notions.

(** X7.  A value written with a time to live of [ttl] seconds is read back
    under its key until [ttl * 1000] milliseconds have passed and is a miss
    from then on; the entries under other keys read as before. *)
Theorem cacheSet_then_get
    (env1 env2 : Env) (store : gmap string Entry)
    (key value : string) (ttl : Z) :
  redis_ok env1 = true -> redis_ok env2 = true ->
  cacheGet env2 (cacheSet env1 store key value ttl) key
  = (if now env2 <? now env1 + ttl * 1000 then Some value else None)
  /\ forall other, other <> key ->
       cacheGet env2 (cacheSet env1 store key value ttl) other
       = cacheGet env2 store other.
Proof.
  intros H1 H2. unfold cacheGet, cacheSet. rewrite H1, H2. split.
  - now rewrite lookup_insert_eq.
  - intros other Hne. now rewrite lookup_insert_ne.
Qed.

Lemma cacheSet_then_get_witness :
  cacheGet (Demo.env_at 299999 "")
    (cacheSet (Demo.env_at 0 "") ∅ "k" "v" 300) "k" = Some "v"
  /\ cacheGet (Demo.env_at 300000 "")
       (cacheSet (Demo.env_at 0 "") ∅ "k" "v" 300) "k" = None.
Proof.
  split.
  - apply (proj1 (cacheSet_then_get (Demo.env_at 0 "") (Demo.env_at 299999 "")
                    ∅ "k" "v" 300 eq_refl eq_refl)).
  - apply (proj1 (cacheSet_then_get (Demo.env_at 0 "") (Demo.env_at 300000 "")
                    ∅ "k" "v" 300 eq_refl eq_refl)).
Defined.

(** X8.  After a delete the key is a miss, and every other key reads as
    before. *)
Theorem cacheDelete_then_get
    (env1 env2 : Env) (store : gmap string Entry) (key : string) :
  redis_ok env1 = true ->
  cacheGet env2 (cacheDelete env1 store key) key = None
  /\ forall other, other <> key ->
       cacheGet env2 (cacheDelete env1 store key) other
       = cacheGet env2 store other.
Proof.
  intros H1. unfold cacheGet, cacheDelete. rewrite H1. split.
  - destruct (redis_ok env2); [|reflexivity]. now rewrite lookup_delete_eq.
  - intros other Hne. now rewrite lookup_delete_ne.
Qed.

Lemma cacheDelete_then_get_witness :
  cacheGet (Demo.env_at 1 "")
    (cacheDelete (Demo.env_at 1 "")
       (cacheSet (Demo.env_at 0 "") ∅ "k" "v" 300) "k") "k" = None.
Proof.
  apply (proj1 (cacheDelete_then_get (Demo.env_at 1 "") (Demo.env_at 1 "")
                  _ "k" eq_refl)).
Defined.

Lemma glob_star_all s : glob_match "*" s = true.
Proof.
  induction s as [|c s IH]; [reflexivity|].
  cbn in *. exact IH.
Qed.

Lemma glob_match_plain c p s :
  (N_of_ascii c =? 42)%N = false -> (N_of_ascii c =? 63)%N = false ->
  (N_of_ascii c =? 92)%N = false ->
  glob_match (String c p) s
  = match s with
    | String x s' => Ascii.eqb c x && glob_match p s'
    | EmptyString => false
    end.
Proof. intros H42 H63 H92. simpl. now rewrite H42, H63, H92. Qed.

(** A pattern made of plain characters and a final star matches the keys
    that begin with those characters. *)
Lemma glob_literal_prefix p : forall s,
  glob_literal p = true ->
  glob_match (p ++ "*") s = String.prefix p s.
Proof.
  induction p as [|c p IH]; intros s Hlit.
  - change ("" ++ "*") with "*". rewrite glob_star_all. now destruct s.
  - cbn [glob_literal] in Hlit. apply andb_true_iff in Hlit as [Hc Hp].
    unfold is_glob_meta in Hc. apply negb_true_iff in Hc.
    rewrite !orb_false_iff in Hc. destruct Hc as [[[H42 H63] _] H92].
    change (String c p ++ "*") with (String c (p ++ "*")).
    rewrite (glob_match_plain _ _ _ H42 H63 H92).
    destruct s as [|x s]; [reflexivity|]. cbn [String.prefix].
    destruct (Ascii.eqb_spec c x) as [->|Hne].
    + destruct (ascii_dec x x); [|contradiction]. cbn. now apply IH.
    + destruct (ascii_dec c x); [contradiction|reflexivity].
Qed.

Lemma delete_pattern_prefix
    (env1 env2 : Env) (store : gmap string Entry) (p key : string) :
  redis_ok env1 = true -> glob_literal p = true ->
  cacheGet env2 (cacheDeletePattern env1 store (p ++ "*")) key
  = if String.prefix p key then None else cacheGet env2 store key.
Proof.
  intros H1 Hlit. unfold cacheGet, cacheDeletePattern. rewrite H1.
  destruct (redis_ok env2); [|now destruct (String.prefix p key)].
  rewrite map_lookup_filter. cbn [fst].
  rewrite (glob_literal_prefix p key Hlit).
  destruct (store !! key) as [[v e]|]; cbn;
    [|now destruct (String.prefix p key)].
  destruct (String.prefix p key).
  - now rewrite option_guard_False.
  - now rewrite option_guard_True.
Qed.

(** X9.  A pattern delete whose pattern is a plain prefix followed by a star
    removes exactly the keys that start with the prefix: those are misses
    afterwards, every other key reads as before. *)
Theorem cacheDeletePattern_prefix
    (env1 env2 : Env) (store : gmap string Entry) (p key : string) :
  redis_ok env1 = true -> glob_literal p = true ->
  cacheGet env2 (cacheDeletePattern env1 store (p ++ "*")) key
  = if String.prefix p key then None else cacheGet env2 store key.
Proof. exact (delete_pattern_prefix env1 env2 store p key). Qed.

Lemma cacheDeletePattern_prefix_witness :
  let store :=
    cacheSet (Demo.env_at 0 "")
      (cacheSet (Demo.env_at 0 "") ∅ "analytics:k1:a" "1" 300)
      "analytics:summary:a" "2" 300 in
  let store' :=
    cacheDeletePattern (Demo.env_at 1 "") store ("analytics:k1:" ++ "*") in
  cacheGet (Demo.env_at 1 "") store' "analytics:k1:a" = None
  /\ cacheGet (Demo.env_at 1 "") store' "analytics:summary:a" = Some "2".
Proof.
  intros store store'. subst store'. split.
  - apply (cacheDeletePattern_prefix (Demo.env_at 1 "") (Demo.env_at 1 "")
             store "analytics:k1:" "analytics:k1:a" eq_refl eq_refl).
  - rewrite (cacheDeletePattern_prefix (Demo.env_at 1 "") (Demo.env_at 1 "")
               store "analytics:k1:" "analytics:summary:a" eq_refl eq_refl).
    vm_compute. reflexivity.
Defined.

Section Handlers.
Context {RT : Runtime}.


End Handlers.

Import Reference.


End CacheProps.

(** ** The event writer *)

Module WriterProps.
Import JsString Json Store UserAgent Ip Auth Analytics Notions.

Lemma append_assoc (a b c : string) : (a ++ b) ++ c = a ++ (b ++ c).
Proof.
  induction a as [|x a IH]; [reflexivity|].
  change (String x (((a ++ b)) ++ c) = String x (a ++ (b ++ c))).
  now rewrite IH.
Qed.

Lemma glob_literal_app (a b : string) :
  glob_literal (a ++ b) = glob_literal a && glob_literal b.
Proof.
  induction a as [|x a IH]; [reflexivity|].
  change (glob_literal (String x (a ++ b))
          = glob_literal (String x a) && glob_literal b).
  cbn [glob_literal]. rewrite IH. now rewrite andb_assoc.
Qed.

Lemma assoc_get_set_same k v m : assoc_get k (assoc_set k v m) = Some v.
Proof.
  induction m as [|[k' v'] m IH]; cbn.
  - now rewrite String.eqb_refl.
  - destruct (String.eqb k k') eqn:E; cbn; rewrite ?String.eqb_refl, ?E; auto.
Qed.

Lemma assoc_get_set_other k k' v m :
  k' <> k -> assoc_get k' (assoc_set k v m) = assoc_get k' m.
Proof.
  intros Hne. induction m as [|[k0 v0] m IH]; cbn.
  - destruct (String.eqb_spec k' k); [contradiction|reflexivity].
  - destruct (String.eqb_spec k k0) as [->|Hk]; cbn.
    + destruct (String.eqb_spec k' k0); [contradiction|reflexivity].
    + destruct (String.eqb k' k0); [reflexivity|exact IH].
Qed.

Lemma or_default_nonempty a d : d <> "" -> or_default a d <> "".
Proof.
  intros Hd. unfold or_default, or_else. destruct a as [s|]; cbn; [|exact Hd].
  destruct (String.eqb_spec s ""); cbn; assumption.
Qed.

Lemma in_nonempty (x : string) (l : list string) :
  In x l -> forallb (fun s => negb (String.eqb s "")) l = true -> x <> "".
Proof.
  intros Hin Hall. rewrite forallb_forall in Hall.
  specialize (Hall x Hin). apply negb_true_iff in Hall.
  now apply String.eqb_neq.
Qed.

Lemma or_default_given s d : s <> "" -> or_default (Some s) d = s.
Proof.
  intros Hs. unfold or_default, or_else. cbn.
  now destruct (String.eqb_spec s "").
Qed.

Section Writer.
Context {RT : Runtime}.

(** X11.  A successful write deletes from the cache exactly the entries
    whose key starts with [analytics:<key id>:] (the key id being plain
    text, as a UUID is); every other entry reads as before. *)
Theorem collectEvent_invalidation_reach
    (env env' : Env) (w : World) (req : Request) (a : ApiKeyData)
    (b : CollectBody) (key : string) :
  db_ok env = true -> redis_ok env = true ->
  glob_literal (ak_id (key_row a)) = true ->
  cacheGet env' (redis (fst (collectEvent env w req a b))) key
  = if String.prefix ("analytics:" ++ ak_id (key_row a) ++ ":") key
    then None
    else cacheGet env' (redis w) key.
Proof.
  intros Hdb Hr Hlit. unfold collectEvent. rewrite Hdb. cbn [fst redis].
  replace ("analytics:" ++ ak_id (key_row a) ++ ":*")
    with (("analytics:" ++ ak_id (key_row a) ++ ":") ++ "*").
  - apply CacheProps.delete_pattern_prefix; [assumption|].
    rewrite !glob_literal_app, Hlit. reflexivity.
  - rewrite !append_assoc. reflexivity.
Qed.

(** X12.  The row a write leaves carries the credential's id and the
    event name of the payload, and its device, address, signature,
    browser and operating system are never NULL nor empty.  A device or an
    address supplied by the client is stored as it is; a timestamp supplied
    by the client is stored, the time of receipt otherwise. *)
Theorem written_row_filled
    (env : Env) (req : Request) (apiKeyId : string) (b : CollectBody) :
  let row := event_row env req apiKeyId b in
  e_api_key_id row = apiKeyId
  /\ e_event_name row = b_event b
  /\ (exists d ip ua br o,
        e_device row = Some d /\ d <> ""
        /\ e_ip_address row = Some ip /\ ip <> ""
        /\ e_user_agent row = Some ua /\ ua <> ""
        /\ e_browser row = Some br /\ br <> ""
        /\ e_os row = Some o /\ o <> "")
  /\ (forall d, b_device b = Some d -> d <> "" -> e_device row = Some d)
  /\ (forall ip, b_ipAddress b = Some ip -> ip <> "" ->
        e_ip_address row = Some ip)
  /\ e_timestamp row = match b_timestamp b with
                       | Some t => t
                       | None => now env
                       end.
Proof.
  intros row. subst row. unfold event_row. cbn -[parseUserAgent].
  set (ua := or_default (h_user_agent req) "unknown").
  split; [reflexivity|]. split; [reflexivity|]. split; [|split; [|split]].
  - do 5 eexists. repeat split.
    + destruct (EnrichmentProps.parse_ranges ua) as (_ & _ & Hd).
      destruct (AddressProps.or_default_cases (b_device b) (device (parseUserAgent ua)))
        as [(s & _ & Hs & ->) | [_ ->]]; [assumption|].
      exact (in_nonempty _ _ Hd eq_refl).
    + destruct (AddressProps.or_default_cases (b_ipAddress b) (extractIpAddress req))
        as [(s & _ & Hs & ->) | [_ ->]]; [assumption|].
      apply AddressProps.extract_nonempty.
    + apply or_default_nonempty. discriminate.
    + destruct (EnrichmentProps.parse_ranges ua) as (Hb & _ & _).
      exact (in_nonempty _ _ Hb eq_refl).
    + destruct (EnrichmentProps.parse_ranges ua) as (_ & Ho & _).
      exact (in_nonempty _ _ Ho eq_refl).
  - intros d Hd Hne. rewrite Hd. now rewrite or_default_given.
  - intros ip Hip Hne. rewrite Hip. now rewrite or_default_given.
  - now destruct (b_timestamp b).
Qed.

(** X13.  The metadata stored with an event is an object that always holds
    the signature under "userAgent" -- also when the client sent no
    metadata, and in place of a "userAgent" of the client's own -- and
    holds every other key as the client sent it; the screen size column is
    the client's "screenSize" entry. *)
Theorem written_metadata
    (env : Env) (req : Request) (apiKeyId : string) (b : CollectBody) :
  let row := event_row env req apiKeyId b in
  let sent := default [] (b_metadata b) in
  exists stored,
    e_metadata row = Some (JSON_stringify (JObj stored))
    /\ assoc_get "userAgent" stored
       = Some (JStr (or_default (h_user_agent req) "unknown"))
    /\ (forall k, k <> "userAgent" -> assoc_get k stored = assoc_get k sent)
    /\ e_screen_size row = assoc_get "screenSize" sent.
Proof.
  intros row sent. eexists. split; [reflexivity|]. split; [|split].
  - apply assoc_get_set_same.
  - intros k Hk. now apply assoc_get_set_other.
  - reflexivity.
Qed.

(** X14.  The handlers of the analytics controller never change or remove
    an event, a credential or an account: a write appends at most one event
    and touches nothing else in the store, and the two query handlers
    leave the store as it is. *)
Theorem events_append_only (env : Env) (w : World) (req : Request) :
  (forall a b,
      let w' := fst (collectEvent env w req a b) in
      users (db w') = users (db w)
      /\ api_keys (db w') = api_keys (db w)
      /\ (events (db w') = events (db w)
          \/ exists row, events (db w') = (events (db w) ++ [row])%list))
  /\ (forall q, db (fst (getEventSummary env w req q)) = db w)
  /\ (forall userId, db (fst (getUserStats env w req userId)) = db w).
Proof.
  split; [|split].
  - intros a b. unfold collectEvent. destruct (db_ok env); cbn.
    + repeat split. right. eexists. reflexivity.
    + repeat split. now left.
  - intros q. unfold getEventSummary.
    destruct (or_else _ None); [destruct (JSON_parse _); reflexivity|].
    destruct (db_ok env); [|reflexivity].
    destruct (summary_rows _ _ _); reflexivity.
  - intros userId. unfold getUserStats.
    destruct (or_else _ None); [destruct (JSON_parse _); reflexivity|].
    destruct (db_ok env); [|reflexivity].
    destruct (user_rows _ _ _); reflexivity.
Qed.

End Writer.

Import Reference.

Lemma collectEvent_invalidation_reach_witness :
  let key := "analytics:0b0b0b0b-0000-4000-8000-000000000002:recent" in
  let w := {| db := Demo.db0;
              redis := cacheSet (Demo.env_at 0 "") ∅ key "1" 300 |} in
  cacheGet (Demo.env_at 2 "") (redis w) key = Some "1"
  /\ cacheGet (Demo.env_at 2 "")
       (redis (fst (collectEvent (Demo.env_at 1 "e") w Demo.ingest Demo.cred
                      (Demo.click None)))) key = None.
Proof.
  intros key w. split; [vm_compute; reflexivity|].
  rewrite (collectEvent_invalidation_reach (Demo.env_at 1 "e")
             (Demo.env_at 2 "") w Demo.ingest Demo.cred (Demo.click None) key
             eq_refl eq_refl eq_refl).
  reflexivity.
Defined.

Lemma written_row_filled_witness :
  e_device (event_row (Demo.env_at 1 "e") Demo.ingest "k" (Demo.click None))
  = Some "mobile".
Proof.
  destruct (written_row_filled (Demo.env_at 1 "e") Demo.ingest "k"
              (Demo.click None)) as (_ & _ & _ & Hdev & _).
  apply (Hdev "mobile"); [reflexivity | discriminate].
Defined.

Lemma written_metadata_witness :
  exists stored,
    e_metadata (event_row (Demo.env_at 1 "e") Demo.ingest "k"
                  (Demo.click None))
    = Some (JSON_stringify (JObj stored))
    /\ assoc_get "userAgent" stored = Some (JStr "unknown").
Proof.
  destruct (written_metadata (Demo.env_at 1 "e") Demo.ingest "k"
              (Demo.click None)) as (stored & H1 & H2 & _).
  exists stored. split; [exact H1 | exact H2].
Defined.

End WriterProps.

(** ** The aggregation engine against reference computations *)

Module AggregationProps.
Import JsString Json Store Sql Auth Analytics SqlSpec AnalyticsSpec Scope.
Local Open Scope list_scope.

Lemma filter_unique_by {A K : Type} (key : A -> K) (p : A -> bool) (k : K) l :
  NoDup (List.map key l) -> (forall a, p a = true -> key a = k) ->
  (length (List.filter p l) <= 1)%nat.
Proof.
  intros Hnd Hp. induction l as [|a l IH]; [cbn; lia|].
  cbn in Hnd. apply NoDup_cons in Hnd as [Hnotin Hnd]. cbn.
  destruct (p a) eqn:Ha; [|auto].
  rewrite filter_none; [cbn; lia|].
  intros a' Hin. destruct (p a') eqn:Ha'; [|reflexivity].
  exfalso. apply Hnotin. rewrite (Hp _ Ha), <- (Hp _ Ha').
  apply list_elem_of_In, in_map. assumption.
Qed.

Lemma existsb_filter {A : Type} (f g : A -> bool) l :
  existsb (fun a => f a && g a) l = existsb g (List.filter f l).
Proof.
  induction l as [|a l IH]; [reflexivity|]. cbn.
  destruct (f a); cbn; now rewrite IH.
Qed.

(** With [id] a primary key, the pairs of the join that pass a condition
    are, event for event, the events that have a passing key row. *)
Lemma join_filter_events (aks : list ApiKeyRow)
    (p : EventRow -> ApiKeyRow -> bool) (evs : list EventRow) :
  NoDup (List.map ak_id aks) ->
  List.map fst
    (List.filter (fun x => p (fst x) (snd x)) (inner_join same_key evs aks))
  = List.filter (fun e => existsb (fun ak => same_key e ak && p e ak) aks) evs.
Proof.
  intros Hnd. induction evs as [|e evs IH]; [reflexivity|].
  change (inner_join same_key (e :: evs) aks)
    with (List.map (pair e) (List.filter (same_key e) aks)
          ++ inner_join same_key evs aks).
  rewrite List.filter_app, map_app, IH. cbn [List.filter].
  rewrite existsb_filter.
  assert (Hle : (length (List.filter (same_key e) aks) <= 1)%nat).
  { apply (filter_unique_by ak_id _ (e_api_key_id e)); [assumption|].
    intros a Ha. unfold same_key in Ha. apply String.eqb_eq in Ha. auto. }
  destruct (List.filter (same_key e) aks) as [|ak [|ak' m]];
    [reflexivity | | cbn in Hle; lia].
  cbn. rewrite orb_false_r. now destruct (p e ak).
Qed.

Section WithRuntime.
Context {RT : Runtime}.

Lemma summary_rows_events (d : Db) (q : SummaryQuery) (userId : option string) :
  NoDup (List.map ak_id (api_keys d)) ->
  List.map sr_event
    (List.filter (fun r => summary_where q userId (sr_event r) (sr_key r))
       (summary_from d))
  = summary_matches d q userId.
Proof.
  intros Hnd. unfold summary_matches.
  rewrite <- (join_filter_events (api_keys d) (summary_where q userId)
                (events d) Hnd).
  rewrite <- (summary_filter_base d (summary_where q userId)).
  now rewrite map_map.
Qed.

(** X15.  For any store in which credential ids are unique and any summary
    query that misses the cache, the answer is 200 and its counters are
    those of the plain filter over the event table: [count] is the number
    of events in the caller's scope that pass the query (name, inclusive
    date range, optional application), [uniqueUsers] and [uniqueIps] the
    numbers of distinct non-null end users and addresses among them.  The
    joins against the per-device, per-browser and per-system counts neither
    drop nor repeat an event. *)
Theorem summary_counts_reference
    (env : Env) (w : World) (req : Request) (q : SummaryQuery) :
  NoDup (List.map ak_id (api_keys (db w))) ->
  cacheGet env (redis w) (summary_cache_key q (user_id req)) = None ->
  db_ok env = true ->
  let matches := summary_matches (db w) q (user_id req) in
  exists data,
    snd (getEventSummary env w req q)
    = {| status := 200;
         body := JObj [("success", JBool true); ("data", data)] |}
    /\ jget "count" data = Some (JNum (Z.of_nat (length matches)))
    /\ jget "uniqueUsers" data
       = Some (JNum (Z.of_nat (length (remove_dups (omap e_user_id matches)))))
    /\ jget "uniqueIps" data
       = Some (JNum (Z.of_nat
                       (length (remove_dups (omap e_ip_address matches))))).
Proof.
  intros Hnd Hmiss Hdb matches.
  pose proof (summary_rows_events (db w) q (user_id req) Hnd) as Hrows.
  fold matches in Hrows.
  unfold getEventSummary. rewrite Hmiss, Hdb. cbn [or_else truthy].
  unfold summary_rows.
  set (rows := List.filter
                 (fun r => summary_where q (user_id req) (sr_event r) (sr_key r))
                 (summary_from (db w))) in *.
  destruct rows as [|r rows'] eqn:Erows.
  - cbn in Hrows. rewrite <- Hrows. cbn.
    exists (summary_zero (q_event q)). repeat split.
  - rewrite (group_by_constant _ (q_event q)).
    + cbn [List.map snd]. eexists. split; [reflexivity|].
      cbn [jget assoc_get summary_data String.eqb Ascii.eqb Bool.eqb].
      cbn [summary_aggregate r_count r_unique_users r_unique_ips snd fst].
      unfold count_distinct.
      rewrite <- (map_map sr_event e_user_id),
              <- (map_map sr_event e_ip_address), Hrows.
      rewrite !omap_id_map.
      rewrite <- Hrows at 1. rewrite length_map.
      repeat split.
    + discriminate.
    + intros r' Hr'. rewrite <- Erows in Hr'.
      apply List.filter_In in Hr' as [_ Hw]. unfold summary_where in Hw.
      rewrite !andb_true_iff in Hw. destruct Hw as [[[[Hname _] _] _] _].
      now apply String.eqb_eq.
Qed.

End WithRuntime.

(** *** User statistics *)

Lemma left_join_covers {A B : Type} (on : A -> B -> bool) l r a :
  In a l -> exists b, In (a, b) (left_join on l r).
Proof.
  intros Ha. unfold left_join.
  destruct (List.filter (on a) r) as [|b ms] eqn:E.
  - exists None. apply in_flat_map. exists a. split; [assumption|].
    rewrite E. now left.
  - exists (Some b). apply in_flat_map. exists a. split; [assumption|].
    rewrite E. now left.
Qed.

Lemma left_join_lateral_covers {A B : Type} (sub : A -> list B) l a :
  In a l -> exists b, In (a, b) (left_join_lateral sub l).
Proof.
  intros Ha. unfold left_join_lateral.
  destruct (sub a) as [|b ms] eqn:E.
  - exists None. apply in_flat_map. exists a. split; [assumption|].
    rewrite E. now left.
  - exists (Some b). apply in_flat_map. exists a. split; [assumption|].
    rewrite E. now left.
Qed.

Lemma distinct_count_ext {K : Type} `{EqDecision K} (l1 l2 : list K) :
  (forall x, In x l1 <-> In x l2) ->
  length (remove_dups l1) = length (remove_dups l2).
Proof.
  intros H. apply Permutation_length, NoDup_Permutation.
  - apply NoDup_remove_dups.
  - apply NoDup_remove_dups.
  - intros x. rewrite !elem_of_remove_dups, !list_elem_of_In. apply H.
Qed.

Lemma omap_id_some {A : Type} (l : list A) : omap id (List.map Some l) = l.
Proof. induction l as [|a l IH]; [reflexivity|]. cbn. now rewrite IH. Qed.

Lemma extreme_max (l : list Z) :
  l <> [] ->
  exists m, extreme Z.max l = Some m /\ In m l /\ forall x, In x l -> x <= m.
Proof.
  induction l as [|t l IH]; [contradiction|]. intros _.
  destruct l as [|t' l'].
  - exists t. cbn. repeat split; auto. intros x [<- | []]. lia.
  - destruct IH as (m & Hm & Hin & Hle); [discriminate|].
    change (extreme Z.max (t :: t' :: l'))
      with (Some (match extreme Z.max (t' :: l') with
                  | Some m => Z.max t m
                  | None => t
                  end)).
    rewrite Hm. exists (Z.max t m). split; [reflexivity|]. split.
    + destruct (Z.max_spec t m) as [[_ ->] | [_ ->]]; [now right | now left].
    + intros x [<- | Hx]; [lia|]. specialize (Hle x Hx). lia.
Qed.

Lemma extreme_min (l : list Z) :
  l <> [] ->
  exists m, extreme Z.min l = Some m /\ In m l /\ forall x, In x l -> m <= x.
Proof.
  induction l as [|t l IH]; [contradiction|]. intros _.
  destruct l as [|t' l'].
  - exists t. cbn. repeat split; auto. intros x [<- | []]. lia.
  - destruct IH as (m & Hm & Hin & Hle); [discriminate|].
    change (extreme Z.min (t :: t' :: l'))
      with (Some (match extreme Z.min (t' :: l') with
                  | Some m => Z.min t m
                  | None => t
                  end)).
    rewrite Hm. exists (Z.min t m). split; [reflexivity|]. split.
    + destruct (Z.min_spec t m) as [[_ ->] | [_ ->]]; [now left | now right].
    + intros x [<- | Hx]; [lia|]. specialize (Hle x Hx). lia.
Qed.

Section UserStats.
Context {RT : Runtime}.

Lemma user_matches_in d userId auth e :
  In e (user_matches d userId auth) <->
  In e (events d)
  /\ exists ak, In ak (api_keys d) /\ e_api_key_id e = ak_id ak
                /\ user_where userId auth e ak = true.
Proof.
  unfold user_matches. rewrite List.filter_In, existsb_exists.
  split; intros [He [ak [Hak H]]]; (split; [assumption|]); exists ak.
  - apply andb_true_iff in H as [Hk Hw]. apply String.eqb_eq in Hk. auto.
  - destruct H as [Hk Hw]. split; [assumption|].
    apply andb_true_iff. split; [now apply String.eqb_eq | assumption].
Qed.

(** The rows the query aggregates show the matching events, each at least
    once, and no other. *)
Lemma user_rows_cover d userId auth :
  forall e,
    In e (List.map ur_event (List.filter (user_pass userId auth) (user_from d)))
    <-> In e (user_matches d userId auth).
Proof.
  intros e. rewrite user_matches_in, in_map_iff. split.
  - intros [r [<- Hr]]. apply List.filter_In in Hr as [Hin Hp].
    apply user_from_in in Hin as (He & Hak & Hid).
    split; [assumption|]. exists (ur_key r). auto.
  - intros [He [ak (Hak & Hid & Hw)]].
    assert (Hj : In (e, ak) (inner_join same_key (events d) (api_keys d))).
    { apply in_inner_join. repeat split; auto.
      unfold same_key. now apply String.eqb_eq. }
    destruct (left_join_covers on_user_device _ (user_device_counts d) _ Hj)
      as [c Hc].
    destruct (left_join_lateral_covers
                (fun x => recent_of d (fst (fst x))) _ _ Hc) as [rc Hrc].
    exists (e, ak, c, rc). split; [reflexivity|].
    apply List.filter_In. split; [exact Hrc | exact Hw].
Qed.

Lemma user_rows_single d userId auth :
  user_matches d userId auth <> [] ->
  user_rows d userId auth
  = [user_aggregate
       (Some userId, List.filter (user_pass userId auth) (user_from d))].
Proof.
  intros Hne. unfold user_rows.
  change (fun r => user_where userId auth (ur_event r) (ur_key r))
    with (user_pass userId auth).
  rewrite (group_by_constant _ (Some userId)); [reflexivity| |].
  - intros Hnil. apply Hne.
    destruct (user_matches d userId auth) as [|e m] eqn:E; [reflexivity|].
    exfalso. assert (Hin : In e (user_matches d userId auth))
      by (rewrite E; now left).
    apply user_rows_cover in Hin. rewrite Hnil in Hin. exact Hin.
  - intros r Hr. apply List.filter_In in Hr as [_ Hp].
    unfold user_pass, user_where in Hp. apply andb_true_iff in Hp as [Hu _].
    now apply sql_eq_true in Hu.
Qed.

(** X16.  When a user-statistics query misses the cache and matches at
    least one event, the answer is 200 and, whatever the repetition of
    rows in the joins, [uniqueEvents] is the number of distinct event names
    among the matching events, and [firstEventAt] and [lastEventAt] are
    the earliest and the latest of their timestamps. *)
Theorem user_stats_distinct_fields
    (env : Env) (w : World) (req : Request) (userId : string) :
  cacheGet env (redis w) (user_cache_key userId (user_id req)) = None ->
  db_ok env = true ->
  let matches := user_matches (db w) userId (user_id req) in
  matches <> [] ->
  exists data first last,
    snd (getUserStats env w req userId)
    = {| status := 200;
         body := JObj [("success", JBool true); ("data", data)] |}
    /\ jget "userId" data = Some (JStr userId)
    /\ jget "uniqueEvents" data
       = Some (JNum (Z.of_nat
                       (length (remove_dups (List.map e_event_name matches)))))
    /\ jget "firstEventAt" data = Some (JDate first)
    /\ jget "lastEventAt" data = Some (JDate last)
    /\ In first (List.map e_timestamp matches)
    /\ In last (List.map e_timestamp matches)
    /\ forall e, In e matches -> first <= e_timestamp e <= last.
Proof.
  intros Hmiss Hdb matches Hne.
  unfold getUserStats. rewrite Hmiss, Hdb. cbn [or_else truthy].
  rewrite (user_rows_single _ _ _ Hne).
  set (rows := List.filter (user_pass userId (user_id req))
                 (user_from (db w))).
  pose proof (user_rows_cover (db w) userId (user_id req)) as Hcover.
  fold rows matches in Hcover.
  assert (Hts : forall t, In t (List.map (fun r => e_timestamp (ur_event r)) rows)
                          <-> In t (List.map e_timestamp matches)).
  { intros t. rewrite <- (map_map ur_event e_timestamp), !in_map_iff.
    split; intros [e [<- He]]; exists e; (split; [reflexivity|]);
      now apply Hcover. }
  assert (Hrows : List.map (fun r => e_timestamp (ur_event r)) rows <> []).
  { destruct matches as [|e m] eqn:E; [contradiction|].
    assert (Hin : In (e_timestamp e) (List.map e_timestamp (e :: m)))
      by now left.
    apply Hts in Hin. intros Hnil. rewrite Hnil in Hin. exact Hin. }
  destruct (extreme_max _ Hrows) as (last & Hlast & Hlin & Hlmax).
  destruct (extreme_min _ Hrows) as (first & Hfirst & Hfin & Hfmin).
  eexists. exists first, last. split; [reflexivity|].
  cbn [jget assoc_get user_data String.eqb Ascii.eqb Bool.eqb].
  cbn [user_aggregate s_user_id s_unique_events s_last_event_at
       s_first_event_at snd fst json_of_string].
  rewrite Hlast, Hfirst. cbn [json_of_date].
  split; [reflexivity|]. split.
  - do 3 f_equal. unfold count_distinct.
    rewrite <- (map_map (fun r => e_event_name (ur_event r)) Some).
    rewrite omap_id_some. apply distinct_count_ext.
    intros n. rewrite <- (map_map ur_event e_event_name), !in_map_iff.
    split; intros [e [<- He]]; exists e; (split; [reflexivity|]);
      now apply Hcover.
  - split; [reflexivity|]. split; [reflexivity|].
    split; [now apply Hts|]. split; [now apply Hts|].
    intros e He.
    assert (Hin : In (e_timestamp e)
                     (List.map (fun r => e_timestamp (ur_event r)) rows)).
    { apply Hts. now apply in_map. }
    split; [now apply Hfmin | now apply Hlmax].
Qed.

(** *** The repetition of rows in the lateral join *)

Lemma lateral_filter_length {A B : Type} (sub : A -> list B) (p : A -> bool) l :
  length (List.filter (fun r => p (fst r)) (left_join_lateral sub l))
  = sum_nat (List.map (fun a => Nat.max 1 (length (sub a))) (List.filter p l)).
Proof.
  unfold left_join_lateral. induction l as [|a l IH]; [reflexivity|].
  cbn [flat_map List.filter]. rewrite List.filter_app, length_app, IH.
  destruct (p a) eqn:Hp.
  - cbn [List.map sum_nat fold_right]. f_equal.
    destruct (sub a) as [|b ms].
    + cbn. now rewrite Hp.
    + rewrite filter_all.
      * cbn [List.map length]. rewrite length_map. lia.
      * intros x [<- | Hx]; [exact Hp|].
        apply in_map_iff in Hx as [y [<- _]]. exact Hp.
  - rewrite filter_none; [reflexivity|].
    intros x Hx. destruct (sub a) as [|b ms].
    + destruct Hx as [<- | []]. exact Hp.
    + destruct Hx as [<- | Hx]; [exact Hp|].
      apply in_map_iff in Hx as [y [<- _]]. exact Hp.
Qed.

Lemma map_filter_through {A B C : Type} (f : B -> C) (p : B -> bool)
    (g : A -> B) l :
  List.map (fun x => f (g x)) (List.filter (fun x => p (g x)) l)
  = List.map f (List.filter p (List.map g l)).
Proof. now rewrite filter_map_comm, map_map. Qed.

Lemma lateral_none {A B : Type} (sub : A -> list B) l r :
  In r (left_join_lateral sub l) -> snd r = None -> sub (fst r) = [].
Proof.
  unfold left_join_lateral. rewrite in_flat_map. intros [a [_ Hin]] Hnone.
  destruct (sub a) as [|b ms] eqn:E.
  - destruct Hin as [<- | []]. exact E.
  - apply in_map_iff in Hin as [y [<- _]]. discriminate.
Qed.

Lemma omap_length_all {A B : Type} (f : A -> option B) l :
  (forall a, In a l -> f a <> None) -> length (omap f l) = length l.
Proof.
  induction l as [|a l IH]; intros H; [reflexivity|]. cbn.
  destruct (f a) eqn:E.
  - cbn. f_equal. apply IH. intros; apply H; now right.
  - exfalso. apply (H a); [now left | exact E].
Qed.

Lemma insert_desc_length {A : Type} (ts : A -> Z) x l :
  length (insert_desc ts x l) = S (length l).
Proof.
  induction l as [|y l IH]; [reflexivity|]. cbn.
  destruct (ts y <=? ts x); cbn; [reflexivity | now rewrite IH].
Qed.

Lemma order_desc_length {A : Type} (ts : A -> Z) l :
  length (order_desc ts l) = length l.
Proof.
  induction l as [|x l IH]; [reflexivity|].
  change (order_desc ts (x :: l)) with (insert_desc ts x (order_desc ts l)).
  now rewrite insert_desc_length, IH.
Qed.

Lemma user_device_join_keeps_rows (d : Db) (l : list (EventRow * ApiKeyRow)) :
  List.map fst (left_join on_user_device l (user_device_counts d)) = l.
Proof.
  apply left_join_unique. intros a _.
  apply (filter_distinct_keys _
           (e_api_key_id (fst a), e_user_id (fst a), e_device (fst a))).
  - apply group_count_keys.
  - intros [[[k1 k2] k3] n]. unfold on_user_device. cbn.
    rewrite !andb_true_iff, String.eqb_eq. intros [[-> H2] H3].
    apply sql_eq_true in H2, H3. now rewrite H2, H3.
Qed.

Lemma recent_of_length (d : Db) (e : EventRow) :
  length (recent_of d e) = Nat.min 10 (same_visitor_count d e).
Proof.
  unfold recent_of, same_visitor_count.
  now rewrite length_map, length_firstn, order_desc_length.
Qed.

Lemma matched_visitor_counted d userId auth e :
  In e (user_matches d userId auth) -> (1 <= same_visitor_count d e)%nat.
Proof.
  intros Hin. apply user_matches_in in Hin as [He [ak (_ & _ & Hw)]].
  unfold user_where in Hw. apply andb_true_iff in Hw as [Hu _].
  apply sql_eq_true in Hu. unfold same_visitor_count.
  assert (Hin : In e (List.filter
                        (fun x => sql_eq (e_user_id x) (e_user_id e)
                                  && String.eqb (e_api_key_id x) (e_api_key_id e))
                        (events d))).
  { apply List.filter_In. split; [assumption|].
    rewrite Hu. cbn. now rewrite !String.eqb_refl. }
  destruct (List.filter _ (events d)); [contradiction | cbn; lia].
Qed.

(** X17.  What [totalEvents] counts.  When a user-statistics query misses
    the cache and matches at least one event (credential ids being
    unique), the lateral join repeats each matching event once per recent
    event of the same end user and credential, at most ten: [totalEvents]
    is the sum, over the matching events, of the smaller of 10 and the
    number of events of that end user under that credential, and
    [recentEvents] lists as many entries. *)
Theorem user_stats_total_events
    (env : Env) (w : World) (req : Request) (userId : string) :
  NoDup (List.map ak_id (api_keys (db w))) ->
  cacheGet env (redis w) (user_cache_key userId (user_id req)) = None ->
  db_ok env = true ->
  let matches := user_matches (db w) userId (user_id req) in
  let total :=
    sum_nat (List.map (fun e => Nat.min 10 (same_visitor_count (db w) e))
                      matches) in
  matches <> [] ->
  exists data recent,
    snd (getUserStats env w req userId)
    = {| status := 200;
         body := JObj [("success", JBool true); ("data", data)] |}
    /\ jget "totalEvents" data = Some (JNum (Z.of_nat total))
    /\ jget "recentEvents" data = Some (JArr recent)
    /\ length recent = total.
Proof.
  intros Hnd Hmiss Hdb matches total Hne.
  unfold getUserStats. rewrite Hmiss, Hdb. cbn [or_else truthy].
  rewrite (user_rows_single _ _ _ Hne).
  set (rows := List.filter (user_pass userId (user_id req))
                 (user_from (db w))).
  assert (Hlen : length rows = total).
  { subst rows total.
    set (joined := inner_join same_key (events (db w)) (api_keys (db w))).
    set (L := left_join on_user_device joined (user_device_counts (db w))).
    set (H := fun e : EventRow =>
                Nat.max 1 (length (recent_of (db w) e))).
    set (P1 := fun a : EventRow * ApiKeyRow =>
                 user_where userId (user_id req) (fst a) (snd a)).
    transitivity
      (sum_nat (List.map (fun x => H (fst (fst x)))
                  (List.filter (fun x => P1 (fst x)) L))).
    { exact (lateral_filter_length
               (fun x => recent_of (db w) (fst (fst x)))
               (fun x => P1 (fst x)) L). }
    rewrite (map_filter_through (fun a => H (fst a)) P1 fst L).
    subst L. rewrite user_device_join_keeps_rows.
    rewrite <- (map_map fst H).
    subst joined P1.
    rewrite (join_filter_events (api_keys (db w))
               (user_where userId (user_id req)) (events (db w)) Hnd).
    fold (user_matches (db w) userId (user_id req)). fold matches.
    f_equal. apply map_ext_in. intros e He. subst H. cbn beta.
    rewrite recent_of_length.
    pose proof (matched_visitor_counted _ _ _ _ He). lia. }
  assert (Hrecent : length (omap ur_recent rows) = length rows).
  { apply omap_length_all. intros r Hr Hnone.
    apply List.filter_In in Hr as [Hin Hp].
    pose proof (lateral_none _ _ _ Hin Hnone) as Hsub. cbn beta in Hsub.
    assert (Hm : In (ur_event r) matches).
    { apply user_rows_cover. apply in_map. apply List.filter_In. auto. }
    pose proof (matched_visitor_counted _ _ _ _ Hm) as Hc.
    pose proof (recent_of_length (db w) (ur_event r)) as Hl.
    unfold ur_event in Hl, Hc. rewrite Hsub in Hl.
    change (length (@nil Recent)) with 0%nat in Hl. lia. }
  eexists. eexists. split; [reflexivity|].
  cbn [jget assoc_get user_data String.eqb Ascii.eqb Bool.eqb].
  cbn [user_aggregate s_total_events s_recent_events snd fst].
  split; [now rewrite Hlen|]. split; [reflexivity|].
  assert (Hx : length (List.map recent_json
                         (order_desc rc_timestamp (omap ur_recent rows)))
               = total).
  { now rewrite length_map, order_desc_length, Hrecent. }
  destruct (List.map recent_json
              (order_desc rc_timestamp (omap ur_recent rows))); exact Hx.
Qed.

End UserStats.

Import Reference.

Lemma user_stats_total_events_witness :
  exists data,
    snd Demo.stats4
    = {| status := 200;
         body := JObj [("success", JBool true); ("data", data)] |}
    /\ jget "totalEvents" data = Some (JNum 16).
Proof.
  destruct (user_stats_total_events (Demo.env_at 9000 "") Demo.w4
              Demo.session "visitor-1")
    as (data & recent & H1 & H2 & _).
  - apply (bool_decide_unpack _). vm_compute. exact I.
  - vm_compute. reflexivity.
  - reflexivity.
  - vm_compute. discriminate.
  - exists data. split; [exact H1 | exact H2].
Defined.

Lemma user_stats_distinct_fields_witness :
  exists data,
    snd Demo.stats4
    = {| status := 200;
         body := JObj [("success", JBool true); ("data", data)] |}
    /\ jget "uniqueEvents" data = Some (JNum 1)
    /\ jget "firstEventAt" data = Some (JDate 1000)
    /\ jget "lastEventAt" data = Some (JDate 4000).
Proof.
  destruct (user_stats_distinct_fields (Demo.env_at 9000 "") Demo.w4
              Demo.session "visitor-1")
    as (data & first & last & H1 & _ & H2 & _).
  - vm_compute. reflexivity.
  - reflexivity.
  - vm_compute. discriminate.
  - exists data. split; [exact H1|]. split; [exact H2|].
    unfold Demo.stats4 in *. vm_compute in H1.
    injection H1 as <-. split; reflexivity.
Defined.

Lemma summary_counts_reference_witness :
  exists data,
    snd (getEventSummary (Demo.env_at 9000 "")
           {| db := db Demo.w4; redis := ∅ |} Demo.session Demo.clicks)
    = {| status := 200;
         body := JObj [("success", JBool true); ("data", data)] |}
    /\ jget "count" data = Some (JNum 4).
Proof.
  destruct (summary_counts_reference (Demo.env_at 9000 "")
              {| db := db Demo.w4; redis := ∅ |} Demo.session Demo.clicks)
    as (data & H1 & H2 & _).
  - apply (bool_decide_unpack _). vm_compute. exact I.
  - reflexivity.
  - reflexivity.
  - exists data. split; [exact H1 | exact H2].
Defined.

End AggregationProps.

(** ** Generated secrets *)

Module ApiKeyProps.
Import Json ApiKey Notions.

Lemma toHex_cons b rest :
  toHex (b :: rest)
  = String (hex_digit (Byte.to_N b / 16))
      (String (hex_digit (Byte.to_N b mod 16)) (toHex rest)).
Proof. reflexivity. Qed.

Lemma hex_of_byte_chars b :
  is_key_char (hex_digit (Byte.to_N b / 16)) = true
  /\ is_key_char (hex_digit (Byte.to_N b mod 16)) = true.
Proof. destruct b; split; reflexivity. Qed.

Lemma unhex_hex b :
  unhex_byte (hex_digit (Byte.to_N b / 16)) (hex_digit (Byte.to_N b mod 16))
  = Some b.
Proof. destruct b; reflexivity. Qed.

Lemma toHex_length bytes : String.length (toHex bytes) = (2 * length bytes)%nat.
Proof.
  induction bytes as [|b rest IH]; [reflexivity|].
  rewrite toHex_cons. cbn [String.length length]. rewrite IH. lia.
Qed.

Lemma toHex_chars bytes : all_key_chars (toHex bytes) = true.
Proof.
  induction bytes as [|b rest IH]; [reflexivity|].
  rewrite toHex_cons. cbn [all_key_chars].
  destruct (hex_of_byte_chars b) as [-> ->]. exact IH.
Qed.

(** X18.  A generated key has two characters per random byte, all of them
    lower-case hexadecimal digits; it has the format
    [isValidApiKeyFormat] accepts exactly when 32 bytes were asked for,
    the default. *)
Theorem generated_key_format (randomBytes : nat -> list Byte.byte) (n : nat) :
  length (randomBytes n) = n ->
  String.length (generateApiKey randomBytes n) = (2 * n)%nat
  /\ all_key_chars (generateApiKey randomBytes n) = true
  /\ isValidApiKeyFormat (generateApiKey randomBytes n) = (n =? 32)%nat.
Proof.
  intros Hn. unfold generateApiKey, isValidApiKeyFormat.
  rewrite toHex_length, toHex_chars, Hn, andb_true_r.
  repeat split.
  destruct (Nat.eqb_spec (2 * n) 64), (Nat.eqb_spec n 32);
    try reflexivity; lia.
Qed.

Lemma generated_key_format_witness :
  isValidApiKeyFormat
    (generateApiKey (fun n => repeat Byte.xa7 n) 32) = true.
Proof.
  apply (generated_key_format (fun n => repeat Byte.xa7 n) 32).
  apply repeat_length.
Defined.

(** X19.  Key generation loses nothing of the randomness it is given: two
    keys are equal only when they were made from the same bytes. *)
Theorem generated_key_injective
    (randomBytes1 randomBytes2 : nat -> list Byte.byte) (n m : nat) :
  generateApiKey randomBytes1 n = generateApiKey randomBytes2 m ->
  randomBytes1 n = randomBytes2 m.
Proof.
  unfold generateApiKey.
  generalize (randomBytes1 n) as a, (randomBytes2 m) as b.
  induction a as [|x a IH]; intros [|y b] H.
  - reflexivity.
  - rewrite toHex_cons in H. discriminate.
  - rewrite toHex_cons in H. discriminate.
  - rewrite !toHex_cons in H. injection H as H1 H2 H3.
    pose proof (unhex_hex x) as Hx. rewrite H1, H2, unhex_hex in Hx.
    injection Hx as ->. f_equal. now apply IH.
Qed.

Lemma generated_key_injective_witness :
  (fun _ : nat => [Byte.x01; Byte.xff]) 2%nat
  = (fun _ : nat => [Byte.x01; Byte.xff]) 2%nat.
Proof.
  apply (generated_key_injective
           (fun _ => [Byte.x01; Byte.xff]) (fun _ => [Byte.x01; Byte.xff])
           2 2).
  reflexivity.
Defined.

End ApiKeyProps.

(** ** Key management *)

Module KeyManagementProps.
Import JsString Json Store Sql Auth ApiKey KeyManagement Scope.
Local Open Scope list_scope.

Lemma existsb_none {A : Type} (p : A -> bool) l :
  existsb p l = false -> forall x, In x l -> p x = false.
Proof.
  intros H x Hin. destruct (p x) eqn:E; [|reflexivity].
  assert (existsb p l = true) by (apply existsb_exists; eauto). congruence.
Qed.

Lemma NoDup_map_snoc {A K : Type} (f : A -> K) l x :
  NoDup (List.map f l) -> (forall y, In y l -> f y <> f x) ->
  NoDup (List.map f (l ++ [x])).
Proof.
  intros Hnd Hx. rewrite map_app. cbn.
  apply NoDup_app. split; [assumption|]. split.
  - intros k Hk Hin. apply list_elem_of_In in Hin.
    destruct Hin as [<- | []].
    apply list_elem_of_In, in_map_iff in Hk as [y [Hy Hin]].
    exact (Hx y Hin Hy).
  - apply NoDup_singleton.
Qed.

Lemma NoDup_map_injective {A K : Type} (f : A -> K) l x y :
  NoDup (List.map f l) -> In x l -> In y l -> f x = f y -> x = y.
Proof.
  induction l as [|a l IH]; [contradiction|]. cbn. intros Hnd Hx Hy Heq.
  apply NoDup_cons in Hnd as [Hnotin Hnd].
  destruct Hx as [-> | Hx], Hy as [-> | Hy]; auto.
  - exfalso. apply Hnotin. rewrite Heq. apply list_elem_of_In, in_map. auto.
  - exfalso. apply Hnotin. rewrite <- Heq. apply list_elem_of_In, in_map. auto.
Qed.

Lemma update_where_map {K : Type} (f : ApiKeyRow -> K) cond set l :
  (forall ak, f (set ak) = f ak) ->
  List.map f (update_where cond set l) = List.map f l.
Proof.
  intros H. unfold update_where. rewrite map_map. apply map_ext.
  intros ak. now destruct (cond ak).
Qed.

Lemma update_where_in cond set l ak' :
  In ak' (update_where cond set l) ->
  exists ak, In ak l
             /\ ((cond ak = true /\ ak' = set ak)
                 \/ (cond ak = false /\ ak' = ak)).
Proof.
  unfold update_where. rewrite in_map_iff. intros [ak [<- Hin]].
  exists ak. split; [assumption|]. destruct (cond ak); auto.
Qed.

Lemma owners_exist_same (d d' : Db) :
  users d' = users d ->
  List.map ak_user_id (api_keys d') = List.map ak_user_id (api_keys d) ->
  owners_exist d -> owners_exist d'.
Proof.
  intros Hu Hk H ak Hin. rewrite Hu.
  assert (Hid : In (ak_user_id ak) (List.map ak_user_id (api_keys d)))
    by (rewrite <- Hk; now apply in_map).
  apply in_map_iff in Hid as [ak0 [Heq Hin0]].
  destruct (H ak0 Hin0) as [u [Hin' Hid']]. exists u. split; congruence.
Qed.

(** Setting a fresh value of a unique column in the one matching row
    keeps the column unique. *)
Lemma NoDup_update_one (key : ApiKeyRow -> string) cond set fresh l :
  NoDup (List.map key l) ->
  (forall ak, cond ak = true -> key (set ak) = fresh) ->
  (forall ak, In ak l -> cond ak = false -> key ak <> fresh) ->
  (length (List.filter cond l) <= 1)%nat ->
  NoDup (List.map key (update_where cond set l)).
Proof.
  intros Hnd Hset. induction l as [|a l IH]; intros Hfresh Hone;
    [constructor|].
  cbn in Hnd. apply NoDup_cons in Hnd as [Hnotin Hnd].
  cbn [update_where List.map List.filter] in *.
  destruct (cond a) eqn:Ha.
  - cbn [length] in Hone.
    assert (Hnone : forall x, In x l -> cond x = false).
    { intros x Hx. destruct (cond x) eqn:Ex; [|reflexivity].
      assert (Hin : In x (List.filter cond l))
        by (apply List.filter_In; auto).
      destruct (List.filter cond l); [contradiction | cbn in Hone; lia]. }
    replace (List.map (fun ak => if cond ak then set ak else ak) l) with l.
    + apply NoDup_cons. split; [|assumption].
      rewrite (Hset a Ha). intros Hin.
      apply list_elem_of_In, in_map_iff in Hin as [x [Hx Hin]].
      apply (Hfresh x); [now right | now apply Hnone | exact Hx].
    + symmetry. rewrite <- (map_id l) at 2. apply map_ext_in.
      intros x Hx. now rewrite (Hnone x Hx).
  - apply NoDup_cons. split.
    + intros Hin. apply list_elem_of_In, in_map_iff in Hin as [x' [Hx' Hin]].
      apply in_map_iff in Hin as [x [<- Hx]].
      destruct (cond x) eqn:Ex.
      * rewrite (Hset x Ex) in Hx'.
        apply (Hfresh a); [now left | exact Ha | now symmetry].
      * apply Hnotin. rewrite <- Hx'. apply list_elem_of_In, in_map. auto.
    + apply IH; [assumption | | assumption].
      intros ak Hin Hc. apply Hfresh; [now right | assumption].
Qed.

Lemma toHex_32_length (randomBytes : nat -> list Byte.byte) :
  length (randomBytes 32%nat) = 32%nat ->
  String.length (generateApiKey randomBytes 32) = 64%nat.
Proof.
  intros H. unfold generateApiKey.
  rewrite ApiKeyProps.toHex_length, H. reflexivity.
Qed.

Section Keys.
Context {C : Calendar} {PG : Postgres}.

Lemma keys_ok_update (d : Db) cond set :
  (forall ak, ak_id (set ak) = ak_id ak) ->
  (forall ak, ak_api_key (set ak) = ak_api_key ak) ->
  (forall ak, ak_user_id (set ak) = ak_user_id ak) ->
  keys_ok d ->
  keys_ok (with_api_keys d (update_where cond set (api_keys d))).
Proof.
  intros Hid Hkey Hown (Hi & Hs & Ho). unfold keys_ok. cbn [api_keys with_api_keys].
  rewrite !update_where_map by assumption. repeat split; try assumption.
  apply (owners_exist_same d); [reflexivity | | assumption].
  cbn [api_keys with_api_keys]. now apply update_where_map.
Qed.

Lemma insert_api_key_checks (d d' : Db) (row : ApiKeyRow) :
  insert_api_key d row = Some d' ->
  d' = {| users := users d; api_keys := api_keys d ++ [row];
          events := events d |}
  /\ (forall ak, In ak (api_keys d) -> ak_id ak <> ak_id row)
  /\ (forall ak, In ak (api_keys d) -> ak_api_key ak <> ak_api_key row)
  /\ (exists u, In u (users d) /\ u_id u = ak_user_id row).
Proof.
  unfold insert_api_key.
  match goal with
  | |- (if ?c then _ else _) = _ -> _ => destruct c eqn:Hc
  end; [discriminate|].
  intros H. injection H as <-.
  rewrite !orb_false_iff in Hc.
  destruct Hc as [[[[[Hid Hkey] Hu] _] _] _].
  split; [reflexivity|]. split; [|split].
  - intros ak Hin. apply String.eqb_neq.
    exact (existsb_none _ _ Hid ak Hin).
  - intros ak Hin. apply String.eqb_neq.
    exact (existsb_none _ _ Hkey ak Hin).
  - apply negb_false_iff, existsb_exists in Hu as [u [Hin Hu]].
    apply String.eqb_eq in Hu. eauto.
Qed.

(** X20.  Registering, revoking and regenerating a key, and the usage
    stamp of the validator, keep what the schema promises of the key
    table: ids stay pairwise distinct, secrets stay pairwise distinct, and
    every key still names an existing account. *)
Theorem key_table_constraints_kept
    (env : Env) (randomBytes : nat -> list Byte.byte) (days : Z)
    (w : World) (req : Request) (body : RegisterBody) (id : string) :
  keys_ok (db w) ->
  keys_ok (fst (registerApp env randomBytes days (db w) req body))
  /\ keys_ok (db (fst (revokeApiKey env w req id)))
  /\ keys_ok (db (fst (regenerateApiKey env randomBytes days w req id)))
  /\ keys_ok (fst (validateApiKey env (db w) req)).
Proof.
  intros Hok. split; [|split; [|split]].
  - unfold registerApp. destruct (user_id req) as [u|]; [|exact Hok].
    destruct (db_ok env); [|exact Hok].
    match goal with
    | |- context [insert_api_key ?d ?row] =>
        destruct (insert_api_key d row) as [d'|] eqn:E; [|exact Hok];
        apply insert_api_key_checks in E
          as (-> & Hid & Hkey & (usr & Hin & Husr))
    end.
    cbn [fst]. destruct Hok as (Hi & Hs & Ho). unfold keys_ok.
    cbn [api_keys users]. repeat split.
    + now apply NoDup_map_snoc.
    + now apply NoDup_map_snoc.
    + intros ak Hak. cbn [api_keys users] in *.
      apply in_app_iff in Hak as [Hak | [<- | []]]; [now apply Ho|].
      exists usr. auto.
  - unfold revokeApiKey.
    destruct (user_id req) as [u|]; [|exact Hok].
    destruct (pg_uuid id) as [uuid|]; [|exact Hok].
    destruct (db_ok env); [|exact Hok].
    destruct (List.filter _ _); [exact Hok|]. cbn [fst db].
    now apply keys_ok_update.
  - unfold regenerateApiKey.
    destruct (user_id req) as [u|]; [|exact Hok].
    destruct (pg_uuid id) as [uuid|]; [|exact Hok].
    destruct (db_ok env); [|exact Hok].
    destruct (List.filter (owned_by uuid u) (api_keys (db w)))
      as [|ak more] eqn:Ef; [exact Hok|].
    match goal with
    | |- context [if ?c then _ else _] => destruct c eqn:Hc
    end; [exact Hok|].
    cbn [fst db]. rewrite !orb_false_iff in Hc.
    destruct Hc as [[Hother Hmore] _].
    destruct Hok as (Hi & Hs & Ho). unfold keys_ok.
    cbn [api_keys with_api_keys]. split; [|split].
    + now rewrite update_where_map.
    + apply (NoDup_update_one ak_api_key _ _
               (generateApiKey randomBytes 32)); [assumption|reflexivity| |].
      * intros x Hx Hc. apply String.eqb_neq.
        pose proof (existsb_none _ _ Hother x Hx) as Hn. cbn beta in Hn.
        now rewrite Hc in Hn.
      * rewrite Ef. destruct more; [cbn; lia | discriminate].
    + apply (owners_exist_same (db w)); [reflexivity | | assumption].
      cbn [api_keys with_api_keys]. now apply update_where_map.
  - unfold validateApiKey.
    destruct (or_else (h_x_api_key req) None); [|exact Hok].
    destruct (db_ok env); [|exact Hok].
    destruct (select_api_key _ _ _) as [|a rows]; [exact Hok|]. cbn [fst].
    unfold touch_last_used.
    match goal with
    | |- keys_ok {| users := _;
                    api_keys := List.map ?f (api_keys (db w));
                    events := _ |} =>
        change (keys_ok
                  (with_api_keys (db w)
                     (update_where
                        (fun ak => String.eqb (ak_id ak) (ak_id (key_row a)))
                        (fun ak =>
                           {| ak_id := ak_id ak; ak_user_id := ak_user_id ak;
                              ak_app_name := ak_app_name ak;
                              ak_app_domain := ak_app_domain ak;
                              ak_api_key := ak_api_key ak;
                              ak_is_active := ak_is_active ak;
                              ak_expires_at := ak_expires_at ak;
                              ak_created_at := ak_created_at ak;
                              ak_revoked_at := ak_revoked_at ak;
                              ak_last_used_at := Some (now env) |})
                        (api_keys (db w)))))
    end.
    now apply keys_ok_update.
Qed.

Lemma owned_by_self (ak : ApiKeyRow) :
  owned_by (ak_id ak) (ak_user_id ak) ak = true.
Proof. unfold owned_by. now rewrite !String.eqb_refl. Qed.

Lemma owned_found (aks : list ApiKeyRow) (ak : ApiKeyRow) :
  In ak aks ->
  exists first more,
    List.filter (owned_by (ak_id ak) (ak_user_id ak)) aks = first :: more.
Proof.
  intros Hin.
  assert (H : In ak (List.filter (owned_by (ak_id ak) (ak_user_id ak)) aks))
    by (apply List.filter_In; split; [assumption | apply owned_by_self]).
  destruct (List.filter _ aks) as [|first more]; [contradiction|]. eauto.
Qed.

(** Whatever the validator answers to a secret that no valid row of the
    table carries, it is a 401. *)
Lemma no_valid_row_401 (env : Env) (d : Db) (req : Request) :
  db_ok env = true ->
  (forall apiKey ak, h_x_api_key req = Some apiKey -> In ak (api_keys d) ->
                     key_is_valid (now env) apiKey ak = false) ->
  exists r, snd (validateApiKey env d req) = Respond r /\ status r = 401.
Proof.
  intros Hdb Hnone. unfold validateApiKey, or_else.
  destruct (truthy (h_x_api_key req)) eqn:Ht; [|eexists; split; reflexivity].
  destruct (h_x_api_key req) as [apiKey|] eqn:Hk; [|discriminate].
  rewrite Hdb.
  destruct (select_api_key d (now env) apiKey) as [|a rows] eqn:Hsel;
    [eexists; split; reflexivity|].
  exfalso.
  assert (Hin : In a (select_api_key d (now env) apiKey))
    by (rewrite Hsel; now left).
  apply AuthSpec.in_select_api_key in Hin as (Hak & _ & V).
  rewrite (Hnone apiKey (key_row a) eq_refl Hak) in V. discriminate.
Qed.

(** X21.  Revocation takes effect at once: when the owner revokes one of
    the keys of the table, the answer is 200, and from then on the
    validator answers 401 to the key's secret (secrets being unique). *)
Theorem revoked_key_rejected
    (env : Env) (w : World) (req : Request) (id : string) (ak : ApiKeyRow) :
  NoDup (List.map ak_api_key (api_keys (db w))) ->
  In ak (api_keys (db w)) ->
  user_id req = Some (ak_user_id ak) -> pg_uuid id = Some (ak_id ak) ->
  db_ok env = true ->
  status (snd (revokeApiKey env w req id)) = 200
  /\ forall env' req',
       db_ok env' = true -> h_x_api_key req' = Some (ak_api_key ak) ->
       exists r,
         snd (validateApiKey env' (db (fst (revokeApiKey env w req id))) req')
         = Respond r
         /\ status r = 401.
Proof.
  intros Hnd Hin Hu Hid Hdb. unfold revokeApiKey. rewrite Hu, Hid, Hdb.
  destruct (owned_found _ _ Hin) as (first & more & ->). cbn [fst snd status db].
  split; [reflexivity|]. intros env' req' Hdb' Hkey.
  apply no_valid_row_401; [assumption|].
  intros apiKey ak' Hk Hin'. rewrite Hkey in Hk. injection Hk as <-.
  cbn [api_keys with_api_keys] in Hin'.
  apply update_where_in in Hin' as [x [Hx [[Hc ->] | [Hc ->]]]].
  - unfold key_is_valid. cbn. now rewrite andb_false_r.
  - unfold key_is_valid.
    destruct (String.eqb_spec (ak_api_key x) (ak_api_key ak)) as [Heq|];
      [|reflexivity].
    rewrite (NoDup_map_injective ak_api_key _ x ak Hnd Hx Hin Heq) in Hc.
    now rewrite owned_by_self in Hc.
Qed.

(** X22.  The three handlers that take a key id answer 404 "API key not
    found" whenever the caller has no key of that id -- the id being
    unknown or that of another account's key, with nothing telling the
    two apart -- and then leave the store and the cache untouched. *)
Theorem foreign_key_not_found
    (env : Env) (randomBytes : nat -> list Byte.byte) (days : Z)
    (w : World) (req : Request) (id uuid userId : string) :
  user_id req = Some userId -> pg_uuid id = Some uuid -> db_ok env = true ->
  (forall ak, In ak (api_keys (db w)) -> ak_id ak = uuid ->
              ak_user_id ak <> userId) ->
  getApiKey env (db w) req id = failure 404 "API key not found"
  /\ revokeApiKey env w req id = (w, failure 404 "API key not found")
  /\ regenerateApiKey env randomBytes days w req id
     = (w, failure 404 "API key not found").
Proof.
  intros Hu Hid Hdb Hforeign.
  assert (Hnone : List.filter (owned_by uuid userId) (api_keys (db w)) = []).
  { apply SqlSpec.filter_none. intros ak Hin. unfold owned_by.
    destruct (String.eqb_spec (ak_id ak) uuid) as [Heq|]; [|reflexivity].
    cbn. apply String.eqb_neq. now apply Hforeign. }
  unfold getApiKey, revokeApiKey, regenerateApiKey.
  rewrite Hu, Hid, Hdb, Hnone. auto.
Qed.

(** X23.  A registered key works at once: when registration answers 201,
    the secret in the answer is the generated one, and the validator
    accepts it for as long as the expiry lies ahead, handing on the new row
    (its id the generated one, its owner the caller). *)
Theorem registered_key_accepted
    (env : Env) (randomBytes : nat -> list Byte.byte) (days : Z)
    (d : Db) (req : Request) (body : RegisterBody) :
  length (randomBytes 32%nat) = 32%nat ->
  status (snd (registerApp env randomBytes days d req body)) = 201 ->
  let apiKey := generateApiKey randomBytes 32 in
  (exists data,
      jget "data" (Store.body (snd (registerApp env randomBytes days d req body)))
      = Some data
      /\ jget "api_key" data = Some (JStr apiKey))
  /\ forall env' req',
       db_ok env' = true -> h_x_api_key req' = Some apiKey ->
       now env' < generateExpiryDate (now env) days ->
       exists a,
         snd (validateApiKey env'
                (fst (registerApp env randomBytes days d req body)) req')
         = Next a
         /\ ak_id (key_row a) = new_uuid env
         /\ Some (ak_user_id (key_row a)) = user_id req
         /\ Some (owner_id a) = user_id req.
Proof.
  intros Hlen H201 apiKey. unfold registerApp in *.
  destruct (user_id req) as [u|]; [|discriminate].
  destruct (db_ok env); [|discriminate].
  match type of H201 with
  | context [insert_api_key ?d0 ?row0] =>
      set (row := row0) in *;
      destruct (insert_api_key d0 row) as [d'|] eqn:E; [|discriminate]
  end.
  apply insert_api_key_checks in E as (-> & Hid & Hkey & (usr & Husr & Hown)).
  cbn [fst snd Store.body]. split.
  { eexists. split; reflexivity. }
  intros env' req' Hdb' Hh Hexp.
  assert (Hne : apiKey <> "").
  { intros Heq. pose proof (toHex_32_length _ Hlen) as Hl.
    fold apiKey in Hl. rewrite Heq in Hl. discriminate. }
  unfold validateApiKey.
  rewrite (AuthSpec.truthy_key _ _ Hh Hne), Hdb'.
  assert (Hvalid : key_is_valid (now env') apiKey row = true).
  { unfold key_is_valid. cbn. rewrite String.eqb_refl. cbn.
    now apply Z.ltb_lt. }
  match goal with
  | |- context [select_api_key ?d1 ?t ?k] =>
      destruct (select_api_key d1 t k) as [|a rows] eqn:Hsel
  end.
  - exfalso.
    assert (Hin : In {| key_row := row; owner_id := u_id usr;
                        owner_email := u_email usr |} [])
      by (rewrite <- Hsel; apply AuthSpec.in_select_api_key; cbn;
          repeat split; [apply in_app_iff; right; now left
                        | exists usr; auto | exact Hvalid]).
    exact Hin.
  - assert (Hin : In a (a :: rows)) by now left.
    rewrite <- Hsel in Hin.
    apply AuthSpec.in_select_api_key in Hin
      as (Hak & (u0 & _ & Hu0 & Ho & _) & V).
    cbn [api_keys] in Hak.
    assert (Hrow : key_row a = row).
    { apply in_app_iff in Hak as [Hold | [<- | []]]; [|reflexivity].
      exfalso. unfold key_is_valid in V.
      rewrite !andb_true_iff, String.eqb_eq in V.
      destruct V as [[Vk _] _]. exact (Hkey _ Hold Vk). }
    cbn [snd]. exists a. split; [reflexivity|].
    rewrite Ho, Hu0, Hrow. cbn. auto.
Qed.

(** X24.  Regenerating swaps the secret: when the owner's regeneration
    answers 200, the validator accepts the new secret for the same key id
    and owner for as long as the new expiry lies ahead, and answers 401 to
    the old secret. *)
Theorem regenerated_key_swaps
    (env : Env) (randomBytes : nat -> list Byte.byte) (days : Z)
    (w : World) (req : Request) (id : string) (ak : ApiKeyRow) :
  NoDup (List.map ak_api_key (api_keys (db w))) ->
  owners_exist (db w) ->
  In ak (api_keys (db w)) ->
  user_id req = Some (ak_user_id ak) -> pg_uuid id = Some (ak_id ak) ->
  length (randomBytes 32%nat) = 32%nat ->
  status (snd (regenerateApiKey env randomBytes days w req id)) = 200 ->
  forall env' req',
    db_ok env' = true ->
    (h_x_api_key req' = Some (generateApiKey randomBytes 32) ->
     now env' < generateExpiryDate (now env) days ->
     exists a,
       snd (validateApiKey env'
              (db (fst (regenerateApiKey env randomBytes days w req id))) req')
       = Next a
       /\ ak_id (key_row a) = ak_id ak
       /\ owner_id a = ak_user_id ak)
    /\ (h_x_api_key req' = Some (ak_api_key ak) ->
        ak_api_key ak <> generateApiKey randomBytes 32 ->
        exists r,
          snd (validateApiKey env'
                 (db (fst (regenerateApiKey env randomBytes days w req id)))
                 req')
          = Respond r
          /\ status r = 401).
Proof.
  intros Hnd Hown Hin Hu Hid Hlen H200 env' req' Hdb'.
  unfold regenerateApiKey in *. rewrite Hu, Hid in *.
  destruct (db_ok env); [|discriminate].
  destruct (owned_found _ _ Hin) as (first & more & Hf). rewrite Hf in *.
  match type of H200 with
  | context [if ?c then _ else _] => destruct c eqn:E; [discriminate|]
  end.
  rewrite !orb_false_iff in E. destruct E as [[Hclash _] _].
  cbn [fst snd db]. clear H200.
  set (newApiKey := generateApiKey randomBytes 32) in *.
  set (expiresAt := generateExpiryDate (now env) days) in *.
  split.
  - intros Hh Hexp.
    assert (Hne : newApiKey <> "").
    { intros Heq. pose proof (toHex_32_length _ Hlen) as Hl.
      fold newApiKey in Hl. rewrite Heq in Hl. discriminate. }
    unfold validateApiKey. rewrite (AuthSpec.truthy_key _ _ Hh Hne), Hdb'.
    match goal with
    | |- context [select_api_key ?d1 ?t ?k] =>
        destruct (select_api_key d1 t k) as [|a rows] eqn:Hsel
    end.
    + exfalso. destruct (Hown ak Hin) as (usr & Husr & Husr').
      assert (Hmem : In {| key_row := regenerated newApiKey expiresAt ak;
                           owner_id := u_id usr;
                           owner_email := u_email usr |} []).
      { rewrite <- Hsel. apply AuthSpec.in_select_api_key. cbn.
        split; [|split].
        - apply in_map_iff. exists ak.
          split; [now rewrite owned_by_self | assumption].
        - exists usr. auto.
        - unfold key_is_valid. cbn. rewrite String.eqb_refl. cbn.
          now apply Z.ltb_lt. }
      exact Hmem.
    + assert (Hmem : In a (a :: rows)) by now left.
      rewrite <- Hsel in Hmem.
      apply AuthSpec.in_select_api_key in Hmem
        as (Hak & (u0 & _ & Hu0 & Ho & _) & V).
      cbn [api_keys with_api_keys] in Hak.
      cbn [snd]. exists a. split; [reflexivity|].
      apply update_where_in in Hak as [x [Hx [[Hc Hrow] | [Hc Hrow]]]].
      * unfold owned_by in Hc.
        rewrite andb_true_iff, !String.eqb_eq in Hc. destruct Hc as [Hi Hw].
        rewrite Ho, Hu0, Hrow. cbn. auto.
      * exfalso. rewrite Hrow in V. unfold key_is_valid in V.
        rewrite !andb_true_iff in V. destruct V as [[Vk _] _].
        pose proof (existsb_none _ _ Hclash x Hx) as Hfalse. cbn in Hfalse.
        rewrite Hc, Vk in Hfalse. discriminate.
  - intros Hh Hold. apply no_valid_row_401; [assumption|].
    intros apiKey ak' Hk Hin'. rewrite Hh in Hk. injection Hk as <-.
    cbn [api_keys with_api_keys] in Hin'.
    apply update_where_in in Hin' as [x [Hx [[Hc ->] | [Hc ->]]]].
    + unfold key_is_valid. cbn.
      destruct (String.eqb_spec newApiKey (ak_api_key ak)) as [Heq|];
        [|reflexivity].
      now rewrite Heq in Hold.
    + unfold key_is_valid.
      destruct (String.eqb_spec (ak_api_key x) (ak_api_key ak)) as [Heq|];
        [|reflexivity].
      rewrite (NoDup_map_injective ak_api_key _ x ak Hnd Hx Hin Heq) in Hc.
      now rewrite owned_by_self in Hc.
Qed.

(** X25.  Revoking or regenerating a key removes from the cache at most
    the one entry whose name is literally "apikey:<id>:*": the name is
    handed to the exact-key delete, not to the pattern delete, so every
    other entry -- those named "apikey:<id>:..." among them -- stays. *)
Theorem key_change_keeps_cache
    (env : Env) (randomBytes : nat -> list Byte.byte) (days : Z)
    (w : World) (req : Request) (id key : string) :
  key <> ("apikey:" ++ id ++ ":*")%string ->
  redis (fst (revokeApiKey env w req id)) !! key = redis w !! key
  /\ redis (fst (regenerateApiKey env randomBytes days w req id)) !! key
     = redis w !! key.
Proof.
  intros Hkey.
  assert (Hdel : cacheDelete env (redis w) ("apikey:" ++ id ++ ":*")%string !! key
                 = redis w !! key).
  { unfold cacheDelete. destruct (redis_ok env); [|reflexivity].
    apply lookup_delete_ne. congruence. }
  unfold revokeApiKey, regenerateApiKey.
  destruct (user_id req) as [u|]; [|auto].
  destruct (pg_uuid id) as [uuid|]; [|auto].
  destruct (db_ok env); [|auto].
  destruct (List.filter (owned_by uuid u) (api_keys (db w))) as [|ak more];
    [auto|].
  split; [exact Hdel|].
  match goal with
  | |- context [if ?c then _ else _] => destruct c
  end; [reflexivity | exact Hdel].
Qed.

End Keys.

Lemma insert_by_perm {A : Type} (before : A -> A -> bool) x l :
  Permutation (insert_by before x l) (x :: l).
Proof.
  induction l as [|y l IH]; cbn; [reflexivity|].
  destruct (before x y); [reflexivity|].
  etransitivity; [apply perm_skip, IH | apply perm_swap].
Qed.

Lemma order_by_perm {A : Type} (before : A -> A -> bool) l :
  Permutation (order_by before l) l.
Proof.
  induction l as [|x l IH]; [constructor|].
  change (order_by before (x :: l))
    with (insert_by before x (order_by before l)).
  etransitivity; [apply insert_by_perm | now apply perm_skip].
Qed.

Section Sorting.
Context {A : Type} (before : A -> A -> bool).
Hypothesis total : forall a b, before a b = false -> before b a = true.
Hypothesis transitive :
  forall a b c, before a b = true -> before b c = true -> before a c = true.

Lemma insert_by_sorted x l :
  StronglySorted (fun a b => before a b = true) l ->
  StronglySorted (fun a b => before a b = true) (insert_by before x l).
Proof.
  induction 1 as [|y l Hs IH Hall]; cbn.
  - constructor; constructor.
  - destruct (before x y) eqn:E.
    + constructor; [now constructor|].
      constructor; [exact E|].
      apply List.Forall_forall. intros z Hz.
      rewrite List.Forall_forall in Hall. eauto.
    + constructor; [exact IH|].
      apply List.Forall_forall. intros z Hz.
      apply (Permutation_in _ (insert_by_perm before x l)) in Hz.
      destruct Hz as [<- | Hz]; [now apply total|].
      rewrite List.Forall_forall in Hall. auto.
Qed.

Lemma order_by_sorted l :
  StronglySorted (fun a b => before a b = true) (order_by before l).
Proof.
  induction l as [|x l IH]; [constructor|].
  change (order_by before (x :: l))
    with (insert_by before x (order_by before l)).
  now apply insert_by_sorted.
Qed.

End Sorting.

Lemma not_older_total a b : not_older a b = false -> not_older b a = true.
Proof.
  unfold not_older.
  destruct (ak_created_at a), (ak_created_at b); try easy.
  intros H. apply Z.leb_gt in H. apply Z.leb_le. lia.
Qed.

Lemma not_older_trans a b c :
  not_older a b = true -> not_older b c = true -> not_older a c = true.
Proof.
  unfold not_older.
  destruct (ak_created_at a), (ak_created_at b), (ak_created_at c); try easy.
  rewrite !Z.leb_le. lia.
Qed.

(** X26.  The key listing of a logged-in account holds each key of the
    account once and no key of another account, ordered by creation time
    from the newest to the oldest (keys without one first). *)
Theorem key_listing_owned_sorted
    (env : Env) (d : Db) (req : Request) (userId : string) :
  user_id req = Some userId -> db_ok env = true ->
  exists keys,
    getApiKeys env d req
    = {| status := 200;
         body := JObj [("success", JBool true);
                       ("data", JArr (List.map key_json keys))] |}
    /\ Permutation keys
         (List.filter (fun ak => String.eqb (ak_user_id ak) userId)
                      (api_keys d))
    /\ (forall ak, In ak keys -> ak_user_id ak = userId)
    /\ StronglySorted (fun a b => not_older a b = true) keys.
Proof.
  intros Hu Hdb. exists (keys_of d userId). unfold getApiKeys.
  rewrite Hu, Hdb. split; [reflexivity|].
  assert (Hperm : Permutation (keys_of d userId)
            (List.filter (fun ak => String.eqb (ak_user_id ak) userId)
                         (api_keys d))) by apply order_by_perm.
  split; [exact Hperm|]. split.
  - intros ak Hin. apply (Permutation_in _ Hperm) in Hin.
    apply List.filter_In in Hin as [_ Hin]. now apply String.eqb_eq.
  - apply order_by_sorted; [exact not_older_total | exact not_older_trans].
Qed.

Import Reference ReferenceStore.

Lemma key_table_constraints_kept_witness :
  keys_ok (fst (registerApp (Demo.env_at 1000 "0d0d0d0d-0000-4000-8000-000000000004")
                  (constant_bytes Byte.x2a) 365 (db Demo.w0) Demo.session
                  {| r_app_name := "Shop"; r_app_domain := None |}))
  /\ keys_ok (db (fst (revokeApiKey
                         (Demo.env_at 1000 "0d0d0d0d-0000-4000-8000-000000000004")
                         Demo.w0 Demo.session (ak_id Demo.demo_key))))
  /\ keys_ok (db (fst (regenerateApiKey
                         (Demo.env_at 1000 "0d0d0d0d-0000-4000-8000-000000000004")
                         (constant_bytes Byte.x2a) 365
                         Demo.w0 Demo.session (ak_id Demo.demo_key))))
  /\ keys_ok (fst (validateApiKey
                     (Demo.env_at 1000 "0d0d0d0d-0000-4000-8000-000000000004")
                     (db Demo.w0) Demo.session)).
Proof.
  apply key_table_constraints_kept.
  split; [|split].
  - apply (bool_decide_unpack _). vm_compute. exact I.
  - apply (bool_decide_unpack _). vm_compute. exact I.
  - intros ak [<- | [<- | []]]; exists Demo.alice;
      (split; [now left | reflexivity]).
Defined.

Lemma revoked_key_rejected_witness :
  status (snd (revokeApiKey (Demo.env_at 1000 "") Demo.w0 Demo.session
                 (ak_id Demo.demo_key))) = 200
  /\ forall env' req',
       db_ok env' = true ->
       h_x_api_key req' = Some (ak_api_key Demo.demo_key) ->
       exists r,
         snd (validateApiKey env'
                (db (fst (revokeApiKey (Demo.env_at 1000 "") Demo.w0
                            Demo.session (ak_id Demo.demo_key)))) req')
         = Respond r
         /\ status r = 401.
Proof.
  apply (revoked_key_rejected (Demo.env_at 1000 "") Demo.w0 Demo.session
           (ak_id Demo.demo_key) Demo.demo_key).
  - apply (bool_decide_unpack _). vm_compute. exact I.
  - now left.
  - reflexivity.
  - vm_compute. reflexivity.
  - reflexivity.
Defined.

Lemma foreign_key_not_found_witness :
  getApiKey (Demo.env_at 1000 "") (db Demo.w0) stranger (ak_id Demo.demo_key)
  = failure 404 "API key not found"
  /\ revokeApiKey (Demo.env_at 1000 "") Demo.w0 stranger (ak_id Demo.demo_key)
     = (Demo.w0, failure 404 "API key not found")
  /\ regenerateApiKey (Demo.env_at 1000 "") (constant_bytes Byte.x2a) 365
       Demo.w0 stranger (ak_id Demo.demo_key)
     = (Demo.w0, failure 404 "API key not found").
Proof.
  apply (foreign_key_not_found (Demo.env_at 1000 "") (constant_bytes Byte.x2a)
           365 Demo.w0 stranger (ak_id Demo.demo_key) (ak_id Demo.demo_key)
           "0f0f0f0f-0000-4000-8000-000000000009").
  - reflexivity.
  - vm_compute. reflexivity.
  - reflexivity.
  - intros ak [<- | [<- | []]] _; vm_compute; discriminate.
Defined.

Lemma registered_key_accepted_witness :
  (exists data,
      jget "data"
        (Store.body
           (snd (registerApp
                   (Demo.env_at 1000 "0d0d0d0d-0000-4000-8000-000000000004")
                   (constant_bytes Byte.x2a) 365 Demo.db0 Demo.session
                   {| r_app_name := "Shop"; r_app_domain := None |})))
      = Some data
      /\ jget "api_key" data
         = Some (JStr (generateApiKey (constant_bytes Byte.x2a) 32)))
  /\ forall env' req',
       db_ok env' = true ->
       h_x_api_key req' = Some (generateApiKey (constant_bytes Byte.x2a) 32) ->
       now env' < generateExpiryDate 1000 365 ->
       exists a,
         snd (validateApiKey env'
                (fst (registerApp
                        (Demo.env_at 1000 "0d0d0d0d-0000-4000-8000-000000000004")
                        (constant_bytes Byte.x2a) 365 Demo.db0 Demo.session
                        {| r_app_name := "Shop"; r_app_domain := None |})) req')
         = Next a
         /\ ak_id (key_row a) = "0d0d0d0d-0000-4000-8000-000000000004"
         /\ Some (ak_user_id (key_row a)) = user_id Demo.session
         /\ Some (owner_id a) = user_id Demo.session.
Proof.
  apply (registered_key_accepted
           (Demo.env_at 1000 "0d0d0d0d-0000-4000-8000-000000000004")
           (constant_bytes Byte.x2a) 365 Demo.db0 Demo.session
           {| r_app_name := "Shop"; r_app_domain := None |}).
  - reflexivity.
  - vm_compute. reflexivity.
Defined.

Lemma regenerated_key_swaps_witness :
  (h_x_api_key (Demo.with_key (Some (ak_api_key Demo.demo_key)))
   = Some (generateApiKey (constant_bytes Byte.x2a) 32) ->
   now (Demo.env_at 2000 "") < generateExpiryDate 1000 365 ->
   exists a,
     snd (validateApiKey (Demo.env_at 2000 "")
            (db (fst (regenerateApiKey (Demo.env_at 1000 "")
                        (constant_bytes Byte.x2a) 365 Demo.w0 Demo.session
                        (ak_id Demo.demo_key))))
            (Demo.with_key (Some (ak_api_key Demo.demo_key))))
     = Next a
     /\ ak_id (key_row a) = ak_id Demo.demo_key
     /\ owner_id a = ak_user_id Demo.demo_key)
  /\ (h_x_api_key (Demo.with_key (Some (ak_api_key Demo.demo_key)))
      = Some (ak_api_key Demo.demo_key) ->
      ak_api_key Demo.demo_key <> generateApiKey (constant_bytes Byte.x2a) 32 ->
      exists r,
        snd (validateApiKey (Demo.env_at 2000 "")
               (db (fst (regenerateApiKey (Demo.env_at 1000 "")
                           (constant_bytes Byte.x2a) 365 Demo.w0 Demo.session
                           (ak_id Demo.demo_key))))
               (Demo.with_key (Some (ak_api_key Demo.demo_key))))
        = Respond r
        /\ status r = 401).
Proof.
  apply (regenerated_key_swaps (Demo.env_at 1000 "") (constant_bytes Byte.x2a)
           365 Demo.w0 Demo.session (ak_id Demo.demo_key) Demo.demo_key).
  - apply (bool_decide_unpack _). vm_compute. exact I.
  - intros ak [<- | [<- | []]]; exists Demo.alice;
      (split; [now left | reflexivity]).
  - now left.
  - reflexivity.
  - vm_compute. reflexivity.
  - reflexivity.
  - vm_compute. reflexivity.
  - reflexivity.
Defined.

Lemma key_change_keeps_cache_witness :
  redis (fst (revokeApiKey (Demo.env_at 1000 "") Demo.w0 Demo.session
                (ak_id Demo.demo_key)))
    !! ("apikey:" ++ ak_id Demo.demo_key ++ ":summary")%string
  = redis Demo.w0 !! ("apikey:" ++ ak_id Demo.demo_key ++ ":summary")%string
  /\ redis (fst (regenerateApiKey (Demo.env_at 1000 "")
                   (constant_bytes Byte.x2a) 365 Demo.w0 Demo.session
                   (ak_id Demo.demo_key)))
       !! ("apikey:" ++ ak_id Demo.demo_key ++ ":summary")%string
     = redis Demo.w0 !! ("apikey:" ++ ak_id Demo.demo_key ++ ":summary")%string.
Proof.
  apply (key_change_keeps_cache (Demo.env_at 1000 "") (constant_bytes Byte.x2a)
           365 Demo.w0 Demo.session (ak_id Demo.demo_key)
           ("apikey:" ++ ak_id Demo.demo_key ++ ":summary")%string).
  vm_compute. discriminate.
Defined.

Lemma key_listing_owned_sorted_witness :
  exists keys,
    getApiKeys (Demo.env_at 1000 "") Demo.db0 Demo.session
    = {| status := 200;
         body := JObj [("success", JBool true);
                       ("data", JArr (List.map key_json keys))] |}
    /\ Permutation keys
         (List.filter
            (fun ak => String.eqb (ak_user_id ak) (u_id Demo.alice))
            (api_keys Demo.db0))
    /\ (forall ak, In ak keys -> ak_user_id ak = u_id Demo.alice)
    /\ StronglySorted (fun a b => not_older a b = true) keys.
Proof.
  apply (key_listing_owned_sorted (Demo.env_at 1000 "") Demo.db0 Demo.session
           (u_id Demo.alice)); reflexivity.
Defined.

End KeyManagementProps.

(** ** The routes of the analytics API *)

Module RouteProps.
Import JsString Json Store Auth RateLimiter Analytics Validation Routes.
Local Open Scope list_scope.

Lemma rateLimit_verdict (o : Options) store t req :
  snd (rateLimit o store t req) = Next tt
  \/ snd (rateLimit o store t req) = refused o.
Proof.
  unfold rateLimit, refused.
  destruct (store !! keyGenerator o req) as [[h r]|]; [destruct (t <? r)|];
    match goal with
    | |- context [(max o <? ?n)%nat] => destruct (max o <? n)%nat
    end; auto.
Qed.

Lemma optionalApiKey_next env d req :
  exists a, optionalApiKey env d req = Next a.
Proof.
  unfold optionalApiKey.
  destruct (or_else (h_x_api_key req) None); [|eauto].
  destruct (db_ok env); [|eauto].
  destruct (select_api_key d (now env) s); eauto.
Qed.

Lemma or_else_none_some (a : option string) k :
  or_else a None = Some k -> a = Some k /\ k <> "".
Proof.
  unfold or_else, truthy. destruct a as [x|]; [|discriminate].
  destruct (String.eqb_spec x ""); [discriminate|].
  intros [= ->]. auto.
Qed.

(** What the validator leaves of the store: all but the usage stamps. *)
Lemma validateApiKey_frame env d req :
  users (fst (validateApiKey env d req)) = users d
  /\ events (fst (validateApiKey env d req)) = events d.
Proof.
  unfold validateApiKey.
  destruct (or_else (h_x_api_key req) None); [|auto].
  destruct (db_ok env); [|auto].
  destruct (select_api_key d (now env) s); auto.
Qed.

Lemma validateApiKey_next env d req a :
  snd (validateApiKey env d req) = Next a ->
  exists apiKey,
    h_x_api_key req = Some apiKey /\ apiKey <> "" /\ db_ok env = true
    /\ In a (select_api_key d (now env) apiKey)
    /\ fst (validateApiKey env d req)
       = touch_last_used d (now env) (ak_id (key_row a)).
Proof.
  unfold validateApiKey.
  destruct (or_else (h_x_api_key req) None) as [apiKey|] eqn:E;
    [|discriminate].
  apply or_else_none_some in E as [Hh Hne].
  destruct (db_ok env); [|discriminate].
  destruct (select_api_key d (now env) apiKey) as [|a0 rows] eqn:Hsel;
    [discriminate|].
  cbn. intros [= <-]. exists apiKey. rewrite Hsel. repeat split; auto.
  now left.
Qed.

Section Router.
Context {RT : Runtime}.
Context {RawBody RawQuery : Type}.
Variable collectEvent_schema
  : RawBody -> list (list string * string) + CollectBody.
Variable eventSummaryQuery_schema
  : RawQuery -> list (list string * string) + SummaryQuery.
Variable userStatsQuery_schema
  : RawQuery -> list (list string * string) + string.
Variable default_key : Request -> string.

Lemma query_route_needs_login {Q : Type}
    (schema : RawQuery -> list (list string * string) + Q)
    (handler : Env -> World -> Request -> Q -> World * Response)
    env srv req raw :
  user_id req = None ->
  world (fst (query_route default_key schema handler env srv req raw))
  = world srv
  /\ (snd (query_route default_key schema handler env srv req raw)
      = failure 401 "Authentication required. Please login with Google."
      \/ status (snd (query_route default_key schema handler env srv req raw))
         = 429).
Proof.
  intros Hu. unfold query_route. cbv zeta.
  destruct (rateLimit_verdict (analyticsLimiter default_key) (query_hits srv)
              (now env) req) as [-> | ->]; [|cbn; auto].
  destruct (optionalApiKey_next env (db (world srv)) req) as [a ->].
  unfold isAuthenticated. rewrite Hu. cbn. auto.
Qed.

(** X27.  The two query routes serve no request without a login: with no
    session user the answer is 401 "Authentication required. Please login
    with Google." (or the throttle's 429), whatever API key and query the
    request carries, and neither the store nor the cache changes. *)
Theorem query_routes_need_login
    (env : Env) (srv : Server) (req : Request) (raw : RawQuery) :
  user_id req = None ->
  (world (fst (get_event_summary eventSummaryQuery_schema default_key
                 env srv req raw)) = world srv
   /\ (snd (get_event_summary eventSummaryQuery_schema default_key
              env srv req raw)
       = failure 401 "Authentication required. Please login with Google."
       \/ status (snd (get_event_summary eventSummaryQuery_schema default_key
                         env srv req raw)) = 429))
  /\ (world (fst (get_user_stats userStatsQuery_schema default_key
                    env srv req raw)) = world srv
      /\ (snd (get_user_stats userStatsQuery_schema default_key
                 env srv req raw)
          = failure 401 "Authentication required. Please login with Google."
          \/ status (snd (get_user_stats userStatsQuery_schema default_key
                            env srv req raw)) = 429)).
Proof.
  intros Hu. split; now apply query_route_needs_login.
Qed.

(** X28.  A collection request that is not answered 201 stores nothing:
    the events, the accounts and the cache are as before. *)
Theorem rejected_event_stores_nothing
    (env : Env) (srv : Server) (req : Request) (raw : RawBody) :
  status (snd (post_collect collectEvent_schema env srv req raw)) <> 201 ->
  events (db (world (fst (post_collect collectEvent_schema env srv req raw))))
  = events (db (world srv))
  /\ users (db (world (fst (post_collect collectEvent_schema env srv req raw))))
     = users (db (world srv))
  /\ redis (world (fst (post_collect collectEvent_schema env srv req raw)))
     = redis (world srv).
Proof.
  unfold post_collect. cbv zeta.
  destruct (snd (rateLimit eventCollectionLimiter (collection_hits srv)
                   (now env) req)) as [admitted|refusal]; [|cbn; auto].
  destruct (validateApiKey_frame env (db (world srv)) req) as [Hus Hev].
  destruct (snd (validateApiKey env (db (world srv)) req)) as [a|r];
    [|cbn; auto].
  unfold validate. destruct (collectEvent_schema raw) as [details|body];
    [cbn; auto|].
  unfold collectEvent. destruct (db_ok env); cbn; [|auto].
  intros H. now contradiction H.
Qed.

(** X29.  Every event the collection route stores is attributed to a key
    whose secret the request presented and that is usable at that time:
    when the answer is 201, the table of events has grown by exactly the
    row built from the request, the validated body and the id of such a
    key. *)
Theorem stored_event_attributed
    (env : Env) (srv : Server) (req : Request) (raw : RawBody) :
  status (snd (post_collect collectEvent_schema env srv req raw)) = 201 ->
  exists ak body,
    In ak (api_keys (db (world srv)))
    /\ h_x_api_key req = Some (ak_api_key ak)
    /\ usable (now env) ak
    /\ collectEvent_schema raw = inr body
    /\ events (db (world (fst (post_collect collectEvent_schema
                                 env srv req raw))))
       = events (db (world srv)) ++ [event_row env req (ak_id ak) body].
Proof.
  unfold post_collect. cbv zeta.
  destruct (rateLimit_verdict eventCollectionLimiter (collection_hits srv)
              (now env) req) as [-> | ->]; [|discriminate].
  destruct (validateApiKey_frame env (db (world srv)) req) as [_ Hev].
  destruct (snd (validateApiKey env (db (world srv)) req)) as [a|r] eqn:E.
  - apply validateApiKey_next in E as (apiKey & Hh & _ & Hdb & Hin & _).
    apply AuthSpec.in_select_api_key in Hin as (Hak & _ & V).
    apply AuthSpec.key_is_valid_spec in V as [Hkey Huse].
    unfold validate. destruct (collectEvent_schema raw) as [details|body];
      [discriminate|].
    unfold collectEvent. rewrite Hdb. cbn. intros _.
    exists (key_row a), body. rewrite Hkey, Hev. auto.
  - unfold validateApiKey in E.
    destruct (or_else (h_x_api_key req) None); [|injection E as <-; discriminate].
    destruct (db_ok env); [|injection E as <-; discriminate].
    destruct (select_api_key (db (world srv)) (now env) s);
      [injection E as <-; discriminate | discriminate].
Qed.

(** X30.  A request the throttle admits, with the secret of a usable key
    and a body the schema accepts, is answered 201 when the store
    answers: exactly one row is appended, built from the request and the
    body under that key's id, and the key's last use is stamped with the
    time of the request. *)
Theorem usable_key_event_stored
    (env : Env) (srv : Server) (req : Request) (raw : RawBody)
    (ak : ApiKeyRow) (body : CollectBody) :
  snd (rateLimit eventCollectionLimiter (collection_hits srv) (now env) req)
  = Next tt ->
  NoDup (List.map ak_api_key (api_keys (db (world srv)))) ->
  owners_exist (db (world srv)) ->
  In ak (api_keys (db (world srv))) -> usable (now env) ak ->
  ak_api_key ak <> "" -> h_x_api_key req = Some (ak_api_key ak) ->
  collectEvent_schema raw = inr body -> db_ok env = true ->
  status (snd (post_collect collectEvent_schema env srv req raw)) = 201
  /\ events (db (world (fst (post_collect collectEvent_schema
                               env srv req raw))))
     = events (db (world srv)) ++ [event_row env req (ak_id ak) body]
  /\ exists ak',
       In ak' (api_keys (db (world (fst (post_collect collectEvent_schema
                                           env srv req raw)))))
       /\ ak_id ak' = ak_id ak /\ ak_api_key ak' = ak_api_key ak
       /\ ak_last_used_at ak' = Some (now env).
Proof.
  intros Hlim Hnd Hown Hin Huse Hne Hh Hschema Hdb.
  unfold post_collect. cbv zeta. rewrite Hlim.
  destruct (snd (validateApiKey env (db (world srv)) req)) as [a|r] eqn:E.
  - apply validateApiKey_next in E as (apiKey & Hh' & _ & _ & Hsel & Hfst).
    rewrite Hh in Hh'. injection Hh' as <-.
    apply AuthSpec.in_select_api_key in Hsel as (Hak & _ & V).
    apply AuthSpec.key_is_valid_spec in V as [Hkey _].
    assert (Hrow : key_row a = ak)
      by exact (KeyManagementProps.NoDup_map_injective ak_api_key _ _ _
                  Hnd Hak Hin Hkey).
    unfold validate. rewrite Hschema. unfold collectEvent. rewrite Hdb.
    cbn. rewrite Hfst, Hrow. cbn. split; [reflexivity|].
    split; [reflexivity|].
    eexists. split.
    + apply in_map_iff. exists ak. split; [reflexivity | exact Hin].
    + rewrite String.eqb_refl. cbn. auto.
  - exfalso. unfold validateApiKey in E.
    rewrite (AuthSpec.truthy_key _ _ Hh Hne), Hdb in E.
    destruct (select_api_key (db (world srv)) (now env) (ak_api_key ak))
      as [|a rows] eqn:Hsel; [|discriminate].
    destruct (Hown ak Hin) as (usr & Husr & Hid).
    assert (Hmem : In {| key_row := ak; owner_id := u_id usr;
                         owner_email := u_email usr |} []).
    { rewrite <- Hsel. apply AuthSpec.in_select_api_key. cbn.
      split; [assumption|]. split; [exists usr; auto|].
      now apply AuthSpec.key_is_valid_spec. }
    exact Hmem.
Qed.

End Router.

Import Reference.

Lemma query_routes_need_login_witness :
  (world (fst (get_event_summary (fun q : SummaryQuery => inr q)
                 (fun req => or_default (ip req) "unknown")
                 (Demo.env_at 1000 "")
                 {| world := Demo.w0; collection_hits := ∅; query_hits := ∅ |}
                 Demo.ingest Demo.clicks)) = Demo.w0
   /\ (snd (get_event_summary (fun q : SummaryQuery => inr q)
              (fun req => or_default (ip req) "unknown")
              (Demo.env_at 1000 "")
              {| world := Demo.w0; collection_hits := ∅; query_hits := ∅ |}
              Demo.ingest Demo.clicks)
       = failure 401 "Authentication required. Please login with Google."
       \/ status (snd (get_event_summary (fun q : SummaryQuery => inr q)
                         (fun req => or_default (ip req) "unknown")
                         (Demo.env_at 1000 "")
                         {| world := Demo.w0; collection_hits := ∅;
                            query_hits := ∅ |}
                         Demo.ingest Demo.clicks)) = 429))
  /\ (world (fst (get_user_stats (fun q : SummaryQuery => inr (q_event q))
                    (fun req => or_default (ip req) "unknown")
                    (Demo.env_at 1000 "")
                    {| world := Demo.w0; collection_hits := ∅;
                       query_hits := ∅ |}
                    Demo.ingest Demo.clicks)) = Demo.w0
      /\ (snd (get_user_stats (fun q : SummaryQuery => inr (q_event q))
                 (fun req => or_default (ip req) "unknown")
                 (Demo.env_at 1000 "")
                 {| world := Demo.w0; collection_hits := ∅; query_hits := ∅ |}
                 Demo.ingest Demo.clicks)
          = failure 401 "Authentication required. Please login with Google."
          \/ status (snd (get_user_stats
                            (fun q : SummaryQuery => inr (q_event q))
                            (fun req => or_default (ip req) "unknown")
                            (Demo.env_at 1000 "")
                            {| world := Demo.w0; collection_hits := ∅;
                               query_hits := ∅ |}
                            Demo.ingest Demo.clicks)) = 429)).
Proof.
  apply (query_routes_need_login (fun q : SummaryQuery => inr q)
           (fun q : SummaryQuery => inr (q_event q))
           (fun req => or_default (ip req) "unknown")
           (Demo.env_at 1000 "")
           {| world := Demo.w0; collection_hits := ∅; query_hits := ∅ |}
           Demo.ingest Demo.clicks).
  reflexivity.
Defined.

Lemma rejected_event_stores_nothing_witness :
  events (db (world (fst (post_collect (fun b : CollectBody => inr b)
                            (Demo.env_at 1000 "")
                            {| world := Demo.w0; collection_hits := ∅;
                               query_hits := ∅ |}
                            (Demo.with_key (Some (ak_api_key Demo.revoked_key)))
                            (Demo.click None)))))
  = events (db Demo.w0)
  /\ users (db (world (fst (post_collect (fun b : CollectBody => inr b)
                              (Demo.env_at 1000 "")
                              {| world := Demo.w0; collection_hits := ∅;
                                 query_hits := ∅ |}
                              (Demo.with_key
                                 (Some (ak_api_key Demo.revoked_key)))
                              (Demo.click None)))))
     = users (db Demo.w0)
  /\ redis (world (fst (post_collect (fun b : CollectBody => inr b)
                          (Demo.env_at 1000 "")
                          {| world := Demo.w0; collection_hits := ∅;
                             query_hits := ∅ |}
                          (Demo.with_key (Some (ak_api_key Demo.revoked_key)))
                          (Demo.click None))))
     = redis Demo.w0.
Proof.
  apply (rejected_event_stores_nothing (fun b : CollectBody => inr b)
           (Demo.env_at 1000 "")
           {| world := Demo.w0; collection_hits := ∅; query_hits := ∅ |}
           (Demo.with_key (Some (ak_api_key Demo.revoked_key)))
           (Demo.click None)).
  vm_compute. discriminate.
Defined.

Lemma stored_event_attributed_witness :
  exists ak body,
    In ak (api_keys (db Demo.w0))
    /\ h_x_api_key Demo.ingest = Some (ak_api_key ak)
    /\ usable 1000 ak
    /\ @inr (list (list string * string)) _ (Demo.click (Some "visitor-1"))
       = inr body
    /\ events (db (world (fst (post_collect (fun b : CollectBody => inr b)
                                 (Demo.env_at 1000
                                    "0e0e0e0e-0000-4000-8000-000000000001")
                                 {| world := Demo.w0; collection_hits := ∅;
                                    query_hits := ∅ |}
                                 Demo.ingest
                                 (Demo.click (Some "visitor-1"))))))
       = events (db Demo.w0)
         ++ [event_row (Demo.env_at 1000 "0e0e0e0e-0000-4000-8000-000000000001")
               Demo.ingest (ak_id ak) body].
Proof.
  apply (stored_event_attributed
           (fun b : CollectBody => @inr (list (list string * string)) _ b)
           (Demo.env_at 1000 "0e0e0e0e-0000-4000-8000-000000000001")
           {| world := Demo.w0; collection_hits := ∅; query_hits := ∅ |}
           Demo.ingest (Demo.click (Some "visitor-1"))).
  vm_compute. reflexivity.
Defined.

Lemma usable_key_event_stored_witness :
  status (snd (post_collect (fun b : CollectBody => inr b)
                 (Demo.env_at 1000 "0e0e0e0e-0000-4000-8000-000000000001")
                 {| world := Demo.w0; collection_hits := ∅; query_hits := ∅ |}
                 Demo.ingest (Demo.click (Some "visitor-1")))) = 201
  /\ events (db (world (fst (post_collect (fun b : CollectBody => inr b)
                               (Demo.env_at 1000
                                  "0e0e0e0e-0000-4000-8000-000000000001")
                               {| world := Demo.w0; collection_hits := ∅;
                                  query_hits := ∅ |}
                               Demo.ingest (Demo.click (Some "visitor-1"))))))
     = events (db Demo.w0)
       ++ [event_row (Demo.env_at 1000 "0e0e0e0e-0000-4000-8000-000000000001")
             Demo.ingest (ak_id Demo.demo_key) (Demo.click (Some "visitor-1"))]
  /\ exists ak',
       In ak' (api_keys
                 (db (world (fst (post_collect (fun b : CollectBody => inr b)
                                    (Demo.env_at 1000
                                       "0e0e0e0e-0000-4000-8000-000000000001")
                                    {| world := Demo.w0; collection_hits := ∅;
                                       query_hits := ∅ |}
                                    Demo.ingest
                                    (Demo.click (Some "visitor-1")))))))
       /\ ak_id ak' = ak_id Demo.demo_key
       /\ ak_api_key ak' = ak_api_key Demo.demo_key
       /\ ak_last_used_at ak' = Some 1000.
Proof.
  apply (usable_key_event_stored
           (fun b : CollectBody => @inr (list (list string * string)) _ b)
           (Demo.env_at 1000 "0e0e0e0e-0000-4000-8000-000000000001")
           {| world := Demo.w0; collection_hits := ∅; query_hits := ∅ |}
           Demo.ingest (Demo.click (Some "visitor-1")) Demo.demo_key
           (Demo.click (Some "visitor-1"))).
  - vm_compute. reflexivity.
  - apply (bool_decide_unpack _). vm_compute. exact I.
  - intros ak [<- | [<- | []]]; exists Demo.alice;
      (split; [now left | reflexivity]).
  - now left.
  - split; [reflexivity | now left].
  - discriminate.
  - reflexivity.
  - reflexivity.
  - reflexivity.
Defined.

End RouteProps.
